(** * Gameboy bus decoder: a shallow embedding of [gameboy/pd.py],
    [gameboy/lookups.py], [gameboy/utils.py] and
    [gameboy/hardware_constants.py], and the properties of the decoder
    that the design document states about them.

    Conventions of the embedding:
    - a Python [int] is a [Z]; a value that may be [None] is an [option];
    - a [dict] is a [gmap]; a [list] or [tuple] is a [list];
    - a [str] is a [string] (code points below 256);
    - an uncaught exception is the [Raise] case of [result]: it leaves
      [Decoder.decode], so the session ends with it;
    - the calls of [self.put] are collected, in order, in the field [out]
      of the decoder state. *)

From Stdlib Require Import ZArith NArith Lia.
From Stdlib Require Ascii String.
Export Ascii (ascii(..)).
Import Ascii.AsciiSyntax.
Delimit Scope char_scope with char.
From stdpp Require Import base option list gmap strings fin_maps.

Open Scope Z_scope.

(* ===================================================================== *)
(** ** Exceptions *)
(* ===================================================================== *)

Inductive exn : Type :=
| TypeError
| IndexError
| ValueError
| AttributeError
| KeyError.

Inductive result (A : Type) : Type :=
| Ok (a : A)
| Raise (e : exn).

Arguments Ok {A} a.
Arguments Raise {A} e.

#[global] Instance result_ret : MRet result := @Ok.

#[global] Instance result_bind : MBind result :=
  fun A B f m => match m with Ok a => f a | Raise e => Raise e end.

(* ===================================================================== *)
(** ** The Python built-ins the decoder relies on *)
(* ===================================================================== *)

(** [s.split(sep)] for a one-character separator: [n] occurrences of the
    separator give [n + 1] pieces, so the result is never empty. *)
Fixpoint str_split (sep : ascii) (s : string) : list string :=
  match s with
  | EmptyString => [EmptyString]
  | String c s' =>
      if Ascii.eqb c sep then EmptyString :: str_split sep s'
      else match str_split sep s' with
           | [] => [String c EmptyString]
           | p :: ps => String c p :: ps
           end
  end.

(** White space as [int(s, 16)] skips it: tab, line feed, vertical tab,
    form feed, carriage return, space, and the two Latin-1 spaces. *)
Definition is_space (c : ascii) : bool :=
  let n := Z.of_N (Ascii.N_of_ascii c) in
  ((9 <=? n) && (n <=? 13)) || (n =? 32) || (n =? 133) || (n =? 160).

Fixpoint lstrip (s : string) : string :=
  match s with
  | String c s' => if is_space c then lstrip s' else s
  | EmptyString => EmptyString
  end.

Definition hex_value (c : ascii) : option Z :=
  let n := Z.of_N (Ascii.N_of_ascii c) in
  if (48 <=? n) && (n <=? 57) then Some (n - 48)
  else if (97 <=? n) && (n <=? 102) then Some (n - 87)
  else if (65 <=? n) && (n <=? 70) then Some (n - 55)
  else None.

(** The digit scan of [int]: hexadecimal digits, single underscores only
    between digits.  Returns the value, whether anything was consumed, and
    the rest of the string; [None] is a syntax error. *)
Fixpoint scan_hex (s : string) (prev_underscore any : bool) (acc : Z)
  : option (Z * bool * string) :=
  match s with
  | String c s' =>
      if Ascii.eqb c "_"%char then
        if prev_underscore then None else scan_hex s' true true acc
      else
        match hex_value c with
        | Some d => scan_hex s' false true (16 * acc + d)
        | None => if prev_underscore then None else Some (acc, any, s)
        end
  | EmptyString => if prev_underscore then None else Some (acc, any, s)
  end.

Definition skip_sign (s : string) : Z * string :=
  match s with
  | String "+"%char s' => (1, s')
  | String "-"%char s' => (-1, s')
  | _ => (1, s)
  end.

Definition skip_0x (s : string) : string :=
  match s with
  | String "0"%char (String x s') =>
      if Ascii.eqb x "x"%char || Ascii.eqb x "X"%char then
        match s' with
        | String "_"%char s'' => s''
        | _ => s'
        end
      else s
  | _ => s
  end.

(** [int(s, 16)]. *)
Definition int16 (s : string) : result Z :=
  let (sign, s1) := skip_sign (lstrip s) in
  let s2 := skip_0x s1 in
  match s2 with
  | String "_"%char _ => Raise ValueError
  | _ =>
      match scan_hex s2 false false 0 with
      | Some (v, true, rest) =>
          match lstrip rest with
          | EmptyString => Ok (sign * v)
          | _ => Raise ValueError
          end
      | _ => Raise ValueError
      end
  end.

(** ['{:0wX}'.format(n)]: upper-case hexadecimal, sign first, padded with
    zeros between the sign and the digits up to width [w]. *)
Definition hex_digit_upper (d : Z) : ascii :=
  nth (Z.to_nat d)
    ["0"; "1"; "2"; "3"; "4"; "5"; "6"; "7"; "8"; "9";
     "A"; "B"; "C"; "D"; "E"; "F"]%char "0"%char.

Fixpoint hex_upper_aux (fuel : nat) (n : Z) (acc : string) : string :=
  match fuel with
  | O => acc
  | S fuel' =>
      let acc' := String (hex_digit_upper (n mod 16)) acc in
      if n / 16 =? 0 then acc' else hex_upper_aux fuel' (n / 16) acc'
  end.

Definition hex_upper (n : Z) : string :=
  hex_upper_aux (S (Z.to_nat (Z.log2 n))) n EmptyString.

Fixpoint zeros (k : nat) : string :=
  match k with
  | O => EmptyString
  | S k' => String "0"%char (zeros k')
  end.

Definition format_0X (width : nat) (n : Z) : string :=
  let digits := hex_upper (Z.abs n) in
  let sign := if n <? 0 then "-" else "" in
  sign +:+ zeros (width - String.length sign - String.length digits)%nat
       +:+ digits.

(** The same on a value that may be [None], which has no ['X'] format. *)
Definition format_0X_opt (width : nat) (v : option Z) : result string :=
  match v with
  | Some n => Ok (format_0X width n)
  | None => Raise TypeError
  end.

(** [x[i]] on a list. *)
Definition getitem {A} (l : list A) (i : nat) : result A :=
  match l !! i with
  | Some x => Ok x
  | None => Raise IndexError
  end.

(** Truth value of an optional string: [None] and [''] are false. *)
Definition truthy_str (s : option string) : bool :=
  match s with
  | Some EmptyString => false
  | Some _ => true
  | None => false
  end.

(** [{key(x): x for x in l}]: a later element replaces an earlier one with
    the same key. *)
Definition dict_by {A} (key : A -> Z) (l : list A) : gmap Z A :=
  foldl (fun m x => <[key x := x]> m) ∅ l.

(* ===================================================================== *)
(** ** [hardware_constants.py] *)
(* ===================================================================== *)

Module HardwareConstantData.

Record t : Type := mk { ann : string; data : Z }.

End HardwareConstantData.

Module HardwareConstant.

Record t : Type :=
  mk { ann : string; addr : Z; data : gmap Z HardwareConstantData.t }.

(** The generated [__init__] followed by [__post_init__(data_list)]: an
    absent or empty [data_list] leaves the default empty dict. *)
Definition new (ann : string) (addr : Z)
    (data_list : option (list HardwareConstantData.t)) : t :=
  match data_list with
  | Some ((_ :: _) as l) => mk ann addr (dict_by HardwareConstantData.data l)
  | _ => mk ann addr ∅
  end.

End HardwareConstant.

Definition hardware_const_table : list HardwareConstant.t :=
  [ HardwareConstant.new "MBC3SRamEnable" 0x0000
      (Some [ HardwareConstantData.mk "SRAM_ENABLE" 0x0a;
              HardwareConstantData.mk "SRAM_DISABLE" 0x00 ]);
    HardwareConstant.new "MBC3RomBank" 0x2000 None;
    HardwareConstant.new "MBC3SRamBank" 0x4000 None;
    HardwareConstant.new "MBC3LatchClock" 0x6000
      (Some [ HardwareConstantData.mk "LATCH_CLOCK" 0x01;
              HardwareConstantData.mk "RESET_LATCH" 0x00 ]);
    HardwareConstant.new "MBC3RTC" 0xa000 None ].

(* ===================================================================== *)
(** ** [pd.py]: constants, bus samples *)
(* ===================================================================== *)

Inductive Mode : Type :=
| NONE
| READ_ROM0 | READ_ROMX
| READ_SRAM | WRITE_SRAM
| READ_WRAM0 | READ_WRAMX
| SWITCH_ROM_BANK | SWITCH_WRAM_BANK.

Inductive Ann : Type :=
| ADDR | RD | WR | SYM | WR_FUNC | CODE | CONST | ROM_BANK | SRAM_BANK.

Module Match.
Definition START_READ : Z := 1.
Definition START_WRITE : Z := 2.
End Match.

Module Addr.
Definition ROM0_START : Z := 0x0150.
Definition ROM0_END : Z := 0x3FFF.
Definition ROMX_START : Z := 0x4000.
Definition ROMX_END : Z := 0x7FFF.
Definition SRAM_START : Z := 0xA000.
Definition SRAM_END : Z := 0xBFFF.
End Addr.

Module Pin.
Definition CLK : nat := 0.
Definition RD : nat := 1.
Definition WR : nat := 2.
Definition CS : nat := 3.
Definition A0 : nat := 4.
Definition A15 : nat := 19.
Definition D0 : nat := 20.
Definition D7 : nat := 27.
End Pin.

(** [l[lo:hi]]. *)
Definition slice {A} (l : list A) (lo hi : nat) : list A :=
  take (hi - lo) (drop lo l).

(** [reduce(lambda a, b: (a << 1) | b, reversed(bus))] has no initial
    value: it starts from the last element of [bus] and raises on an empty
    one. *)
Definition reduce_bus (bus : list Z) : result (option Z) :=
  if decide (0xFF ∈ bus) then Ok None
  else
    match reverse bus with
    | [] => Raise TypeError
    | x :: xs => Ok (Some (foldl (fun a b => Z.lor (Z.shiftl a 1) b) x xs))
    end.

Inductive ReadState : Type := INIT | INCOMPLETE | COMPLETE.

Inductive CycleType : Type := UNKNOWN | DATA | OPCODE.

(** A sample number as the host hands it out; [None] before the first
    [wait]. The decoder only stores and forwards sample numbers. *)
Abbreviation samplenum_t := (option Z) (only parsing).

(** An order comparison of an [int] with a value that may be [None]
    raises on [None]; so do [<<], [+] and the ['X'] format. *)
Definition require_int (v : option Z) : result Z :=
  match v with
  | Some n => Ok n
  | None => Raise TypeError
  end.

Module Cycle.

Record t : Type :=
  mk { sample : samplenum_t;
       addr : option Z;
       data : option Z;
       cycle_type : CycleType }.

(** [Cycle(sample=..., pins=...)]. *)
Definition new (sample : samplenum_t) (pins : list Z) : result t :=
  a ← reduce_bus (slice pins Pin.A0 (Pin.A15 + 1));
  d ← reduce_bus (slice pins Pin.D0 (Pin.D7 + 1));
  mret (mk sample a d UNKNOWN).

Definition set_cycle_type (ty : CycleType) (c : t) : t :=
  mk (sample c) (addr c) (data c) ty.

End Cycle.

(* ===================================================================== *)
(** ** [lookups.py] *)
(* ===================================================================== *)

Module Instruction.

Record t : Type := mk { opcode : Z; length : Z; ann : string }.

End Instruction.

Definition tables : list Instruction.t :=
  [ Instruction.mk 0x3e 2 "ld a, #";
    Instruction.mk 0x7e 2 "ld a, [hl]";
    Instruction.mk 0x21 3 "ld hl, nn";
    Instruction.mk 0xea 4 "ld [nn], a";
    Instruction.mk 0xfe 2 "cp #";
    Instruction.mk 0xc3 3 "jp nn";
    Instruction.mk 0xc2 3 "jp NZ, nn";
    Instruction.mk 0xca 3 "jp Z, nn";
    Instruction.mk 0x18 2 "jp n";
    Instruction.mk 0xcd 3 "call nn";
    Instruction.mk 0xc7 8 "rst 0x00" ].

(** What [print] wrote: a string, or a list of strings. *)
Inductive printed : Type :=
| PrintStr (s : string)
| PrintList (l : list string).

Module Lookups.

Record t : Type :=
  mk { symbols : gmap Z (gmap Z string);
       instructions : gmap Z Instruction.t;
       hardware_const : gmap Z HardwareConstant.t }.

Definition find_symbol (self : t) (cycle : Cycle.t) (bank : Z)
  : option string :=
  a ← Cycle.addr cycle;
  banks ← symbols self !! a;
  banks !! bank.

Section Symbols.

(** The constant [sym] of the module [symbols], which holds the text of
    the symbol file. *)
Variable sym : string.

(** The body of the [for] loop of [process_raw_symbols] on one line:
    what it prints, and the table it leaves or the exception it raises. *)
Definition process_line (symbol_line : string)
    (symbols : gmap Z (gmap Z string))
  : list printed * result (gmap Z (gmap Z string)) :=
  if String.eqb symbol_line "" then ([], Ok symbols)
  else
    let p1 := str_split ":"%char symbol_line in
    (if decide (length p1 ≠ 2%nat)
     then [PrintStr symbol_line; PrintList p1] else [],
     bank ← getitem p1 0 ≫= int16;
     p1_1 ← getitem p1 1;
     let p2 := str_split " "%char p1_1 in
     addr ← getitem p2 0 ≫= int16;
     symbol ← getitem p2 1;
     mret (<[addr := <[bank := symbol]> (default ∅ (symbols !! addr))]>
             symbols)).

Fixpoint process_lines (symbols_raw : list string)
    (symbols : gmap Z (gmap Z string))
  : list printed * result (gmap Z (gmap Z string)) :=
  match symbols_raw with
  | [] => ([], Ok symbols)
  | symbol_line :: rest =>
      match process_line symbol_line symbols with
      | (log, Ok symbols') =>
          let (log', r) := process_lines rest symbols' in (log ++ log', r)
      | (log, Raise e) => (log, Raise e)
      end
  end.

(** [process_raw_symbols(raw_symbols)]: the text that is split is [sym]. *)
Definition process_raw_symbols (raw_symbols : string)
  : list printed * result (gmap Z (gmap Z string)) :=
  process_lines (str_split "010"%char sym) ∅.

(** The generated [__init__] followed by [__post_init__]. *)
Definition new (inst_table : list Instruction.t) (raw_symbols : string)
    (hardware_const_table : list HardwareConstant.t)
  : list printed * result t :=
  let instructions := dict_by Instruction.opcode inst_table in
  let (log, r) := process_raw_symbols raw_symbols in
  (log,
   symbols ← r;
   mret (mk symbols instructions
           (dict_by HardwareConstant.addr hardware_const_table))).

End Symbols.

End Lookups.

(** The module-level [lookups = Lookups(inst_table=tables, raw_symbols=sym,
    hardware_const_table=hardware_const_table)]. *)
Definition lookups (sym : string) : list printed * result Lookups.t :=
  Lookups.new sym tables sym hardware_const_table.

(** The same object once the symbol table has been loaded: its two other
    tables do not depend on [sym]. *)
Definition lookups_of (symbols : gmap Z (gmap Z string)) : Lookups.t :=
  Lookups.mk symbols
    (dict_by Instruction.opcode tables)
    (dict_by HardwareConstant.addr hardware_const_table).

Arguments lookups_of : simpl never.

(* ===================================================================== *)
(** ** [pd.py]: the two kinds of transaction *)
(* ===================================================================== *)

Module Write.

(** [mode] and [end_sample] have no default: they are [None] here until
    they are assigned. *)
Record t : Type :=
  mk { start_sample : samplenum_t;
       cycle : Cycle.t;
       mode : option Mode;
       end_sample : option samplenum_t;
       symbol : option string;
       hardware_const : option HardwareConstant.t;
       cycle_count : Z }.

(** [Write(pins=..., start_sample=..., sram_bank=..., lookups=...)]: the
    generated [__init__] followed by [__post_init__]. *)
Definition new (start_sample : samplenum_t) (pins : list Z)
    (sram_bank : Z) (lookups : Lookups.t) : result t :=
  cycle ← Cycle.new start_sample pins;
  a ← require_int (Cycle.addr cycle);
  let in_sram := (Addr.SRAM_START <=? a) && (a <=? Addr.SRAM_END) in
  let cycle := if in_sram then Cycle.set_cycle_type DATA cycle else cycle in
  mret (mk start_sample cycle
          (if in_sram then Some WRITE_SRAM else None)
          None
          (if in_sram then Lookups.find_symbol lookups cycle sram_bank
           else None)
          (Lookups.hardware_const lookups !! a)
          0).

Definition end_ (self : t) (end_sample : samplenum_t) : t :=
  mk (start_sample self) (cycle self) (mode self) (Some end_sample)
     (symbol self) (hardware_const self) (cycle_count self).

Definition get_ann_hardware_const_data (self : t) : result string :=
  match hardware_const self with
  | None => Raise AttributeError
  | Some hc =>
      match Cycle.data (cycle self) ≫= fun d => HardwareConstant.data hc !! d with
      | Some item => Ok (HardwareConstantData.ann item)
      | None => Raise KeyError
      end
  end.

Definition is_sram_bank_switch (self : t) : bool :=
  match hardware_const self with
  | Some hc => HardwareConstant.addr hc =? 0x4000
  | None => false
  end.

Definition is_rom_bank_switch (self : t) : bool :=
  match hardware_const self with
  | Some hc => HardwareConstant.addr hc =? 0x2000
  | None => false
  end.

End Write.

Module Read.

Record t : Type :=
  mk { start_sample : samplenum_t;
       cycles : list Cycle.t;
       mode : option Mode;
       end_sample : option samplenum_t;
       symbol : option string;
       instruction : option Instruction.t;
       state : ReadState;
       special_ann : option string;
       cycle_count : Z }.

Definition set_mode (m : Mode) (self : t) : t :=
  mk (start_sample self) (cycles self) (Some m) (end_sample self)
     (symbol self) (instruction self) (state self) (special_ann self)
     (cycle_count self).

Definition set_state (st : ReadState) (self : t) : t :=
  mk (start_sample self) (cycles self) (mode self) (end_sample self)
     (symbol self) (instruction self) st (special_ann self)
     (cycle_count self).

Definition append_cycle (cycle : Cycle.t) (self : t) : t :=
  mk (start_sample self) (cycles self ++ [cycle]) (mode self)
     (end_sample self) (symbol self) (instruction self) (state self)
     (special_ann self) (cycle_count self).

(** [init_rom] assigns fields of the transaction and of the cycle it is
    given; both come back. *)
Definition init_rom (self : t) (cycle : Cycle.t) (lookups : Lookups.t)
    (rom_bank : Z) : t * Cycle.t :=
  let symbol := Lookups.find_symbol lookups cycle rom_bank in
  match Cycle.data cycle ≫= fun d => Lookups.instructions lookups !! d with
  | Some inst =>
      (mk (start_sample self) (cycles self) (mode self) (end_sample self)
          symbol (Some inst)
          (if Instruction.length inst =? 1 then COMPLETE else INCOMPLETE)
          (special_ann self) 1,
       Cycle.set_cycle_type OPCODE cycle)
  | None =>
      (mk (start_sample self) (cycles self) (mode self) (end_sample self)
          symbol (instruction self) COMPLETE (special_ann self) 1,
       cycle)
  end.

(** [Read(pins=..., start_sample=..., rom_bank=..., lookups=...)]: the
    generated [__init__], with the defaults of the fields, followed by
    [__post_init__]. *)
Definition new (start_sample : samplenum_t) (pins : list Z)
    (rom_bank : Z) (lookups : Lookups.t) : result t :=
  let self := mk start_sample [] None None None None INIT None 0 in
  cycle ← Cycle.new start_sample pins;
  a ← require_int (Cycle.addr cycle);
  let '(self, cycle) :=
    if (Addr.ROM0_START <=? a) && (a <=? Addr.ROM0_END) then
      init_rom (set_mode READ_ROM0 self) cycle lookups 0x0
    else if (Addr.ROMX_START <=? a) && (a <=? Addr.ROMX_END) then
      init_rom (set_mode READ_ROMX self) cycle lookups rom_bank
    else
      (set_state COMPLETE self, Cycle.set_cycle_type UNKNOWN cycle) in
  mret (append_cycle cycle self).

Definition next (self : t) (pins : list Z) (sample : samplenum_t)
  : result t :=
  cycle ← Cycle.new sample pins;
  let cycle := Cycle.set_cycle_type DATA cycle in
  let self := append_cycle cycle self in
  let count := cycle_count self + 1 in
  match instruction self with
  | None => Raise AttributeError
  | Some inst =>
      mret (mk (start_sample self) (cycles self) (mode self)
              (end_sample self) (symbol self) (instruction self)
              (if count =? Instruction.length inst then COMPLETE
               else state self)
              (special_ann self) count)
  end.

(** The opcodes whose operand is an absolute 16-bit address. *)
Definition operand_opcodes : list Z := [0x21; 0xc2; 0xc3; 0xca; 0xcd; 0xea].

Definition set_end_sample (end_sample : samplenum_t)
    (special : option string) (self : t) : t :=
  mk (start_sample self) (cycles self) (mode self) (Some end_sample)
     (symbol self) (instruction self) (state self) special
     (cycle_count self).

(** [end(end_sample, sram_bank)]. [lookups] is the module-level object. *)
Definition end_ (lookups : Lookups.t) (self : t) (end_sample : samplenum_t)
    (sram_bank : Z) : result t :=
  match instruction self with
  | Some inst =>
      if decide (Instruction.opcode inst ∈ operand_opcodes) then
        c2 ← getitem (cycles self) 2;
        hi ← require_int (Cycle.data c2);
        c1 ← getitem (cycles self) 1;
        lo ← require_int (Cycle.data c1);
        let addr := Z.shiftl hi 8 + lo in
        match Lookups.symbols lookups !! addr ≫= fun banks => banks !! sram_bank with
        | Some name =>
            mret (set_end_sample end_sample
                    (Some (Instruction.ann inst +:+ " (" +:+ name +:+ ")"))
                    self)
        | None => mret (set_end_sample end_sample (special_ann self) self)
        end
      else mret (set_end_sample end_sample (special_ann self) self)
  | None => mret (set_end_sample end_sample (special_ann self) self)
  end.

Definition get_instruction_ann (self : t) : result string :=
  match special_ann self with
  | Some a => Ok a
  | None =>
      match instruction self with
      | Some inst => Ok (Instruction.ann inst)
      | None => Raise AttributeError
      end
  end.

Definition get_sub_end_sample (self : t) (idx : nat) : result samplenum_t :=
  if Z.of_nat idx <? Z.of_nat (length (cycles self)) - 1 then
    c ← getitem (cycles self) (S idx);
    mret (Cycle.sample c)
  else
    match end_sample self with
    | Some e => Ok e
    | None => Raise AttributeError
    end.

End Read.

(* ===================================================================== *)
(** ** [utils.py]: the range filter *)
(* ===================================================================== *)

Module AnnFilter.

Record t : Type :=
  mk { start_symbol : string; end_symbol : string; putting : bool }.

Definition set_putting (b : bool) (self : t) : t :=
  mk (start_symbol self) (end_symbol self) b.

Section Check.

(** [func] is the callback of the filter; it acts on a state [S] of its
    owner and may raise. *)
Context {S : Type}.
Variable func : Read.t -> S -> result S.

Definition check (self : t) (read : Read.t) (s : S) : result (t * S) :=
  let self :=
    if decide (Read.symbol read = Some (start_symbol self))
    then set_putting true self else self in
  s ← (if putting self then func read s else Ok s);
  let self :=
    if decide (Read.symbol read = Some (end_symbol self))
    then set_putting false self else self in
  mret (self, s).

End Check.

End AnnFilter.

(* ===================================================================== *)
(** ** [pd.py]: the decoder *)
(* ===================================================================== *)

(** One call [self.put(ss, es, self.out_ann, [cls, text])]. *)
Record annotation : Type :=
  Annotation { ss : samplenum_t; es : samplenum_t; cls : Ann;
               text : list string }.

(** The dict kept in [prev_rom_bank] and [prev_sram_bank]. *)
Module Bank.

Record t : Type :=
  mk { start_sample : samplenum_t;
       end_sample : samplenum_t;
       bank : Z;
       ann : string }.

End Bank.

(** What one [self.wait(...)] delivers: the sample number, the condition
    that matched, and the pin values. *)
Record event : Type :=
  Event { ev_samplenum : Z; ev_matched : Z; ev_pins : list Z }.

Module Decoder.

Record t : Type :=
  mk { samplenum : samplenum_t;
       prev_read : option Read.t;
       prev_write : option Write.t;
       prev_rom_bank : option Bank.t;
       prev_sram_bank : option Bank.t;
       print_player_step : AnnFilter.t;
       out : list annotation }.

Definition set_samplenum (n : samplenum_t) (self : t) : t :=
  mk n (prev_read self) (prev_write self) (prev_rom_bank self)
     (prev_sram_bank self) (print_player_step self) (out self).

Definition set_prev_read (r : option Read.t) (self : t) : t :=
  mk (samplenum self) r (prev_write self) (prev_rom_bank self)
     (prev_sram_bank self) (print_player_step self) (out self).

Definition set_prev_write (w : option Write.t) (self : t) : t :=
  mk (samplenum self) (prev_read self) w (prev_rom_bank self)
     (prev_sram_bank self) (print_player_step self) (out self).

Definition set_prev_rom_bank (b : option Bank.t) (self : t) : t :=
  mk (samplenum self) (prev_read self) (prev_write self) b
     (prev_sram_bank self) (print_player_step self) (out self).

Definition set_prev_sram_bank (b : option Bank.t) (self : t) : t :=
  mk (samplenum self) (prev_read self) (prev_write self)
     (prev_rom_bank self) b (print_player_step self) (out self).

Definition set_print_player_step (f : AnnFilter.t) (self : t) : t :=
  mk (samplenum self) (prev_read self) (prev_write self)
     (prev_rom_bank self) (prev_sram_bank self) f (out self).

Definition put (ss es : samplenum_t) (cls : Ann) (text : list string)
    (self : t) : t :=
  mk (samplenum self) (prev_read self) (prev_write self)
     (prev_rom_bank self) (prev_sram_bank self) (print_player_step self)
     (out self ++ [Annotation ss es cls text]).

(** The state [start] leaves. *)
Definition start : t :=
  mk None None None None None
     (AnnFilter.mk "UpdatePlayerCoords" "_HandlePlayerStep.finish" false)
     [].

Section WithLookups.

(** The module-level [lookups] of [lookups.py]. *)
Variable lookups : Lookups.t.

(** The [for idx, cycle in enumerate(read.cycles)] loop of [print_read],
    from index [idx] on. *)
Fixpoint print_cycles (read : Read.t) (idx : nat) (cycles : list Cycle.t)
    (self : t) : result t :=
  match cycles with
  | [] => Ok self
  | cycle :: rest =>
      end_sample ← Read.get_sub_end_sample read idx;
      a ← format_0X_opt 4 (Cycle.addr cycle);
      let self := put (Cycle.sample cycle) end_sample ADDR [a] self in
      d ← format_0X_opt 2 (Cycle.data cycle);
      let self := put (Cycle.sample cycle) end_sample RD [d] self in
      print_cycles read (S idx) rest self
  end.

(** The attribute [end_sample], which exists once [end] has run. *)
Definition the_end_sample (e : option samplenum_t) : result samplenum_t :=
  match e with
  | Some e => Ok e
  | None => Raise AttributeError
  end.

Definition print_read (read : Read.t) (self : t) : result t :=
  self ← print_cycles read 0 (Read.cycles read) self;
  self ← (if truthy_str (Read.symbol read) then
            e ← the_end_sample (Read.end_sample read);
            mret (put (Read.start_sample read) e SYM
                    [default "" (Read.symbol read)] self)
          else mret self);
  match Read.instruction read with
  | Some _ =>
      ann ← Read.get_instruction_ann read;
      e ← the_end_sample (Read.end_sample read);
      mret (put (Read.start_sample read) e CODE [ann] self)
  | None => mret self
  end.

Definition rom_bank (self : t) : Z :=
  match prev_rom_bank self with
  | Some b => Bank.bank b
  | None => 0x00
  end.

Definition sram_bank (self : t) : Z :=
  match prev_sram_bank self with
  | Some b => Bank.bank b
  | None => 0x00
  end.

(** [self.print_player_step.check(read)], whose callback is
    [self.print_read]. *)
Definition check_player_step (self : t) (read : Read.t) : result t :=
  '(f, self) ← AnnFilter.check print_read (print_player_step self) read self;
  mret (set_print_player_step f self).

Definition end_read (self : t) : result t :=
  match prev_read self with
  | Some r =>
      r ← Read.end_ lookups r (samplenum self) (sram_bank self);
      let self := set_prev_read (Some r) self in
      self ← check_player_step self r;
      mret (set_prev_read None self)
  | None => mret self
  end.

Definition read (self : t) (pins : list Z) : result t :=
  let rom_bank := rom_bank self in
  match prev_read self with
  | None =>
      r ← Read.new (samplenum self) pins rom_bank lookups;
      mret (set_prev_read (Some r) self)
  | Some r =>
      match Read.state r with
      | INCOMPLETE =>
          r ← Read.next r pins (samplenum self);
          mret (set_prev_read (Some r) self)
      | COMPLETE =>
          self ← end_read self;
          r ← Read.new (samplenum self) pins rom_bank lookups;
          mret (set_prev_read (Some r) self)
      | INIT => mret self
      end
  end.

Definition switch_sram (self : t) (write : Write.t) : result t :=
  let self :=
    match prev_sram_bank self with
    | Some b =>
        put (Bank.start_sample b) (samplenum self) SRAM_BANK [Bank.ann b]
          self
    | None => self
    end in
  bank ← require_int (Cycle.data (Write.cycle write));
  mret (set_prev_sram_bank
          (Some (Bank.mk (samplenum self) None bank
                   ("SRAM Bank: " +:+ format_0X 2 bank)))
          self).

Definition switch_rom (self : t) (write : Write.t) : result t :=
  let self :=
    match prev_rom_bank self with
    | Some b =>
        put (Bank.start_sample b) (samplenum self) ROM_BANK [Bank.ann b]
          self
    | None => self
    end in
  bank ← require_int (Cycle.data (Write.cycle write));
  mret (set_prev_rom_bank
          (Some (Bank.mk (samplenum self) None bank
                   ("ROM Bank: " +:+ format_0X 2 bank)))
          self).

(** The events [end_write] renders for a write, when the filter lets it. *)
Definition print_write (write : Write.t) (self : t) : result t :=
  e ← the_end_sample (Write.end_sample write);
  a ← format_0X_opt 4 (Cycle.addr (Write.cycle write));
  let self := put (Write.start_sample write) e ADDR [a] self in
  d ← format_0X_opt 2 (Cycle.data (Write.cycle write));
  let self := put (Write.start_sample write) e WR [d] self in
  if truthy_str (Write.symbol write) then
    mret (put (Write.start_sample write) e SYM
            [default "" (Write.symbol write)] self)
  else
    match Write.hardware_const write with
    | Some hc =>
        let self :=
          put (Write.start_sample write) e WR_FUNC
            [HardwareConstant.ann hc] self in
        match Cycle.data (Write.cycle write)
              ≫= fun d => HardwareConstant.data hc !! d with
        | Some _ =>
            ann ← Write.get_ann_hardware_const_data write;
            mret (put (Write.start_sample write) e CONST [ann] self)
        | None => mret self
        end
    | None => mret self
    end.

Definition end_write (self : t) : result t :=
  match prev_write self with
  | Some write =>
      let write := Write.end_ write (samplenum self) in
      let self := set_prev_write (Some write) self in
      self ← (if AnnFilter.putting (print_player_step self)
              then print_write write self else mret self);
      mret (set_prev_write None self)
  | None => mret self
  end.

Definition write (self : t) (pins : list Z) : result t :=
  self ← (match prev_write self with
          | Some _ => end_write self
          | None => mret self
          end);
  w ← Write.new (samplenum self) pins (sram_bank self) lookups;
  let self := set_prev_write (Some w) self in
  if Write.is_rom_bank_switch w then switch_rom self w
  else if Write.is_sram_bank_switch w then switch_sram self w
  else mret self.

(** One turn of the [while True] loop of [decode] on what [wait]
    delivered. The result of [wait] is unpacked into exactly 28 names. *)
Definition decode_iter (self : t) (ev : event) : result t :=
  let self := set_samplenum (Some (ev_samplenum ev)) self in
  let pins := ev_pins ev in
  if decide (length pins = 28%nat) then
    if ev_matched ev =? Match.START_READ then
      self ← end_write self;
      read self pins
    else if ev_matched ev =? Match.START_WRITE then
      self ← end_read self;
      write self pins
    else mret self
  else Raise ValueError.

(** [decode] on the events the host delivers, until they run out. *)
Fixpoint decode (self : t) (evs : list event) : result t :=
  match evs with
  | [] => Ok self
  | ev :: rest =>
      self ← decode_iter self ev;
      decode self rest
  end.

End WithLookups.

End Decoder.

(* ===================================================================== *)
(** ** Concrete inputs *)
(* ===================================================================== *)

(** [n] pin values for the bus value [v], least significant bit first. *)
Definition bus_bits (n : nat) (v : Z) : list Z :=
  (fun i => if Z.testbit v (Z.of_nat i) then 1 else 0) <$> seq 0 n.

(** A pin vector of 28 values: CLK low, RD low, WR high, CS low, then the
    address and the data bus. *)
Definition pins_of (addr data : Z) : list Z :=
  [0; 0; 1; 0] ++ bus_bits 16 addr ++ bus_bits 8 data.

(** The same with every address pin at the value of an unassigned
    channel. *)
Definition pins_undriven_addr (data : Z) : list Z :=
  [0; 0; 1; 0] ++ replicate 16 0xFF ++ bus_bits 8 data.

Definition read_start (n addr data : Z) : event :=
  Event n Match.START_READ (pins_of addr data).

Definition write_start (n addr data : Z) : event :=
  Event n Match.START_WRITE (pins_of addr data).

(** The text of a symbol file from its lines. *)
Fixpoint unlines (ls : list string) : string :=
  match ls with
  | [] => ""
  | [l] => l
  | l :: rest => l +:+ String "010"%char (unlines rest)
  end.

(** A symbol table with the one entry ["03:5000 MyFunc"]. *)
Definition MyFunc_symbols : gmap Z (gmap Z string) :=
  {[ 0x5000 := {[ 0x03 := "MyFunc" ]} ]}.

(* ===================================================================== *)
(** ** Vocabulary of the statements *)
(* ===================================================================== *)

(** Number of occurrences of a character in a string. *)
Fixpoint count_char (c : ascii) (s : string) : nat :=
  match s with
  | EmptyString => 0
  | String c' s' => (if Ascii.eqb c' c then 1 else 0) + count_char c s'
  end.

(** The example of the design document: [call nn] followed by the bytes
    [0x00] and [0x50], with [MyFunc] at [0x5000] in the bank. *)
Definition call_nn_read : Read.t :=
  Read.mk (Some 1)
    [ Cycle.mk (Some 1) (Some 0x4100) (Some 0xcd) OPCODE;
      Cycle.mk (Some 2) (Some 0x4101) (Some 0x00) DATA;
      Cycle.mk (Some 3) (Some 0x4102) (Some 0x50) DATA ]
    (Some READ_ROMX) None None
    (Some (Instruction.mk 0xcd 3 "call nn")) COMPLETE None 3.

(** The situation is reached from the start: a [call nn] opcode read in
    ROM, then a write. *)
Definition call_nn_opened_read : Read.t :=
  Read.mk (Some 1) [ Cycle.mk (Some 1) (Some 0x0200) (Some 0xcd) OPCODE ]
    (Some READ_ROM0) None None
    (Some (Instruction.mk 0xcd 3 "call nn")) INCOMPLETE None 1.

Definition call_nn_opened : Decoder.t :=
  Decoder.set_prev_read (Some call_nn_opened_read)
    (Decoder.set_samplenum (Some 1) Decoder.start).

(** The latch as a transaction meets it: on when the flag is already set
    or when the transaction carries the start symbol. *)
Definition collecting (f : AnnFilter.t) (read : Read.t) : bool :=
  AnnFilter.putting f
  || bool_decide (Read.symbol read = Some (AnnFilter.start_symbol f)).

(** The filter once the transaction has passed: the flag stays as the
    transaction met it, except that the end symbol clears it. *)
Definition latched (f : AnnFilter.t) (read : Read.t) : AnnFilter.t :=
  AnnFilter.mk (AnnFilter.start_symbol f) (AnnFilter.end_symbol f)
    (collecting f read
     && negb (bool_decide (Read.symbol read = Some (AnnFilter.end_symbol f)))).

(** A Read that carries the symbol [name] and nothing else. *)
Definition read_with_symbol (name : string) : Read.t :=
  Read.mk (Some 0) [] None (Some (Some 1)) (Some name) None COMPLETE None 0.

(** A callback that records the symbol of each Read it is given. *)
Definition record_symbol (read : Read.t) (log : list (option string))
  : result (list (option string)) :=
  Ok (log ++ [Read.symbol read]).

(** The two clauses of the design document on symbols that change
    nothing, as they are worded: the condition is on the flag alone. *)
Definition start_symbol_while_collecting_is_noop : Prop :=
  forall (f : AnnFilter.t) (read : Read.t) (log : list (option string)),
    AnnFilter.putting f = true ->
    Read.symbol read = Some (AnnFilter.start_symbol f) ->
    exists log', AnnFilter.check record_symbol f read log = Ok (f, log').

Definition end_symbol_while_off_is_noop : Prop :=
  forall (f : AnnFilter.t) (read : Read.t) (log : list (option string)),
    AnnFilter.putting f = false ->
    Read.symbol read = Some (AnnFilter.end_symbol f) ->
    AnnFilter.check record_symbol f read log = Ok (f, log).

(** The decoder state with more annotations put. *)
Definition add_out (evs : list annotation) (s : Decoder.t) : Decoder.t :=
  Decoder.mk (Decoder.samplenum s) (Decoder.prev_read s)
    (Decoder.prev_write s) (Decoder.prev_rom_bank s)
    (Decoder.prev_sram_bank s) (Decoder.print_player_step s)
    (Decoder.out s ++ evs).

(** The address and the data event of a cycle are among [evs]. *)
Definition cycle_rendered (evs : list annotation) (c : Cycle.t) : Prop :=
  exists e a d,
    Cycle.addr c = Some a /\ Cycle.data c = Some d
    /\ Annotation (Cycle.sample c) e ADDR [format_0X 4 a] ∈ evs
    /\ Annotation (Cycle.sample c) e RD [format_0X 2 d] ∈ evs.

(** The address and the data event of a write are among [evs]. *)
Definition write_rendered (evs : list annotation) (w : Write.t) : Prop :=
  exists e a d,
    Write.end_sample w = Some e
    /\ Cycle.addr (Write.cycle w) = Some a
    /\ Cycle.data (Write.cycle w) = Some d
    /\ Annotation (Write.start_sample w) e ADDR [format_0X 4 a] ∈ evs
    /\ Annotation (Write.start_sample w) e WR [format_0X 2 d] ∈ evs.

(** The events of a Read as a whole, ended at [e], are among [evs]: its
    symbol, when it has one that is not empty, and the annotation of its
    instruction, when it has one. *)
Definition whole_read_rendered (evs : list annotation) (r : Read.t)
    (e : samplenum_t) : Prop :=
  (truthy_str (Read.symbol r) = true ->
   Annotation (Read.start_sample r) e SYM [default "" (Read.symbol r)]
   ∈ evs)
  /\ (forall inst,
        Read.instruction r = Some inst ->
        exists ann,
          Read.get_instruction_ann r = Ok ann
          /\ Annotation (Read.start_sample r) e CODE [ann] ∈ evs).

(** The events of a Write beyond its address and data are among [evs]:
    its symbol, when it has one that is not empty; otherwise the name of
    its hardware register, when it has one, and then the name of the
    value written, when the register has a name for it. *)
Definition whole_write_rendered (evs : list annotation) (w : Write.t)
    (e : samplenum_t) : Prop :=
  (truthy_str (Write.symbol w) = true ->
   Annotation (Write.start_sample w) e SYM [default "" (Write.symbol w)]
   ∈ evs)
  /\ (truthy_str (Write.symbol w) = false ->
      forall hc,
        Write.hardware_const w = Some hc ->
        Annotation (Write.start_sample w) e WR_FUNC
          [HardwareConstant.ann hc] ∈ evs
        /\ forall d item,
            Cycle.data (Write.cycle w) = Some d ->
            HardwareConstant.data hc !! d = Some item ->
            Annotation (Write.start_sample w) e CONST
              [HardwareConstantData.ann item] ∈ evs).

(** The statement of the design document about Reads, at a decoder state
    [s]: whenever [end_read] closes the open Read, an address event of
    each of its cycles has been put. *)
Definition read_cycles_always_rendered (lookups : Lookups.t)
    (s : Decoder.t) : Prop :=
  forall r s',
    Decoder.prev_read s = Some r ->
    Decoder.end_read lookups s = Ok s' ->
    forall c, c ∈ Read.cycles r ->
      exists ev, ev ∈ Decoder.out s' /\ cls ev = ADDR
                 /\ ss ev = Cycle.sample c.

(** The decoder after one read-start edge at [0x0200] with the byte
    [0x00], which is no opcode of the table: the Read is complete. *)
Definition quiet_read : Read.t :=
  Read.mk (Some 1) [ Cycle.mk (Some 1) (Some 0x0200) (Some 0x00) UNKNOWN ]
    (Some READ_ROM0) None None None COMPLETE None 1.

Definition quiet_read_open : Decoder.t :=
  Decoder.set_prev_read (Some quiet_read)
    (Decoder.set_samplenum (Some 1) Decoder.start).

(** The same Read as [quiet_read], carrying the start symbol of the
    filter of the decoder. *)
Definition start_read : Read.t :=
  Read.mk (Some 1) [ Cycle.mk (Some 1) (Some 0x0200) (Some 0x00) UNKNOWN ]
    (Some READ_ROM0) None (Some "UpdatePlayerCoords") None COMPLETE None 1.

Definition start_read_open : Decoder.t :=
  Decoder.set_prev_read (Some start_read)
    (Decoder.set_samplenum (Some 2) Decoder.start).

Definition start_read_closed : Decoder.t :=
  Decoder.mk (Some 2) None None None None
    (AnnFilter.mk "UpdatePlayerCoords" "_HandlePlayerStep.finish" true)
    [ Annotation (Some 1) (Some 2) ADDR ["0200"];
      Annotation (Some 1) (Some 2) RD ["00"];
      Annotation (Some 1) (Some 2) SYM ["UpdatePlayerCoords"] ].

(** A write of [0x0A] to the register at [0x0000], open at sample 3
    while the flag of the filter is set, and the state once it is
    closed. *)
Definition sram_enable_write : Write.t :=
  Write.mk (Some 2) (Cycle.mk (Some 2) (Some 0x0000) (Some 0x0a) UNKNOWN)
    None None None
    (Some (HardwareConstant.new "MBC3SRamEnable" 0x0000
             (Some [ HardwareConstantData.mk "SRAM_ENABLE" 0x0a;
                     HardwareConstantData.mk "SRAM_DISABLE" 0x00 ])))
    0.

Definition sram_enable_open : Decoder.t :=
  Decoder.mk (Some 3) None (Some sram_enable_write) None None
    (AnnFilter.mk "UpdatePlayerCoords" "_HandlePlayerStep.finish" true)
    [ Annotation (Some 1) (Some 2) ADDR ["0200"];
      Annotation (Some 1) (Some 2) RD ["00"];
      Annotation (Some 1) (Some 2) SYM ["UpdatePlayerCoords"] ].

Definition sram_enable_closed : Decoder.t :=
  Decoder.mk (Some 3) None None None None
    (AnnFilter.mk "UpdatePlayerCoords" "_HandlePlayerStep.finish" true)
    [ Annotation (Some 1) (Some 2) ADDR ["0200"];
      Annotation (Some 1) (Some 2) RD ["00"];
      Annotation (Some 1) (Some 2) SYM ["UpdatePlayerCoords"];
      Annotation (Some 2) (Some 3) ADDR ["0000"];
      Annotation (Some 2) (Some 3) WR ["0A"];
      Annotation (Some 2) (Some 3) WR_FUNC ["MBC3SRamEnable"];
      Annotation (Some 2) (Some 3) CONST ["SRAM_ENABLE"] ].

(** The three reads of [call_nn_read], in the switchable ROM window. *)
Definition call_nn_romx_reads : list event :=
  [ read_start 1 0x4100 0xcd; read_start 2 0x4101 0x00;
    read_start 3 0x4102 0x50 ].

(** The name the table of hardware registers gives to the value [x]
    written to the register at [a]. *)
Definition register_value_name (a x : Z) : option string :=
  if a =? 0x0000 then
    if x =? 0x0a then Some "SRAM_ENABLE"
    else if x =? 0x00 then Some "SRAM_DISABLE" else None
  else if a =? 0x6000 then
    if x =? 0x01 then Some "LATCH_CLOCK"
    else if x =? 0x00 then Some "RESET_LATCH" else None
  else None.

(** The sample number and the two bank records are the same. *)
Definition same_context (s s' : Decoder.t) : Prop :=
  Decoder.samplenum s' = Decoder.samplenum s
  /\ Decoder.prev_rom_bank s' = Decoder.prev_rom_bank s
  /\ Decoder.prev_sram_bank s' = Decoder.prev_sram_bank s.

Definition at_most_one_open (s : Decoder.t) : Prop :=
  Decoder.prev_read s = None \/ Decoder.prev_write s = None.

(** The three ways [read] can go. *)
Inductive read_outcome (lookups : Lookups.t) (pins : list Z)
    (s s' : Decoder.t) : Prop :=
| read_opens (r : Read.t) :
    Decoder.prev_read s = None
    \/ (exists r0, Decoder.prev_read s = Some r0
                   /\ Read.state r0 = COMPLETE) ->
    Read.new (Decoder.samplenum s) pins (Decoder.rom_bank s) lookups
    = Ok r ->
    Decoder.prev_read s' = Some r ->
    read_outcome lookups pins s s'
| read_extends (r0 r : Read.t) :
    Decoder.prev_read s = Some r0 ->
    Read.state r0 = INCOMPLETE ->
    Read.next r0 pins (Decoder.samplenum s) = Ok r ->
    Decoder.prev_read s' = Some r ->
    read_outcome lookups pins s s'
| read_ignores (r0 : Read.t) :
    Decoder.prev_read s = Some r0 ->
    Read.state r0 = INIT ->
    Decoder.prev_read s' = Some r0 ->
    read_outcome lookups pins s s'.

(** The address lies in one of the two ROM windows [Read] recognizes. *)
Definition in_rom_window (a : Z) : bool :=
  ((Addr.ROM0_START <=? a) && (a <=? Addr.ROM0_END))
  || ((Addr.ROMX_START <=? a) && (a <=? Addr.ROMX_END)).

(** What holds of a Read all along its life: it has a first cycle, with
    an address; in a ROM window its counter is the number of its cycles,
    and its instruction is what the table has for its first byte; with an
    instruction, it has no more cycles than the declared length and is
    complete exactly when it has that many; without, it is complete. *)
Definition Read_inv (lookups : Lookups.t) (r : Read.t) : Prop :=
  exists c0 rest a,
    Read.cycles r = c0 :: rest /\ Cycle.addr c0 = Some a
    /\ if in_rom_window a then
         Read.cycle_count r = Z.of_nat (length (Read.cycles r))
         /\ match Cycle.data c0
                  ≫= fun d => Lookups.instructions lookups !! d with
            | Some inst =>
                Read.instruction r = Some inst
                /\ Z.of_nat (length (Read.cycles r))
                   <= Instruction.length inst
                /\ (Read.state r = COMPLETE
                    <-> Z.of_nat (length (Read.cycles r))
                        = Instruction.length inst)
                /\ Read.state r <> INIT
            | None => Read.instruction r = None /\ Read.state r = COMPLETE
            end
       else Read.instruction r = None /\ Read.state r = COMPLETE.

Definition Decoder_inv (lookups : Lookups.t) (s : Decoder.t) : Prop :=
  forall r, Decoder.prev_read s = Some r -> Read_inv lookups r.

(** [call nn] read in ROM bank 0: incomplete after the opcode and after
    one more byte, complete with the third. *)
Definition call_nn_reads : list event :=
  [ read_start 1 0x0200 0xcd; read_start 2 0x0201 0x00;
    read_start 3 0x0202 0x50 ].

(** The address and the data value on the pins of an edge. *)
Definition bus_addr (pins : list Z) : result (option Z) :=
  reduce_bus (slice pins Pin.A0 (Pin.A15 + 1)).

Definition bus_data (pins : list Z) : result (option Z) :=
  reduce_bus (slice pins Pin.D0 (Pin.D7 + 1)).

(** A write-start edge at the address [0x2000]. *)
Definition writes_rom_bank (ev : event) : Prop :=
  ev_matched ev = Match.START_WRITE
  /\ bus_addr (ev_pins ev) = Ok (Some 0x2000).

(** A Read has a first cycle, and if the address of that cycle is in the
    window of the switchable banks, the Read is in mode [READ_ROMX] and
    its symbol is the one of that address in bank [d]. *)
Definition Romx_inv (lookups : Lookups.t) (d : Z) (r : Read.t) : Prop :=
  exists c0 rest,
    Read.cycles r = c0 :: rest
    /\ forall a,
        Cycle.addr c0 = Some a ->
        Addr.ROMX_START <= a <= Addr.ROMX_END ->
        Read.mode r = Some READ_ROMX
        /\ Read.symbol r = Lookups.find_symbol lookups c0 d.

Definition Bank_inv (lookups : Lookups.t) (d : Z) (s : Decoder.t) : Prop :=
  Decoder.rom_bank s = d
  /\ forall r, Decoder.prev_read s = Some r -> Romx_inv lookups d r.

(** A pin level: low or high. *)
Definition is_bit (b : Z) : Prop := b = 0 \/ b = 1.

(** The number whose binary digits are [bus], least significant first. *)
Fixpoint bus_value (bus : list Z) : Z :=
  match bus with
  | [] => 0
  | b :: rest => b + 2 * bus_value rest
  end.

(** The address lies in the window of the cartridge RAM. *)
Definition in_sram_window (a : Z) : bool :=
  (Addr.SRAM_START <=? a) && (a <=? Addr.SRAM_END).

(** A write-start edge at the address [0x4000]. *)
Definition writes_sram_bank (ev : event) : Prop :=
  ev_matched ev = Match.START_WRITE
  /\ bus_addr (ev_pins ev) = Ok (Some 0x4000).

(** The first cycle of a Read that opens in a ROM window at the address
    [a] with the data [d]: its type is [OPCODE] when the table has an
    instruction for [d]. *)
Definition opened_cycle (lookups : Lookups.t) (sn : samplenum_t) (a : Z)
    (d : option Z) : Cycle.t :=
  Cycle.mk sn (Some a) d
    (match d ≫= fun d => Lookups.instructions lookups !! d with
     | Some _ => OPCODE
     | None => UNKNOWN
     end).

(** The Read that opens there, in mode [m], its symbol taken from bank
    [b]. *)
Definition opened_in_rom (lookups : Lookups.t) (sn : samplenum_t) (a : Z)
    (d : option Z) (m : Mode) (b : Z) : Read.t :=
  Read.mk sn [opened_cycle lookups sn a d] (Some m) None
    (Lookups.find_symbol lookups (opened_cycle lookups sn a d) b)
    (d ≫= fun d => Lookups.instructions lookups !! d)
    (match d ≫= fun d => Lookups.instructions lookups !! d with
     | Some inst =>
         if Instruction.length inst =? 1 then COMPLETE else INCOMPLETE
     | None => COMPLETE
     end)
    None 1.

(** A Write in the window of the cartridge RAM is in mode [WRITE_SRAM]
    and has the symbol of its address in bank [d]. *)
Definition Sram_write_inv (lookups : Lookups.t) (d : Z) (w : Write.t)
  : Prop :=
  forall a,
    Cycle.addr (Write.cycle w) = Some a -> in_sram_window a = true ->
    Write.mode w = Some WRITE_SRAM
    /\ Write.symbol w = Lookups.find_symbol lookups (Write.cycle w) d.

Definition Sram_inv (lookups : Lookups.t) (d : Z) (s : Decoder.t) : Prop :=
  Decoder.sram_bank s = d
  /\ forall w, Decoder.prev_write s = Some w -> Sram_write_inv lookups d w.

(** Every pin of the two buses carries a level: none is at the value of
    an unassigned channel. *)
Definition driven (pins : list Z) : Prop :=
  length pins = 28%nat
  /\ (0xFF ∉ slice pins Pin.A0 (Pin.A15 + 1))
  /\ (0xFF ∉ slice pins Pin.D0 (Pin.D7 + 1)).

Definition cycle_driven (c : Cycle.t) : Prop :=
  is_Some (Cycle.addr c) /\ is_Some (Cycle.data c).

(** The open transactions were sampled on driven buses, and the open Read
    is as [Read_inv] says. *)
Definition Driven_inv (lookups : Lookups.t) (s : Decoder.t) : Prop :=
  (forall r, Decoder.prev_read s = Some r ->
             Read_inv lookups r /\ Forall cycle_driven (Read.cycles r))
  /\ (forall w, Decoder.prev_write s = Some w ->
                cycle_driven (Write.cycle w)).

(** A Read of an operand opcode that has not yet three cycles. *)
Definition short_operand_read (r : Read.t) : Prop :=
  exists inst,
    Read.instruction r = Some inst
    /\ (Instruction.opcode inst ∈ Read.operand_opcodes)
    /\ (length (Read.cycles r) < 3)%nat.

(** The symbol the table holds for an address in a bank. *)
Definition symbol_at (symbols : gmap Z (gmap Z string)) (addr bank : Z)
  : option string :=
  symbols !! addr ≫= fun banks : gmap Z string => banks !! bank.

(** The table with one more symbol. *)
Definition insert_symbol (addr bank : Z) (name : string)
    (symbols : gmap Z (gmap Z string)) : gmap Z (gmap Z string) :=
  <[addr := <[bank := name]> (default ∅ (symbols !! addr))]> symbols.

(** A line of a symbol file and what it stands for: the text of the bank
    and of the address, the name, and the two numbers. *)
Record symbol_entry : Type :=
  SymbolEntry { se_bank_text : string; se_addr_text : string;
                se_name : string; se_bank : Z; se_addr : Z }.

Definition entry_line (e : symbol_entry) : string :=
  se_bank_text e +:+ ":" +:+ se_addr_text e +:+ " " +:+ se_name e.

(** The texts are hexadecimal numbers for [int], and neither they nor the
    name hold a separator of the format. *)
Definition well_formed_entry (e : symbol_entry) : Prop :=
  int16 (se_bank_text e) = Ok (se_bank e)
  /\ int16 (se_addr_text e) = Ok (se_addr e)
  /\ Forall (fun t => count_char ":"%char t = 0%nat
                      /\ count_char "010"%char t = 0%nat)
       [se_bank_text e; se_addr_text e; se_name e]
  /\ count_char " "%char (se_addr_text e) = 0%nat
  /\ count_char " "%char (se_name e) = 0%nat.

(** The line ["03:5000 MyFunc"]. *)
Definition MyFunc_entry : symbol_entry :=
  SymbolEntry "03" "5000" "MyFunc" 0x03 0x5000.

#[global] Instance Ann_eq_dec : EqDecision Ann.
Proof. solve_decision. Defined.

(** The annotation is a bank span, not part of a transaction. *)
Definition is_bank_ann (an : annotation) : bool :=
  match cls an with
  | ROM_BANK | SRAM_BANK => true
  | _ => false
  end.

(** The annotations of class [c] in the output, in the order they were
    put. *)
Definition anns_of (c : Ann) (out : list annotation) : list annotation :=
  filter (fun an => cls an = c) out.

(** A write of a byte to the register [reg] at sample [n]: the sample and
    the byte. *)
Definition switch_at (reg n : Z) (a d : option Z) : option (Z * Z) :=
  match a, d with
  | Some a, Some d => if a =? reg then Some (n, d) else None
  | _, _ => None
  end.

(** The write to the register [reg] that an edge carries, if it is one. *)
Definition bank_switch_of (reg : Z) (ev : event) : option (Z * Z) :=
  if ev_matched ev =? Match.START_WRITE then
    match bus_addr (ev_pins ev), bus_data (ev_pins ev) with
    | Ok a, Ok d => switch_at reg (ev_samplenum ev) a d
    | _, _ => None
    end
  else None.

(** The dict [switch_rom] and [switch_sram] build for a write. *)
Definition bank_of (prefix : string) (sw : Z * Z) : Bank.t :=
  Bank.mk (Some sw.1) None sw.2 (prefix +:+ format_0X 2 sw.2).

(** One span per write but the last: from its sample to the sample of the
    next write, labelled with the byte it wrote. *)
Fixpoint bank_spans (c : Ann) (prefix : string) (sws : list (Z * Z))
  : list annotation :=
  match sws with
  | [] => []
  | sw :: rest =>
      match rest with
      | [] => []
      | sw' :: _ =>
          Annotation (Some sw.1) (Some sw'.1) c
            [prefix +:+ format_0X 2 sw.2]
          :: bank_spans c prefix rest
      end
  end.

(** What a switch puts, given the bank that was selected before. *)
Definition switch_span (c : Ann) (prev : option Bank.t)
    (sw : option (Z * Z)) : list annotation :=
  match prev, sw with
  | Some b, Some sw =>
      [Annotation (Bank.start_sample b) (Some sw.1) c [Bank.ann b]]
  | _, _ => []
  end.

Definition switch_bank (prefix : string) (prev : option Bank.t)
    (sw : option (Z * Z)) : option Bank.t :=
  match sw with
  | Some sw => Some (bank_of prefix sw)
  | None => prev
  end.

(** The spans of class [c] in [out] and the selected bank [prev] are
    those of the writes [sws]. *)
Definition Spans_inv (c : Ann) (prefix : string) (sws : list (Z * Z))
    (out : list annotation) (prev : option Bank.t) : Prop :=
  anns_of c out = bank_spans c prefix sws
  /\ prev = bank_of prefix <$> last sws.

(** The flag of the filter is down and the open Read does not carry the
    start symbol. *)
Definition quiet (s : Decoder.t) : Prop :=
  AnnFilter.putting (Decoder.print_player_step s) = false
  /\ forall r, Decoder.prev_read s = Some r ->
       Read.symbol r
       <> Some (AnnFilter.start_symbol (Decoder.print_player_step s)).

(** Two bank switches around a read and a write that is none. *)
Definition two_rom_switches : list event :=
  [ write_start 1 0x2000 0x03; read_start 2 0x0200 0x00;
    write_start 3 0xC000 0x07; write_start 4 0x2000 0x05 ].

(** The address and the data annotation of each cycle, each running from
    the sample of its cycle to the sample of the next cycle, and to [e]
    for the last one. *)
Fixpoint cycle_anns (e : samplenum_t) (cycles : list Cycle.t)
  : list annotation :=
  match cycles with
  | [] => []
  | c :: rest =>
      let es := match rest with
                | c' :: _ => Cycle.sample c'
                | [] => e
                end in
      Annotation (Cycle.sample c) es ADDR
        [format_0X 4 (default 0 (Cycle.addr c))]
      :: Annotation (Cycle.sample c) es RD
           [format_0X 2 (default 0 (Cycle.data c))]
      :: cycle_anns e rest
  end.

(** One of the sixteen characters ['{:X}'] writes. *)
Definition is_upper_hex (c : ascii) : bool :=
  match hex_value c with
  | Some d => Ascii.eqb c (hex_digit_upper d)
  | None => false
  end.

Fixpoint all_upper_hex (s : string) : bool :=
  match s with
  | String c s' => is_upper_hex c && all_upper_hex s'
  | EmptyString => true
  end.

(** The number a string of hexadecimal digits denotes after the digits
    that gave [acc]. *)
Fixpoint hex_val (s : string) (acc : Z) : Z :=
  match s with
  | String c s' => hex_val s' (16 * acc + default 0 (hex_value c))
  | EmptyString => acc
  end.

(** The line of a symbol file for [name] with the bank and the address
    written as the decoder prints a data byte and an address. *)
Definition printed_line (bank addr : Z) (name : string) : string :=
  format_0X 2 bank +:+ ":" +:+ format_0X 4 addr +:+ " " +:+ name.

(* ===================================================================== *)
(** ** Exceptions: reasoning principles *)
(* ===================================================================== *)

Lemma bind_Ok {A B} (m : result A) (f : A -> result B) (b : B) :
  m ≫= f = Ok b <-> exists a, m = Ok a /\ f a = Ok b.
Proof.
  destruct m as [a|e]; simpl; split.
  - intros H. exists a. split; [reflexivity | exact H].
  - intros (a' & Ha & Hf). injection Ha as ->. exact Hf.
  - discriminate.
  - intros (a' & Ha & _). discriminate Ha.
Qed.

Lemma mret_Ok {A} (a b : A) : (mret a : result A) = Ok b <-> a = b.
Proof. unfold mret, result_ret. split; [intros [= ->] | intros ->]; done. Qed.

Lemma bind_Ok_inv {A B} (m : result A) (f : A -> result B) (b : B) :
  m ≫= f = Ok b -> exists a, m = Ok a /\ f a = Ok b.
Proof. apply bind_Ok. Qed.

Lemma mret_Ok_inv {A} (a b : A) : (mret a : result A) = Ok b -> a = b.
Proof. apply mret_Ok. Qed.

(** Splits every successful sequence in the context into its steps. *)
Ltac inv_result :=
  repeat match goal with
  | H : _ ≫= _ = Ok _ |- _ =>
      let a := fresh "a" in
      let Ha := fresh "Ha" in
      apply bind_Ok_inv in H; destruct H as (a & Ha & H)
  | H : mret _ = Ok _ |- _ => apply mret_Ok_inv in H
  | H : Ok _ = Ok _ |- _ => injection H as H
  | H : Raise _ = Ok _ |- _ => discriminate H
  | H : Ok _ = Raise _ |- _ => discriminate H
  end.

(* ===================================================================== *)
(** ** The built-ins on samples *)
(* ===================================================================== *)

Example int16_samples :
  map int16 ["03"; "5000"; " 5 "; "-5"; "0X_5"; "5_5"; "abc"]
  = map Ok [3; 20480; 5; -5; 5; 85; 2748]
  /\ map int16 ["oops"; ""; "0x"; "0x__5"; "_5"; "5_"; "5__5"; "- 5"; "0xg"]
     = replicate 9 (Raise ValueError).
Proof. split; reflexivity. Qed.

Example format_samples :
  map (format_0X 4) [0; 255; 20480; -1; -300; 70000]
  = ["0000"; "00FF"; "5000"; "-001"; "-12C"; "11170"]
  /\ map (format_0X 2) [0; 255; -1; 3] = ["00"; "FF"; "-1"; "03"].
Proof. split; reflexivity. Qed.

Example str_split_samples :
  str_split ":"%char "a:b" = ["a"; "b"] /\ str_split ":"%char "" = [""]
  /\ str_split ":"%char "a::" = ["a"; ""; ""]
  /\ str_split " "%char "x" = ["x"].
Proof. repeat split; reflexivity. Qed.

Example pins_of_sample :
  Cycle.new (Some 7) (pins_of 0x5000 0xcd)
  = Ok (Cycle.mk (Some 7) (Some 0x5000) (Some 0xcd) UNKNOWN).
Proof. reflexivity. Qed.

(* ===================================================================== *)
(** ** Bus samples *)
(* ===================================================================== *)

Lemma reduce_bus_sentinel (bus : list Z) :
  0xFF ∈ bus -> reduce_bus bus = Ok None.
Proof. intros H. unfold reduce_bus. by rewrite decide_True. Qed.

Lemma reduce_bus_driven (bus : list Z) :
  0xFF ∉ bus -> bus <> [] -> exists v, reduce_bus bus = Ok (Some v).
Proof.
  intros H Hne. unfold reduce_bus. rewrite decide_False by done.
  destruct (reverse bus) as [|x xs] eqn:E.
  - apply (f_equal reverse) in E. rewrite reverse_involutive in E. done.
  - eauto.
Qed.

Lemma reduce_bus_total (bus : list Z) :
  bus <> [] -> exists v, reduce_bus bus = Ok v.
Proof.
  intros Hne. destruct (decide (0xFF ∈ bus)) as [H|H].
  - exists None. by apply reduce_bus_sentinel.
  - destruct (reduce_bus_driven bus H Hne) as [v Hv]. eauto.
Qed.

Lemma slice_nonempty {A} (l : list A) (lo hi : nat) :
  (lo < hi)%nat -> (lo < length l)%nat -> slice l lo hi <> [].
Proof.
  intros H1 H2 E. apply (f_equal length) in E. unfold slice in E.
  rewrite length_take, length_drop in E. simpl in E. lia.
Qed.

Lemma Cycle_new_total (sample : samplenum_t) (pins : list Z) :
  length pins = 28%nat ->
  exists a d,
    reduce_bus (slice pins Pin.A0 (Pin.A15 + 1)) = Ok a
    /\ reduce_bus (slice pins Pin.D0 (Pin.D7 + 1)) = Ok d
    /\ Cycle.new sample pins = Ok (Cycle.mk sample a d UNKNOWN).
Proof.
  intros Hlen.
  destruct (reduce_bus_total (slice pins Pin.A0 (Pin.A15 + 1))) as [a Ha].
  { apply slice_nonempty; unfold Pin.A0, Pin.A15; lia. }
  destruct (reduce_bus_total (slice pins Pin.D0 (Pin.D7 + 1))) as [d Hd].
  { apply slice_nonempty; unfold Pin.D0, Pin.D7; lia. }
  exists a, d. unfold Cycle.new. rewrite Ha, Hd. done.
Qed.

(** C8. For every vector of 28 pin values the bus sample is built, and:
    when one of the 16 address pin values is the sentinel [0xFF] of an
    unassigned channel, its [addr] is [None], hence not [0]; when one of
    the 8 data pin values is the sentinel, its [data] is [None], hence
    not [0]; each bus is decided on its own pins only, and a bus without
    the sentinel has a value. *)
Theorem undriven_bus_is_None (sample : samplenum_t) (pins : list Z) :
  length pins = 28%nat ->
  exists c,
    Cycle.new sample pins = Ok c
    /\ (0xFF ∈ slice pins Pin.A0 (Pin.A15 + 1) ->
        Cycle.addr c = None /\ Cycle.addr c <> Some 0)
    /\ (0xFF ∈ slice pins Pin.D0 (Pin.D7 + 1) ->
        Cycle.data c = None /\ Cycle.data c <> Some 0)
    /\ (0xFF ∉ slice pins Pin.A0 (Pin.A15 + 1) -> is_Some (Cycle.addr c))
    /\ (0xFF ∉ slice pins Pin.D0 (Pin.D7 + 1) -> is_Some (Cycle.data c)).
Proof.
  intros Hlen.
  destruct (Cycle_new_total sample pins Hlen) as (a & d & Ha & Hd & Hc).
  eexists. split; [exact Hc|].
  cbn [Cycle.addr Cycle.data].
  split; [|split; [|split]].
  - intros H. rewrite (reduce_bus_sentinel _ H) in Ha.
    injection Ha as <-. done.
  - intros H. rewrite (reduce_bus_sentinel _ H) in Hd.
    injection Hd as <-. done.
  - intros H. destruct (reduce_bus_driven _ H) as [v Hv].
    { apply slice_nonempty; unfold Pin.A0, Pin.A15; lia. }
    rewrite Hv in Ha. injection Ha as <-. eauto.
  - intros H. destruct (reduce_bus_driven _ H) as [v Hv].
    { apply slice_nonempty; unfold Pin.D0, Pin.D7; lia. }
    rewrite Hv in Hd. injection Hd as <-. eauto.
Qed.

Lemma undriven_bus_is_None_witness :
  length (pins_undriven_addr 0) = 28%nat
  /\ exists c,
    Cycle.new (Some 1) (pins_undriven_addr 0) = Ok c
    /\ Cycle.addr c = None /\ Cycle.data c = Some 0.
Proof.
  split; [reflexivity|].
  destruct (undriven_bus_is_None (Some 1) (pins_undriven_addr 0) eq_refl)
    as (c & Hc & Ha & _ & _ & Hd).
  exists c. split; [exact Hc|]. split.
  - apply Ha. vm_compute. apply list_elem_of_here.
  - vm_compute in Hc. injection Hc as <-. reflexivity.
Defined.

(* ===================================================================== *)
(** ** The lookup tables *)
(* ===================================================================== *)

Lemma dict_by_foldl_lookup {A} (key : A -> Z) (l : list A) (m : gmap Z A)
    (k : Z) (x : A) :
  foldl (fun m x => <[key x := x]> m) m l !! k = Some x ->
  (x ∈ l /\ key x = k) \/ m !! k = Some x.
Proof.
  revert m. induction l as [|y l IH]; intros m H; simpl in H.
  - by right.
  - destruct (IH _ H) as [[Hin Hk]|Hm].
    + left. split; [by apply list_elem_of_further | done].
    + apply lookup_insert_Some in Hm as [[Hk ->]|[_ Hm]].
      * left. split; [apply list_elem_of_here | done].
      * by right.
Qed.

Lemma dict_by_lookup {A} (key : A -> Z) (l : list A) (k : Z) (x : A) :
  dict_by key l !! k = Some x -> x ∈ l /\ key x = k.
Proof.
  intros H. apply dict_by_foldl_lookup in H as [H|H]; [done|].
  by rewrite lookup_empty in H.
Qed.

(** Every instruction of [tables] is at least two cycles long, and is
    filed under its own opcode. *)
Lemma instructions_lookup (symbols : gmap Z (gmap Z string)) (d : Z)
    (inst : Instruction.t) :
  Lookups.instructions (lookups_of symbols) !! d = Some inst ->
  Instruction.opcode inst = d /\ 2 <= Instruction.length inst.
Proof.
  intros H. apply dict_by_lookup in H as [Hin Hk]. split; [done|].
  clear Hk. unfold tables in Hin.
  repeat (apply elem_of_cons in Hin as [->|Hin]; [simpl; lia|]).
  by apply elem_of_nil in Hin.
Qed.

(** A hardware constant is filed under its own address. *)
Lemma hardware_const_lookup (symbols : gmap Z (gmap Z string)) (a : Z)
    (hc : HardwareConstant.t) :
  Lookups.hardware_const (lookups_of symbols) !! a = Some hc ->
  HardwareConstant.addr hc = a.
Proof. intros H. by apply dict_by_lookup in H as [_ Hk]. Qed.

Lemma lookups_loaded (sym : string) (log : list printed) (lk : Lookups.t) :
  lookups sym = (log, Ok lk) -> lk = lookups_of (Lookups.symbols lk).
Proof.
  unfold lookups, Lookups.new.
  destruct (Lookups.process_raw_symbols sym sym) as [log' [symbols|e]];
    simpl; intros [= _ <-]; reflexivity.
Qed.

Example lookups_MyFunc :
  snd (lookups "03:5000 MyFunc") = Ok (lookups_of MyFunc_symbols).
Proof. vm_compute. reflexivity. Qed.

(* ===================================================================== *)
(** ** The symbol load *)
(* ===================================================================== *)

Lemma str_split_length (sep : ascii) (s : string) :
  length (str_split sep s) = S (count_char sep s).
Proof.
  induction s as [|c s IH]; simpl; [done|].
  destruct (Ascii.eqb c sep); simpl; [by rewrite IH|].
  destruct (str_split sep s); simpl in *; [done | by rewrite IH].
Qed.

Lemma str_split_no_sep (sep : ascii) (s : string) :
  count_char sep s = 0%nat -> str_split sep s = [s].
Proof.
  induction s as [|c s IH]; simpl; [done|].
  destruct (Ascii.eqb c sep); simpl; [done|].
  intros H. by rewrite IH.
Qed.

(** A line whose number of [':'] is not one is printed, together with
    its pieces, and is then processed like any other line. *)
Lemma process_line_reports (line : string)
    (symbols : gmap Z (gmap Z string)) :
  line <> "" -> count_char ":"%char line <> 1%nat ->
  fst (Lookups.process_line line symbols)
  = [PrintStr line; PrintList (str_split ":"%char line)].
Proof.
  intros Hne Hcount. unfold Lookups.process_line.
  destruct (String.eqb_spec line ""); [done|]. simpl.
  rewrite decide_True; [done|]. rewrite str_split_length. lia.
Qed.

(** A line without [':'] ends the load with an exception: [p1[1]] does
    not exist (if [int] has not failed on [p1[0]] before). *)
Lemma process_line_no_separator (line : string)
    (symbols : gmap Z (gmap Z string)) :
  line <> "" -> count_char ":"%char line = 0%nat ->
  exists e, snd (Lookups.process_line line symbols) = Raise e.
Proof.
  intros Hne Hcount. unfold Lookups.process_line.
  destruct (String.eqb_spec line ""); [done|]. simpl.
  rewrite (str_split_no_sep _ _ Hcount). simpl.
  destruct (int16 line); simpl; eauto.
Qed.

(** C5. The load does not skip a malformed line. It prints the line
    ["oops"], which has no [':'], and its pieces, and then ends with the
    exception of [int("oops", 16)]: the line after it is not read. With
    the hexadecimal line ["abc"] it ends with the exception of [p1[1]].
    A line with two [':'] is printed and is recorded all the same, under
    its first two pieces. *)
Theorem malformed_line_is_not_skipped :
  Lookups.process_raw_symbols (unlines ["oops"; "03:5000 MyFunc"]) ""
  = ([PrintStr "oops"; PrintList ["oops"]], Raise ValueError)
  /\ Lookups.process_raw_symbols (unlines ["abc"; "03:5000 MyFunc"]) ""
     = ([PrintStr "abc"; PrintList ["abc"]], Raise IndexError)
  /\ Lookups.process_raw_symbols (unlines ["03:5000 My:Func"; "01:4000 G"]) ""
     = ([PrintStr "03:5000 My:Func"; PrintList ["03"; "5000 My"; "Func"]],
        Ok (<[0x4000 := {[ 0x01 := "G" ]}]>
              {[ 0x5000 := {[ 0x03 := "My" ]} ]}))
  /\ Lookups.process_raw_symbols (unlines ["03:5000 MyFunc"; "01:4000 G"]) ""
     = ([], Ok (<[0x4000 := {[ 0x01 := "G" ]}]> MyFunc_symbols)).
Proof. repeat split; vm_compute; reflexivity. Qed.

(** C9. [process_raw_symbols] returns the same output and the same table
    whatever its argument is: what it parses is the constant [sym]. *)
Theorem process_raw_symbols_ignores_argument
    (sym raw_symbols1 raw_symbols2 : string) :
  Lookups.process_raw_symbols sym raw_symbols1
  = Lookups.process_raw_symbols sym raw_symbols2
  /\ Lookups.process_raw_symbols sym raw_symbols1
     = Lookups.process_lines (str_split "010"%char sym) ∅.
Proof. split; reflexivity. Qed.

(** The table does follow [sym]: the argument alone loads nothing. *)
Example process_raw_symbols_follows_sym :
  Lookups.process_raw_symbols "" "03:5000 MyFunc" = ([], Ok ∅)
  /\ Lookups.process_raw_symbols "03:5000 MyFunc" "" = ([], Ok MyFunc_symbols).
Proof. split; vm_compute; reflexivity. Qed.

(* ===================================================================== *)
(** ** Finalization of a Read *)
(* ===================================================================== *)

Lemma getitem_Ok {A} (l : list A) (i : nat) (x : A) :
  getitem l i = Ok x <-> l !! i = Some x.
Proof. unfold getitem. destruct (l !! i); split; congruence. Qed.

Lemma getitem_short {A} (l : list A) (i : nat) :
  (length l <= i)%nat -> getitem l i = Raise IndexError.
Proof.
  intros H. unfold getitem. by rewrite (lookup_ge_None_2 l i H).
Qed.

(** Finalization of a Read of one of the operand opcodes with fewer than
    three cycles fails on [cycles[2]]. *)
Lemma Read_end_short (lookups : Lookups.t) (r : Read.t)
    (end_sample : samplenum_t) (sram_bank : Z) (inst : Instruction.t) :
  Read.instruction r = Some inst ->
  Instruction.opcode inst ∈ Read.operand_opcodes ->
  (length (Read.cycles r) < 3)%nat ->
  Read.end_ lookups r end_sample sram_bank = Raise IndexError.
Proof.
  intros Hinst Hop Hlen. unfold Read.end_. rewrite Hinst.
  rewrite decide_True by done.
  rewrite (getitem_short (Read.cycles r) 2) by lia. reflexivity.
Qed.

Lemma shiftl_8_add_range (hi lo : Z) :
  0 <= lo < 256 -> 0 <= hi < 256 ->
  0 <= Z.shiftl hi 8 + lo < 65536
  /\ Z.shiftl hi 8 + lo = Z.lor (Z.shiftl hi 8) lo.
Proof.
  intros Hlo Hhi. rewrite Z.shiftl_mul_pow2 by lia.
  change (2 ^ 8) with 256. split; [lia|].
  apply Z.add_nocarry_lor. apply Z.bits_inj'. intros n Hn.
  rewrite Z.land_spec, Z.bits_0.
  destruct (decide (n < 8)) as [Hlt|Hge].
  - change 256 with (2 ^ 8). rewrite Z.mul_pow2_bits_low by lia. done.
  - replace (Z.testbit lo n) with false; [by rewrite andb_false_r|].
    symmetry. apply Z.bits_above_log2; [lia|].
    destruct (decide (lo = 0)) as [->|Hnz]; [simpl; lia|].
    assert (Z.log2 lo < 8); [|lia].
    apply Z.log2_lt_pow2; [lia|]. change (2 ^ 8) with 256. lia.
Qed.


(** C10. For a Read of one of the operand opcodes: with fewer than three
    recorded cycles finalization raises [IndexError] on [cycles[2]] and
    yields no record, so it can only succeed with at least three; and a
    write-start edge that finds such a Read open, which it force-closes
    through [end_read], ends the decoding with that exception. *)
Theorem short_read_finalization_fails (lookups : Lookups.t) (r : Read.t)
    (inst : Instruction.t) :
  Read.instruction r = Some inst ->
  Instruction.opcode inst ∈ Read.operand_opcodes ->
  (forall end_sample sram_bank,
     (length (Read.cycles r) < 3)%nat ->
     Read.end_ lookups r end_sample sram_bank = Raise IndexError)
  /\ (forall end_sample sram_bank r',
        Read.end_ lookups r end_sample sram_bank = Ok r' ->
        (3 <= length (Read.cycles r))%nat)
  /\ (forall (s : Decoder.t) (ev : event),
        Decoder.prev_read s = Some r ->
        (length (Read.cycles r) < 3)%nat ->
        ev_matched ev = Match.START_WRITE ->
        length (ev_pins ev) = 28%nat ->
        Decoder.decode_iter lookups s ev = Raise IndexError).
Proof.
  intros Hinst Hop. split; [|split].
  - intros es bank Hlen. by eapply Read_end_short.
  - intros es bank r' Hok.
    destruct (decide (length (Read.cycles r) < 3)%nat) as [Hlt|]; [|lia].
    rewrite (Read_end_short lookups r es bank inst Hinst Hop Hlt) in Hok.
    discriminate Hok.
  - intros s ev Hprev Hlen Hm Hpins. unfold Decoder.decode_iter.
    rewrite decide_True by done. rewrite Hm. simpl.
    unfold Decoder.end_read. simpl. rewrite Hprev.
    rewrite (Read_end_short lookups r _ _ inst Hinst Hop Hlen).
    reflexivity.
Qed.

Lemma short_read_finalization_fails_witness :
  Decoder.decode (lookups_of ∅) Decoder.start [read_start 1 0x0200 0xcd]
  = Ok call_nn_opened
  /\ Decoder.decode_iter (lookups_of ∅) call_nn_opened
       (write_start 2 0xC000 0x00)
     = Raise IndexError.
Proof.
  split; [vm_compute; reflexivity|].
  apply (short_read_finalization_fails (lookups_of ∅) call_nn_opened_read
           (Instruction.mk 0xcd 3 "call nn")).
  - reflexivity.
  - vm_compute. do 4 apply list_elem_of_further. apply list_elem_of_here.
  - reflexivity.
  - simpl. lia.
  - reflexivity.
  - reflexivity.
Defined.

(* ===================================================================== *)
(** ** The range filter *)
(* ===================================================================== *)

Lemma check_spec {S} (func : Read.t -> S -> result S) (f : AnnFilter.t)
    (read : Read.t) (s : S) :
  AnnFilter.check func f read s
  = (if collecting f read then func read s else Ok s)
    ≫= fun s' => Ok (latched f read, s').
Proof.
  destruct f as [st en p]. unfold AnnFilter.check, latched, collecting.
  simpl.
  destruct (decide (Read.symbol read = Some st)) as [Hs|Hs],
    (decide (Read.symbol read = Some en)) as [He|He];
    rewrite ?(bool_decide_eq_true_2 _ Hs), ?(bool_decide_eq_false_2 _ Hs),
      ?(bool_decide_eq_true_2 _ He), ?(bool_decide_eq_false_2 _ He);
    destruct p; simpl;
    try (destruct (func read s) as [s'|err]; simpl);
    rewrite ?decide_True, ?decide_False by done; reflexivity.
Qed.

(** C7, amended. [check] calls its callback for a transaction exactly
    when the latch is on for it, and leaves the flag as [latched] says.
    The latch is on for a transaction with the start symbol, that one
    included; it stays on through the transaction with the end symbol,
    which is still passed to the callback, and is off after it.  While
    the flag is set, a start symbol that is not also the end symbol
    changes nothing: the transaction is passed on like any other and the
    filter stays as it is.  While the flag is clear, an end symbol that
    is not also the start symbol changes nothing and nothing is called.
    A symbol that is both opens and closes the range at once: the
    callback is called and the flag is clear afterwards, whatever it
    was. *)
Theorem range_filter_latch {S} (func : Read.t -> S -> result S)
    (f : AnnFilter.t) (read : Read.t) (s : S) :
  AnnFilter.check func f read s
  = (if collecting f read then func read s else Ok s)
    ≫= (fun s' => Ok (latched f read, s'))
  /\ (Read.symbol read = Some (AnnFilter.start_symbol f) ->
      collecting f read = true)
  /\ (AnnFilter.putting f = true ->
      collecting f read = true
      /\ latched f read
         = if decide (Read.symbol read = Some (AnnFilter.end_symbol f))
           then AnnFilter.set_putting false f else f)
  /\ (Read.symbol read = Some (AnnFilter.end_symbol f) ->
      AnnFilter.putting (latched f read) = false)
  /\ (Read.symbol read <> Some (AnnFilter.end_symbol f) ->
      AnnFilter.putting (latched f read) = collecting f read)
  /\ (collecting f read = false ->
      AnnFilter.check func f read s = Ok (f, s))
  /\ (AnnFilter.putting f = true ->
      Read.symbol read = Some (AnnFilter.start_symbol f) ->
      Read.symbol read <> Some (AnnFilter.end_symbol f) ->
      AnnFilter.check func f read s
      = func read s ≫= fun s' => Ok (f, s'))
  /\ (AnnFilter.putting f = false ->
      Read.symbol read = Some (AnnFilter.end_symbol f) ->
      Read.symbol read <> Some (AnnFilter.start_symbol f) ->
      AnnFilter.check func f read s = Ok (f, s))
  /\ (Read.symbol read = Some (AnnFilter.start_symbol f) ->
      Read.symbol read = Some (AnnFilter.end_symbol f) ->
      AnnFilter.check func f read s
      = func read s ≫= fun s' => Ok (AnnFilter.set_putting false f, s')).
Proof.
  split; [apply check_spec|].
  split; [|split; [|split; [|split; [|split; [|split; [|split]]]]]].
  - intros H. unfold collecting. rewrite (bool_decide_eq_true_2 _ H).
    apply orb_true_r.
  - intros Hp. unfold latched, collecting. rewrite Hp. simpl.
    split; [reflexivity|]. destruct f as [st en p]. simpl in *. subst p.
    destruct (decide (Read.symbol read = Some en)) as [He|He];
      [rewrite (bool_decide_eq_true_2 _ He)
      |rewrite (bool_decide_eq_false_2 _ He)]; reflexivity.
  - intros He. unfold latched. simpl.
    rewrite (bool_decide_eq_true_2 _ He). apply andb_false_r.
  - intros He. unfold latched. simpl.
    rewrite (bool_decide_eq_false_2 _ He). apply andb_true_r.
  - intros Hoff. rewrite check_spec, Hoff. simpl.
    unfold latched. rewrite Hoff. simpl.
    unfold collecting in Hoff. apply orb_false_elim in Hoff as [Hp _].
    destruct f as [st en p]. simpl in *. by subst p.
  - intros Hp Hs He. rewrite check_spec. unfold latched, collecting.
    rewrite Hp, (bool_decide_eq_false_2 _ He). simpl.
    destruct f as [st en p]. simpl in *. by subst p.
  - intros Hp He Hs. rewrite check_spec. unfold latched, collecting.
    rewrite Hp, (bool_decide_eq_false_2 _ Hs). simpl.
    destruct f as [st en p]. simpl in *. by subst p.
  - intros Hs He. rewrite check_spec. unfold latched, collecting.
    rewrite (bool_decide_eq_true_2 _ Hs), (bool_decide_eq_true_2 _ He).
    by rewrite orb_true_r.
Qed.

(** An end symbol while the latch is off: nothing is called, nothing
    changes; a start symbol: the callback is called and the flag is set. *)
Lemma range_filter_latch_witness :
  AnnFilter.check record_symbol (AnnFilter.mk "A" "B" false)
    (read_with_symbol "B") []
  = Ok (AnnFilter.mk "A" "B" false, [])
  /\ AnnFilter.check record_symbol (AnnFilter.mk "A" "B" false)
       (read_with_symbol "A") []
     = Ok (AnnFilter.mk "A" "B" true, [Some "A"]).
Proof.
  split.
  - apply (proj1 (proj2 (proj2 (proj2 (proj2 (proj2
             (range_filter_latch record_symbol
                (AnnFilter.mk "A" "B" false)
                (read_with_symbol "B") []))))))).
    reflexivity.
  - rewrite (proj1 (range_filter_latch record_symbol
                      (AnnFilter.mk "A" "B" false)
                      (read_with_symbol "A") [])).
    reflexivity.
Defined.

(** C7, as stated, fails when one symbol is both the start and the end
    symbol: with the flag clear, a transaction with the end symbol is
    passed to the callback; with the flag set, a transaction with the
    start symbol clears it. *)
Lemma same_symbol_opens_and_closes :
  AnnFilter.check record_symbol (AnnFilter.mk "A" "A" false)
    (read_with_symbol "A") []
  = Ok (AnnFilter.mk "A" "A" false, [Some "A"])
  /\ AnnFilter.check record_symbol (AnnFilter.mk "A" "A" true)
       (read_with_symbol "A") []
     = Ok (AnnFilter.mk "A" "A" false, [Some "A"])
  /\ ~ end_symbol_while_off_is_noop
  /\ ~ start_symbol_while_collecting_is_noop.
Proof.
  split; [reflexivity|]. split; [reflexivity|]. split.
  - intros H.
    specialize (H (AnnFilter.mk "A" "A" false) (read_with_symbol "A") []
                  eq_refl eq_refl).
    discriminate H.
  - intros H.
    destruct (H (AnnFilter.mk "A" "A" true) (read_with_symbol "A") []
                eq_refl eq_refl) as [log' Hlog].
    discriminate Hlog.
Qed.

(* ===================================================================== *)
(** ** What closing a transaction renders *)
(* ===================================================================== *)

Lemma add_out_nil (s : Decoder.t) : add_out [] s = s.
Proof. destruct s. unfold add_out. simpl. by rewrite app_nil_r. Qed.

Lemma add_out_add_out (evs1 evs2 : list annotation) (s : Decoder.t) :
  add_out evs2 (add_out evs1 s) = add_out (evs1 ++ evs2) s.
Proof. unfold add_out. simpl. by rewrite app_assoc. Qed.

Lemma put_add_out (ss es : samplenum_t) (cls : Ann) (text : list string)
    (s : Decoder.t) :
  Decoder.put ss es cls text s = add_out [Annotation ss es cls text] s.
Proof. reflexivity. Qed.

Lemma format_0X_opt_Ok (w : nat) (v : option Z) (t : string) :
  format_0X_opt w v = Ok t -> exists n, v = Some n /\ t = format_0X w n.
Proof. destruct v; simpl; [intros [= <-]; eauto | discriminate]. Qed.

Lemma cycle_rendered_mono (evs evs' : list annotation) (c : Cycle.t) :
  (forall a, a ∈ evs -> a ∈ evs') ->
  cycle_rendered evs c -> cycle_rendered evs' c.
Proof.
  intros Hsub (e & a & d & Ha & Hd & H1 & H2).
  exists e, a, d. auto.
Qed.

Lemma print_cycles_out (read : Read.t) (cycles : list Cycle.t) :
  forall (idx : nat) (s s' : Decoder.t),
    Decoder.print_cycles read idx cycles s = Ok s' ->
    exists evs, s' = add_out evs s /\ Forall (cycle_rendered evs) cycles.
Proof.
  induction cycles as [|c cycles IH]; intros idx s s' H; simpl in H.
  - injection H as <-. exists []. by rewrite add_out_nil.
  - inv_result.
    repeat match goal with
    | Hf : format_0X_opt _ _ = Ok _ |- _ =>
        apply format_0X_opt_Ok in Hf as (? & ? & ->)
    end.
    rewrite !put_add_out, add_out_add_out in H.
    destruct (IH _ _ _ H) as (evs & -> & Hall).
    rewrite add_out_add_out. eexists. split; [reflexivity|].
    constructor.
    + unfold cycle_rendered. do 3 eexists.
      split; [eassumption|]. split; [eassumption|].
      split; apply elem_of_app; left.
      * apply list_elem_of_here.
      * apply list_elem_of_further, list_elem_of_here.
    + eapply Forall_impl; [exact Hall|]. intros c'.
      apply cycle_rendered_mono. intros ev Hev. apply elem_of_app. by right.
Qed.

Lemma print_read_out (read : Read.t) (s s' : Decoder.t) :
  Decoder.print_read read s = Ok s' ->
  exists evs,
    s' = add_out evs s /\ Forall (cycle_rendered evs) (Read.cycles read).
Proof.
  unfold Decoder.print_read. intros H.
  apply bind_Ok_inv in H as (s1 & H1 & H). apply bind_Ok_inv in H as (s2 & H2 & H).
  apply print_cycles_out in H1 as (evs0 & -> & Hall).
  assert (exists evs1, s2 = add_out (evs0 ++ evs1) s) as (evs1 & ->).
  { destruct (truthy_str (Read.symbol read)); inv_result; subst.
    - rewrite put_add_out, add_out_add_out. eauto.
    - exists []. by rewrite app_nil_r. }
  assert (exists evs2, s' = add_out ((evs0 ++ evs1) ++ evs2) s)
    as (evs2 & ->).
  { destruct (Read.instruction read); inv_result; subst.
    - rewrite put_add_out, add_out_add_out. eauto.
    - exists []. by rewrite app_nil_r. }
  eexists. split; [reflexivity|].
  eapply Forall_impl; [exact Hall|]. intros c.
  apply cycle_rendered_mono. intros ev Hev.
  apply elem_of_app. left. apply elem_of_app. by left.
Qed.

Lemma Read_end_frame (lookups : Lookups.t) (r r' : Read.t)
    (end_sample : samplenum_t) (sram_bank : Z) :
  Read.end_ lookups r end_sample sram_bank = Ok r' ->
  Read.cycles r' = Read.cycles r /\ Read.symbol r' = Read.symbol r
  /\ Read.instruction r' = Read.instruction r
  /\ Read.state r' = Read.state r /\ Read.mode r' = Read.mode r
  /\ Read.cycle_count r' = Read.cycle_count r
  /\ Read.end_sample r' = Some end_sample.
Proof.
  unfold Read.end_. intros H.
  assert (forall sp, Read.set_end_sample end_sample sp r = r' ->
            Read.cycles r' = Read.cycles r /\ Read.symbol r' = Read.symbol r
            /\ Read.instruction r' = Read.instruction r
            /\ Read.state r' = Read.state r /\ Read.mode r' = Read.mode r
            /\ Read.cycle_count r' = Read.cycle_count r
            /\ Read.end_sample r' = Some end_sample) as Hset.
  { intros sp <-. simpl. auto 10. }
  destruct (Read.instruction r) as [inst|]; [|inv_result; eauto].
  destruct (decide (Instruction.opcode inst ∈ Read.operand_opcodes));
    [|inv_result; eauto].
  inv_result.
  destruct (Lookups.symbols lookups !! _ ≫= _); inv_result; eauto.
Qed.

Lemma collecting_ext (f : AnnFilter.t) (r r' : Read.t) :
  Read.symbol r' = Read.symbol r -> collecting f r' = collecting f r.
Proof. unfold collecting. by intros ->. Qed.

(** [end_read] on an open Read: the Read is finalized; if the latch is
    on for it, it is rendered, all its cycles included; if not, nothing
    is put. Either way the Read is closed. *)
Lemma end_read_spec (lookups : Lookups.t) (s s' : Decoder.t) (r : Read.t) :
  Decoder.prev_read s = Some r ->
  Decoder.end_read lookups s = Ok s' ->
  exists r',
    Read.end_ lookups r (Decoder.samplenum s) (Decoder.sram_bank s) = Ok r'
    /\ if collecting (Decoder.print_player_step s) r
       then exists evs,
           s' = Decoder.set_prev_read None
                  (Decoder.set_print_player_step
                     (latched (Decoder.print_player_step s) r')
                     (add_out evs s))
           /\ Forall (cycle_rendered evs) (Read.cycles r)
       else s' = Decoder.set_prev_read None s.
Proof.
  intros Hprev H. unfold Decoder.end_read in H. rewrite Hprev in H.
  apply bind_Ok_inv in H as (r' & Hr' & H). exists r'. split; [exact Hr'|].
  apply Read_end_frame in Hr' as (Hcy & Hsym & _).
  apply bind_Ok_inv in H as (s1 & H1 & H). apply mret_Ok_inv in H. subst s'.
  unfold Decoder.check_player_step in H1.
  rewrite check_spec in H1. simpl in H1.
  rewrite (collecting_ext _ _ _ Hsym) in H1.
  destruct (collecting (Decoder.print_player_step s) r) eqn:Hc.
  - apply bind_Ok_inv in H1 as ([f s2] & H2 & H1).
    apply bind_Ok_inv in H2 as (s3 & H3 & H2).
    injection H2 as <- <-. apply mret_Ok_inv in H1. subst s1.
    apply print_read_out in H3 as (evs & -> & Hall).
    exists evs. rewrite Hcy in Hall. split; [|exact Hall].
    destruct s. reflexivity.
  - simpl in H1. apply mret_Ok_inv in H1. subst s1.
    unfold latched. rewrite (collecting_ext _ _ _ Hsym), Hc.
    unfold collecting in Hc. apply orb_false_elim in Hc as [Hp _].
    destruct s as [? ? ? ? ? [st en p] ?]. simpl in *. by subst p.
Qed.

Lemma print_write_out (w : Write.t) (s s' : Decoder.t) :
  Decoder.print_write w s = Ok s' ->
  exists evs, s' = add_out evs s /\ write_rendered evs w.
Proof.
  unfold Decoder.print_write. intros H.
  apply bind_Ok_inv in H as (e & He & H).
  apply bind_Ok_inv in H as (ta & Ha & H).
  apply bind_Ok_inv in H as (td & Hd & H).
  apply format_0X_opt_Ok in Ha as (a & Haddr & ->).
  apply format_0X_opt_Ok in Hd as (d & Hdata & ->).
  rewrite !put_add_out, !add_out_add_out in H.
  assert (exists evs1,
             s' = add_out (([Annotation (Write.start_sample w) e ADDR
                               [format_0X 4 a]]
                            ++ [Annotation (Write.start_sample w) e WR
                                  [format_0X 2 d]]) ++ evs1) s)
    as (evs1 & ->).
  { destruct (truthy_str (Write.symbol w)).
    - apply mret_Ok_inv in H. subst s'.
      rewrite ?put_add_out, ?add_out_add_out. eauto.
    - destruct (Write.hardware_const w) as [hc|].
      + rewrite ?put_add_out, ?add_out_add_out in H.
        destruct (Cycle.data (Write.cycle w) ≫= _).
        * apply bind_Ok_inv in H as (ann & _ & H). apply mret_Ok_inv in H.
          subst s'. rewrite ?put_add_out, ?add_out_add_out.
          rewrite <- app_assoc. eauto.
        * apply mret_Ok_inv in H. subst s'. eauto.
      + apply mret_Ok_inv in H. subst s'. exists []. by rewrite app_nil_r. }
  eexists. split; [reflexivity|].
  exists e, a, d. destruct (Write.end_sample w); [|discriminate].
  injection He as ->. split; [done|]. split; [done|]. split; [done|].
  split; apply elem_of_app; left.
  - apply list_elem_of_here.
  - apply list_elem_of_further, list_elem_of_here.
Qed.

(** [end_write] on an open Write: rendered if the flag of the filter is
    set, not at all otherwise; then the Write is closed. *)
Lemma end_write_spec (s s' : Decoder.t) (w : Write.t) :
  Decoder.prev_write s = Some w ->
  Decoder.end_write s = Ok s' ->
  if AnnFilter.putting (Decoder.print_player_step s)
  then exists evs,
      s' = Decoder.set_prev_write None (add_out evs s)
      /\ write_rendered evs (Write.end_ w (Decoder.samplenum s))
  else s' = Decoder.set_prev_write None s.
Proof.
  intros Hprev H. unfold Decoder.end_write in H. rewrite Hprev in H.
  apply bind_Ok_inv in H as (s1 & H1 & H). apply mret_Ok_inv in H. subst s'.
  simpl in H1.
  destruct (AnnFilter.putting (Decoder.print_player_step s)).
  - apply print_write_out in H1 as (evs & -> & Hw).
    exists evs. split; [|exact Hw]. destruct s. reflexivity.
  - apply mret_Ok_inv in H1. subst s1. destruct s. reflexivity.
Qed.

Ltac in_events :=
  repeat (rewrite elem_of_app || rewrite elem_of_cons); auto 10.

(** [print_read] puts, beyond the cycles, the symbol and the annotation
    of the instruction of the Read. *)
Lemma print_read_events (read : Read.t) (e : samplenum_t)
    (s s' : Decoder.t) :
  Read.end_sample read = Some e ->
  Decoder.print_read read s = Ok s' ->
  exists evs,
    s' = add_out evs s /\ Forall (cycle_rendered evs) (Read.cycles read)
    /\ whole_read_rendered evs read e.
Proof.
  intros He H. unfold Decoder.print_read in H. rewrite He in H.
  apply bind_Ok_inv in H as (s1 & H1 & H).
  apply bind_Ok_inv in H as (s2 & H2 & H).
  apply print_cycles_out in H1 as (evs0 & -> & Hall).
  assert (forall evs1, Forall (cycle_rendered (evs0 ++ evs1))
                         (Read.cycles read)) as Hmono.
  { intros evs1. eapply Forall_impl; [exact Hall|]. intros c.
    apply cycle_rendered_mono. intros ev Hev. apply elem_of_app. by left. }
  unfold whole_read_rendered.
  destruct (truthy_str (Read.symbol read));
    destruct (Read.instruction read) as [inst|];
    simpl in H2, H; inv_result; subst;
    rewrite ?put_add_out, ?add_out_add_out;
    eexists; (split; [reflexivity|]);
    rewrite <- ?app_assoc; (split; [first [apply Hmono|exact Hall]|]);
    (split; [intros Ht; try discriminate Ht; in_events|]);
    intros inst0 Hi; try discriminate Hi;
    eexists; (split; [eassumption|]); in_events.
Qed.

Lemma end_read_events (lookups : Lookups.t) (s s' : Decoder.t)
    (r : Read.t) :
  Decoder.prev_read s = Some r ->
  Decoder.end_read lookups s = Ok s' ->
  collecting (Decoder.print_player_step s) r = true ->
  exists evs r',
    Decoder.out s' = Decoder.out s ++ evs
    /\ Forall (cycle_rendered evs) (Read.cycles r)
    /\ Read.end_ lookups r (Decoder.samplenum s) (Decoder.sram_bank s)
       = Ok r'
    /\ whole_read_rendered evs r' (Decoder.samplenum s).
Proof.
  intros Hprev H Hc. unfold Decoder.end_read in H. rewrite Hprev in H.
  apply bind_Ok_inv in H as (r' & Hr' & H).
  pose proof Hr' as Hend.
  apply Read_end_frame in Hr' as (Hcy & Hsym & _ & _ & _ & _ & He).
  apply bind_Ok_inv in H as (s1 & H1 & H). apply mret_Ok_inv in H.
  subst s'. unfold Decoder.check_player_step in H1.
  rewrite check_spec in H1. simpl in H1.
  rewrite (collecting_ext _ _ _ Hsym), Hc in H1.
  apply bind_Ok_inv in H1 as ([f s2] & H2 & H1).
  apply bind_Ok_inv in H2 as (s3 & H3 & H2).
  injection H2 as <- <-. apply mret_Ok_inv in H1. subst s1.
  apply (print_read_events r' _ _ _ He) in H3 as (evs & -> & Hall & Hw).
  exists evs, r'. rewrite <- Hcy.
  split; [reflexivity|]. split; [exact Hall|]. by split.
Qed.

(** [print_write] puts, beyond the address and the data, the symbol of
    the Write, or else the names of its register and of the value. *)
Lemma print_write_events (w : Write.t) (e : samplenum_t)
    (s s' : Decoder.t) :
  Write.end_sample w = Some e ->
  Decoder.print_write w s = Ok s' ->
  exists evs,
    s' = add_out evs s /\ write_rendered evs w
    /\ whole_write_rendered evs w e.
Proof.
  intros He H. pose proof H as H0.
  apply print_write_out in H0 as (evs0 & _ & e0 & a & d & He0 & Ha & Hd & _).
  unfold Decoder.print_write in H. rewrite He, Ha, Hd in H. simpl in H.
  rewrite !put_add_out, !add_out_add_out in H.
  assert (forall evs,
            Annotation (Write.start_sample w) e ADDR [format_0X 4 a] ∈ evs ->
            Annotation (Write.start_sample w) e WR [format_0X 2 d] ∈ evs ->
            write_rendered evs w) as Hwr.
  { intros evs H1 H2. by exists e, a, d. }
  unfold whole_write_rendered.
  destruct (truthy_str (Write.symbol w)).
  - apply mret_Ok_inv in H. subst s'.
    rewrite ?put_add_out, ?add_out_add_out.
    eexists. split; [reflexivity|]. split; [apply Hwr; in_events|].
    split; [intros _; in_events|discriminate].
  - destruct (Write.hardware_const w) as [hc|] eqn:Hhc.
    + rewrite ?put_add_out, ?add_out_add_out in H.
      destruct (HardwareConstant.data hc !! d) as [item|] eqn:Hitem;
        simpl in H.
      * unfold Write.get_ann_hardware_const_data in H.
        rewrite Hhc, Hd in H. simpl in H. rewrite Hitem in H. simpl in H.
        apply mret_Ok_inv in H. subst s'.
        rewrite ?put_add_out, ?add_out_add_out.
        eexists. split; [reflexivity|]. split; [apply Hwr; in_events|].
        split; [discriminate|].
        intros _ hc' [= <-]. split; [in_events|].
        intros d' item' Hd' Hitem'. rewrite Hd in Hd'.
        injection Hd' as <-. rewrite Hitem in Hitem'.
        injection Hitem' as <-. in_events.
      * apply mret_Ok_inv in H. subst s'.
        eexists. split; [reflexivity|]. split; [apply Hwr; in_events|].
        split; [discriminate|].
        intros _ hc' [= <-]. split; [in_events|].
        intros d' item' Hd' Hitem'. rewrite Hd in Hd'.
        injection Hd' as <-. congruence.
    + apply mret_Ok_inv in H. subst s'.
      eexists. split; [reflexivity|]. split; [apply Hwr; in_events|].
      split; [discriminate|]. intros _ hc' Hhc'. discriminate Hhc'.
Qed.

Lemma end_write_events (s s' : Decoder.t) (w : Write.t) :
  Decoder.prev_write s = Some w ->
  Decoder.end_write s = Ok s' ->
  AnnFilter.putting (Decoder.print_player_step s) = true ->
  exists evs,
    Decoder.out s' = Decoder.out s ++ evs
    /\ write_rendered evs (Write.end_ w (Decoder.samplenum s))
    /\ whole_write_rendered evs (Write.end_ w (Decoder.samplenum s))
         (Decoder.samplenum s).
Proof.
  intros Hprev H Hp. unfold Decoder.end_write in H. rewrite Hprev in H.
  apply bind_Ok_inv in H as (s1 & H1 & H). apply mret_Ok_inv in H.
  subst s'. simpl in H1. rewrite Hp in H1.
  apply (print_write_events _ (Decoder.samplenum s)) in H1
    as (evs & -> & Hw & Hwhole); [|reflexivity].
  exists evs. split; [reflexivity|]. by split.
Qed.

(** C6, as stated, fails: the filter is off, the complete Read is closed,
    and nothing at all is put for it. *)
Lemma read_rendering_is_not_unconditional :
  Decoder.decode (lookups_of ∅) Decoder.start [read_start 1 0x0200 0x00]
  = Ok quiet_read_open
  /\ match Decoder.decode (lookups_of ∅) Decoder.start
             [read_start 1 0x0200 0x00; read_start 2 0x0201 0x00] with
     | Ok s => Decoder.out s = []
     | Raise _ => False
     end
  /\ ~ read_cycles_always_rendered (lookups_of ∅) quiet_read_open.
Proof.
  split; [vm_compute; reflexivity|]. split; [vm_compute; reflexivity|].
  intros H.
  destruct (H quiet_read (Decoder.set_prev_read None quiet_read_open)
              eq_refl eq_refl
              (Cycle.mk (Some 1) (Some 0x0200) (Some 0x00) UNKNOWN))
    as (ev & Hev & _).
  - apply list_elem_of_here.
  - simpl in Hev. by apply elem_of_nil in Hev.
Qed.

(** C6, amended. Closing a Read renders it, the address and the data
    event of every cycle included, and with them the symbol event and
    the event of the instruction when the Read has them, exactly when
    the latch of the range filter is on for it (the flag is set, or the
    Read carries the start symbol); when the latch is off nothing is put
    for the Read.  Closing a Write renders it, its address and its data,
    and with them its symbol or else the names of its register and of
    the value written, exactly when the flag of the filter is set;
    otherwise nothing is put. *)
Theorem rendering_is_gated_by_filter (lookups : Lookups.t)
    (s s' : Decoder.t) :
  (forall r,
     Decoder.prev_read s = Some r ->
     Decoder.end_read lookups s = Ok s' ->
     (collecting (Decoder.print_player_step s) r = false ->
      Decoder.out s' = Decoder.out s)
     /\ (collecting (Decoder.print_player_step s) r = true ->
         exists evs r',
           Decoder.out s' = Decoder.out s ++ evs
           /\ Forall (cycle_rendered evs) (Read.cycles r)
           /\ Read.end_ lookups r (Decoder.samplenum s)
                (Decoder.sram_bank s) = Ok r'
           /\ whole_read_rendered evs r' (Decoder.samplenum s)))
  /\ (forall w,
        Decoder.prev_write s = Some w ->
        Decoder.end_write s = Ok s' ->
        (AnnFilter.putting (Decoder.print_player_step s) = false ->
         Decoder.out s' = Decoder.out s)
        /\ (AnnFilter.putting (Decoder.print_player_step s) = true ->
            exists evs,
              Decoder.out s' = Decoder.out s ++ evs
              /\ write_rendered evs
                   (Write.end_ w (Decoder.samplenum s))
              /\ whole_write_rendered evs
                   (Write.end_ w (Decoder.samplenum s))
                   (Decoder.samplenum s))).
Proof.
  split.
  - intros r Hprev H. split; intros Hc.
    + destruct (end_read_spec lookups s s' r Hprev H) as (r' & _ & Hs').
      rewrite Hc in Hs'. by subst s'.
    + exact (end_read_events lookups s s' r Hprev H Hc).
  - intros w Hprev H. split; intros Hp.
    + pose proof (end_write_spec s s' w Hprev H) as Hs'.
      rewrite Hp in Hs'. by subst s'.
    + exact (end_write_events s s' w Hprev H Hp).
Qed.

(** A Read with the start symbol is rendered with its symbol; a write of
    [0x0A] to the register at [0x0000] while the flag is set is rendered
    with the names of the register and of the value. *)
Lemma rendering_is_gated_by_filter_witness :
  Decoder.out (Decoder.set_prev_read None quiet_read_open) = []
  /\ (exists evs r',
        Decoder.out start_read_closed = [] ++ evs
        /\ Forall (cycle_rendered evs) (Read.cycles start_read)
        /\ Read.end_ (lookups_of ∅) start_read (Some 2) 0 = Ok r'
        /\ whole_read_rendered evs r' (Some 2))
  /\ (exists evs,
        Decoder.out sram_enable_closed
        = Decoder.out sram_enable_open ++ evs
        /\ Annotation (Some 2) (Some 3) WR_FUNC ["MBC3SRamEnable"] ∈ evs
        /\ Annotation (Some 2) (Some 3) CONST ["SRAM_ENABLE"] ∈ evs).
Proof.
  split; [|split].
  - apply (proj1 (rendering_is_gated_by_filter (lookups_of ∅)
                    quiet_read_open
                    (Decoder.set_prev_read None quiet_read_open))
             quiet_read eq_refl eq_refl).
    reflexivity.
  - apply (proj1 (rendering_is_gated_by_filter (lookups_of ∅)
                    start_read_open start_read_closed)
             start_read eq_refl eq_refl).
    reflexivity.
  - destruct (proj2 (proj2 (rendering_is_gated_by_filter (lookups_of ∅)
                              sram_enable_open sram_enable_closed)
                       sram_enable_write eq_refl eq_refl) eq_refl)
      as (evs & Ho & _ & _ & Hhc).
    exists evs. split; [exact Ho|].
    destruct (Hhc eq_refl _ eq_refl) as [Hf Hc].
    split; [exact Hf|].
    exact (Hc 0x0a (HardwareConstantData.mk "SRAM_ENABLE" 0x0a)
             eq_refl eq_refl).
Defined.

(* ===================================================================== *)
(** ** What each method of the decoder leaves untouched *)
(* ===================================================================== *)

Lemma end_write_frame (s s' : Decoder.t) :
  Decoder.end_write s = Ok s' ->
  Decoder.prev_write s' = None
  /\ Decoder.prev_read s' = Decoder.prev_read s
  /\ Decoder.print_player_step s' = Decoder.print_player_step s
  /\ same_context s s'.
Proof.
  intros H. destruct (Decoder.prev_write s) as [w|] eqn:Hprev.
  - pose proof (end_write_spec s s' w Hprev H) as Hs'.
    destruct (AnnFilter.putting (Decoder.print_player_step s)).
    + destruct Hs' as (evs & -> & _). by repeat split.
    + subst s'. by repeat split.
  - unfold Decoder.end_write in H. rewrite Hprev in H.
    apply mret_Ok_inv in H. subst s'. by repeat split.
Qed.

Lemma end_read_frame (lookups : Lookups.t) (s s' : Decoder.t) :
  Decoder.end_read lookups s = Ok s' ->
  Decoder.prev_read s' = None
  /\ Decoder.prev_write s' = Decoder.prev_write s
  /\ same_context s s'.
Proof.
  intros H. destruct (Decoder.prev_read s) as [r|] eqn:Hprev.
  - destruct (end_read_spec lookups s s' r Hprev H) as (r' & _ & Hs').
    destruct (collecting (Decoder.print_player_step s) r).
    + destruct Hs' as (evs & -> & _). by repeat split.
    + subst s'. by repeat split.
  - unfold Decoder.end_read in H. rewrite Hprev in H.
    apply mret_Ok_inv in H. subst s'. by repeat split.
Qed.

Lemma switch_rom_spec (s s' : Decoder.t) (w : Write.t) :
  Decoder.switch_rom s w = Ok s' ->
  Decoder.prev_read s' = Decoder.prev_read s
  /\ Decoder.prev_write s' = Decoder.prev_write s
  /\ Decoder.samplenum s' = Decoder.samplenum s
  /\ Decoder.prev_sram_bank s' = Decoder.prev_sram_bank s
  /\ Cycle.data (Write.cycle w) = Some (Decoder.rom_bank s').
Proof.
  unfold Decoder.switch_rom. intros H.
  apply bind_Ok_inv in H as (bank & Hb & H). apply mret_Ok_inv in H.
  destruct (Cycle.data (Write.cycle w)) as [d|]; [|discriminate Hb].
  injection Hb as ->. subst s'.
  destruct (Decoder.prev_rom_bank s); by repeat split.
Qed.

Lemma switch_sram_spec (s s' : Decoder.t) (w : Write.t) :
  Decoder.switch_sram s w = Ok s' ->
  Decoder.prev_read s' = Decoder.prev_read s
  /\ Decoder.prev_write s' = Decoder.prev_write s
  /\ Decoder.samplenum s' = Decoder.samplenum s
  /\ Decoder.prev_rom_bank s' = Decoder.prev_rom_bank s
  /\ Cycle.data (Write.cycle w) = Some (Decoder.sram_bank s').
Proof.
  unfold Decoder.switch_sram. intros H.
  apply bind_Ok_inv in H as (bank & Hb & H). apply mret_Ok_inv in H.
  destruct (Cycle.data (Write.cycle w)) as [d|]; [|discriminate Hb].
  injection Hb as ->. subst s'.
  destruct (Decoder.prev_sram_bank s); by repeat split.
Qed.

Lemma read_spec (lookups : Lookups.t) (s s' : Decoder.t) (pins : list Z) :
  Decoder.read lookups s pins = Ok s' ->
  Decoder.prev_write s' = Decoder.prev_write s
  /\ same_context s s'
  /\ read_outcome lookups pins s s'.
Proof.
  unfold Decoder.read. intros H.
  destruct (Decoder.prev_read s) as [r0|] eqn:Hprev.
  - destruct (Read.state r0) eqn:Hst.
    + apply mret_Ok_inv in H. subst s'.
      split; [done|]. split; [done|]. by eapply read_ignores.
    + apply bind_Ok_inv in H as (r & Hr & H). apply mret_Ok_inv in H.
      subst s'. split; [done|]. split; [done|]. by eapply read_extends.
    + apply bind_Ok_inv in H as (s1 & H1 & H).
      apply bind_Ok_inv in H as (r & Hr & H). apply mret_Ok_inv in H.
      subst s'.
      apply end_read_frame in H1 as (_ & Hw & Hsn & Hrom & Hsram).
      rewrite Hsn in Hr. simpl.
      split; [done|]. split; [done|].
      eapply read_opens; [right; eauto| |reflexivity]. exact Hr.
  - apply bind_Ok_inv in H as (r & Hr & H). apply mret_Ok_inv in H.
    subst s'. split; [done|]. split; [done|].
    eapply read_opens; [by left| |reflexivity]. exact Hr.
Qed.

Lemma write_spec (lookups : Lookups.t) (s s' : Decoder.t) (pins : list Z) :
  Decoder.write lookups s pins = Ok s' ->
  Decoder.prev_read s' = Decoder.prev_read s
  /\ Decoder.samplenum s' = Decoder.samplenum s
  /\ exists w,
      Write.new (Decoder.samplenum s) pins (Decoder.sram_bank s) lookups
      = Ok w
      /\ Decoder.prev_write s' = Some w
      /\ if Write.is_rom_bank_switch w
         then Cycle.data (Write.cycle w) = Some (Decoder.rom_bank s')
              /\ Decoder.prev_sram_bank s' = Decoder.prev_sram_bank s
         else Decoder.prev_rom_bank s' = Decoder.prev_rom_bank s.
Proof.
  unfold Decoder.write. intros H.
  apply bind_Ok_inv in H as (s1 & H1 & H).
  assert (Decoder.prev_read s1 = Decoder.prev_read s /\ same_context s s1)
    as (Hr1 & Hsn & Hrom & Hsram).
  { destruct (Decoder.prev_write s).
    - by apply end_write_frame in H1 as (_ & ? & _ & ?).
    - apply mret_Ok_inv in H1. subst s1. by repeat split. }
  apply bind_Ok_inv in H as (w & Hw & H).
  unfold Decoder.sram_bank in *. rewrite Hsn, Hsram in Hw.
  destruct (Write.is_rom_bank_switch w) eqn:Hsw.
  - apply switch_rom_spec in H as (Hr & Hpw & Hs & Hsr & Hd). simpl in *.
    split; [congruence|]. split; [congruence|].
    exists w. split; [exact Hw|]. split; [exact Hpw|].
    rewrite Hsw. split; [exact Hd | congruence].
  - destruct (Write.is_sram_bank_switch w).
    + apply switch_sram_spec in H as (Hr & Hpw & Hs & Hro & Hd).
      simpl in *.
      split; [congruence|]. split; [congruence|].
      exists w. split; [exact Hw|]. split; [exact Hpw|].
      rewrite Hsw. congruence.
    + apply mret_Ok_inv in H. subst s'. simpl.
      split; [congruence|]. split; [congruence|].
      exists w. split; [exact Hw|]. split; [reflexivity|].
      rewrite Hsw. exact Hrom.
Qed.

(* ===================================================================== *)
(** ** At most one transaction is open *)
(* ===================================================================== *)

Lemma decode_iter_read (lookups : Lookups.t) (s : Decoder.t) (ev : event) :
  ev_matched ev = Match.START_READ -> length (ev_pins ev) = 28%nat ->
  Decoder.decode_iter lookups s ev
  = Decoder.end_write (Decoder.set_samplenum (Some (ev_samplenum ev)) s)
    ≫= fun s1 => Decoder.read lookups s1 (ev_pins ev).
Proof.
  intros Hm Hlen. unfold Decoder.decode_iter.
  rewrite decide_True by done. by rewrite Hm.
Qed.

Lemma decode_iter_write (lookups : Lookups.t) (s : Decoder.t) (ev : event) :
  ev_matched ev = Match.START_WRITE -> length (ev_pins ev) = 28%nat ->
  Decoder.decode_iter lookups s ev
  = Decoder.end_read lookups
      (Decoder.set_samplenum (Some (ev_samplenum ev)) s)
    ≫= fun s1 => Decoder.write lookups s1 (ev_pins ev).
Proof.
  intros Hm Hlen. unfold Decoder.decode_iter.
  rewrite decide_True by done. by rewrite Hm.
Qed.

(** The cases of one turn of the loop that returns. *)
Lemma decode_iter_Ok (lookups : Lookups.t) (s s' : Decoder.t) (ev : event) :
  Decoder.decode_iter lookups s ev = Ok s' ->
  length (ev_pins ev) = 28%nat
  /\ ((ev_matched ev = Match.START_READ
       /\ exists s1,
           Decoder.end_write
             (Decoder.set_samplenum (Some (ev_samplenum ev)) s) = Ok s1
           /\ Decoder.read lookups s1 (ev_pins ev) = Ok s')
      \/ (ev_matched ev = Match.START_WRITE
          /\ exists s1,
              Decoder.end_read lookups
                (Decoder.set_samplenum (Some (ev_samplenum ev)) s) = Ok s1
              /\ Decoder.write lookups s1 (ev_pins ev) = Ok s')
      \/ (ev_matched ev <> Match.START_READ
          /\ ev_matched ev <> Match.START_WRITE
          /\ s' = Decoder.set_samplenum (Some (ev_samplenum ev)) s)).
Proof.
  unfold Decoder.decode_iter. intros H.
  destruct (decide (length (ev_pins ev) = 28%nat)) as [Hlen|];
    [|discriminate H].
  split; [exact Hlen|].
  destruct (Z.eqb_spec (ev_matched ev) Match.START_READ) as [Hr|Hr].
  - left. split; [exact Hr|]. by apply bind_Ok_inv in H.
  - destruct (Z.eqb_spec (ev_matched ev) Match.START_WRITE) as [Hw|Hw].
    + right; left. split; [exact Hw|]. by apply bind_Ok_inv in H.
    + right; right. apply mret_Ok_inv in H. by subst s'.
Qed.

(** [write] first closes the Write that is open, as [end_write] does,
    and opens the new Write in the state this leaves; what it puts after
    that is a bank span at most. *)
Lemma write_closes_first (lookups : Lookups.t) (s s' : Decoder.t)
    (pins : list Z) :
  Decoder.write lookups s pins = Ok s' ->
  exists s1 w rest,
    Decoder.end_write s = Ok s1
    /\ Decoder.prev_write s1 = None
    /\ Write.new (Decoder.samplenum s1) pins (Decoder.sram_bank s1) lookups
       = Ok w
    /\ Decoder.prev_write s' = Some w
    /\ Decoder.out s' = Decoder.out s1 ++ rest
    /\ Forall (fun an => is_bank_ann an = true) rest.
Proof.
  unfold Decoder.write. intros H.
  apply bind_Ok_inv in H as (s1 & H1 & H).
  assert (Decoder.end_write s = Ok s1) as Hend.
  { destruct (Decoder.prev_write s) eqn:Hpw; [exact H1|].
    unfold Decoder.end_write. rewrite Hpw. exact H1. }
  apply bind_Ok_inv in H as (w & Hw & H).
  exists s1, w.
  assert (exists rest,
            Decoder.prev_write s' = Some w
            /\ Decoder.out s' = Decoder.out s1 ++ rest
            /\ Forall (fun an => is_bank_ann an = true) rest)
    as (rest & Hpw & Hout & Hrest).
  { destruct (Write.is_rom_bank_switch w).
    - unfold Decoder.switch_rom in H.
      apply bind_Ok_inv in H as (bank & _ & H). apply mret_Ok_inv in H.
      subst s'. simpl. destruct (Decoder.prev_rom_bank s1) as [b|]; simpl.
      + eexists. split; [reflexivity|]. split; [reflexivity|].
        by repeat constructor.
      + exists []. by rewrite app_nil_r.
    - destruct (Write.is_sram_bank_switch w).
      + unfold Decoder.switch_sram in H.
        apply bind_Ok_inv in H as (bank & _ & H). apply mret_Ok_inv in H.
        subst s'. simpl.
        destruct (Decoder.prev_sram_bank s1) as [b|]; simpl.
        * eexists. split; [reflexivity|]. split; [reflexivity|].
          by repeat constructor.
        * exists []. by rewrite app_nil_r.
      + apply mret_Ok_inv in H. subst s'. exists []. simpl.
        by rewrite app_nil_r. }
  exists rest. split; [exact Hend|].
  split; [by apply end_write_frame in Hend as (? & _)|]. by repeat split.
Qed.

(** C2. On a read-start edge [decode] first runs [end_write], after
    which no Write is open, and [read] leaves it so; on a write-start
    edge it first runs [end_read], after which no Read is open, and
    [write] first closes the Write that is still open, exactly as
    [end_write] does, and only then opens the new Write, in a state in
    which nothing is open; after that it puts a bank span at most.  So
    when at most one transaction is open before an edge, at most one is
    open after each of these steps and after the edge, and after any
    number of edges. *)
Theorem at_most_one_transaction_open (lookups : Lookups.t)
    (s : Decoder.t) (ev : event) :
  at_most_one_open s ->
  let s0 := Decoder.set_samplenum (Some (ev_samplenum ev)) s in
  let pins := ev_pins ev in
  (ev_matched ev = Match.START_READ -> length pins = 28%nat ->
   Decoder.decode_iter lookups s ev
   = Decoder.end_write s0 ≫= (fun s1 => Decoder.read lookups s1 pins)
   /\ forall s1,
       Decoder.end_write s0 = Ok s1 ->
       Decoder.prev_write s1 = None
       /\ Decoder.prev_read s1 = Decoder.prev_read s
       /\ forall s2,
           Decoder.read lookups s1 pins = Ok s2 ->
           Decoder.prev_write s2 = None)
  /\ (ev_matched ev = Match.START_WRITE -> length pins = 28%nat ->
      Decoder.decode_iter lookups s ev
      = Decoder.end_read lookups s0
        ≫= (fun s1 => Decoder.write lookups s1 pins)
      /\ forall s1,
          Decoder.end_read lookups s0 = Ok s1 ->
          Decoder.prev_read s1 = None
          /\ Decoder.prev_write s1 = Decoder.prev_write s
          /\ (forall s1',
                Decoder.end_write s1 = Ok s1' ->
                Decoder.prev_read s1' = None
                /\ Decoder.prev_write s1' = None)
          /\ (forall s2,
                Decoder.write lookups s1 pins = Ok s2 ->
                Decoder.prev_read s2 = None
                /\ is_Some (Decoder.prev_write s2))
          /\ (forall s2,
                Decoder.write lookups s1 pins = Ok s2 ->
                exists s1' w rest,
                  Decoder.end_write s1 = Ok s1'
                  /\ Decoder.prev_read s1' = None
                  /\ Decoder.prev_write s1' = None
                  /\ Write.new (Decoder.samplenum s1') pins
                       (Decoder.sram_bank s1') lookups = Ok w
                  /\ Decoder.prev_write s2 = Some w
                  /\ Decoder.out s2 = Decoder.out s1' ++ rest
                  /\ Forall (fun an => is_bank_ann an = true) rest))
  /\ (forall s', Decoder.decode_iter lookups s ev = Ok s' ->
                 at_most_one_open s')
  /\ (forall evs s', Decoder.decode lookups s evs = Ok s' ->
                     at_most_one_open s').
Proof.
  intros Hone s0 pins.
  assert (Hstep : forall s ev s',
             at_most_one_open s ->
             Decoder.decode_iter lookups s ev = Ok s' ->
             at_most_one_open s').
  { clear. intros s ev s' Hone H.
    apply decode_iter_Ok in H as (_ & [H|[H|H]]).
    - destruct H as (_ & s1 & H1 & H2).
      apply end_write_frame in H1 as (Hw1 & _).
      apply read_spec in H2 as (Hw2 & _). right. congruence.
    - destruct H as (_ & s1 & H1 & H2).
      apply end_read_frame in H1 as (Hr1 & _).
      apply write_spec in H2 as (Hr2 & _). left. congruence.
    - destruct H as (_ & _ & ->). exact Hone. }
  split; [|split; [|split]].
  - intros Hm Hlen. split; [by apply decode_iter_read|].
    intros s1 H1. apply end_write_frame in H1 as (Hw1 & Hr1 & _).
    split; [exact Hw1|]. split; [exact Hr1|].
    intros s2 H2. apply read_spec in H2 as (Hw2 & _). congruence.
  - intros Hm Hlen. split; [by apply decode_iter_write|].
    intros s1 H1. apply end_read_frame in H1 as (Hr1 & Hw1 & _).
    split; [exact Hr1|]. split; [exact Hw1|]. split; [|split].
    + intros s1' H1'. apply end_write_frame in H1' as (Hw & Hr & _).
      split; congruence.
    + intros s2 H2. apply write_spec in H2 as (Hr2 & _ & w & _ & Hw2 & _).
      split; [congruence | by rewrite Hw2].
    + intros s2 H2.
      apply write_closes_first in H2
        as (s1' & w & rest & He & Hpw & Hnew & Hw2 & Hout & Hrest).
      exists s1', w, rest. split; [exact He|].
      apply end_write_frame in He as (_ & Hr & _).
      split; [congruence|]. by repeat split.
  - intros s'. by apply Hstep.
  - intros evs. revert s Hone s0. induction evs as [|ev' evs IH];
      intros s Hone s0 s' H; simpl in H.
    + injection H as <-. exact Hone.
    + apply bind_Ok_inv in H as (s1 & H1 & H).
      eapply (IH s1); [|exact H]. by eapply Hstep.
Qed.

(** From the start, a Write is open when a read-start edge arrives.  And
    when a write-start edge finds a Write open while the flag of the
    filter is set, the events of the old Write are put before the new
    one is opened. *)
Lemma at_most_one_transaction_open_witness :
  match Decoder.decode (lookups_of ∅) Decoder.start
          [write_start 1 0xC000 0x00; read_start 2 0x0200 0x00] with
  | Ok s => at_most_one_open s
  | Raise _ => False
  end
  /\ exists s2,
      Decoder.decode_iter (lookups_of ∅) sram_enable_open
        (write_start 3 0xC000 0x07) = Ok s2
      /\ Annotation (Some 2) (Some 3) ADDR ["0000"] ∈ Decoder.out s2
      /\ is_Some (Decoder.prev_write s2).
Proof.
  split.
  - destruct (Decoder.decode (lookups_of ∅) Decoder.start
                [write_start 1 0xC000 0x00; read_start 2 0x0200 0x00])
      as [s|e] eqn:H.
    + refine (proj2 (proj2 (proj2
                (at_most_one_transaction_open (lookups_of ∅) Decoder.start
                   (write_start 1 0xC000 0x00) _))) _ s H).
      left. reflexivity.
    + vm_compute in H. discriminate H.
  - destruct (proj1 (proj2
               (at_most_one_transaction_open (lookups_of ∅)
                  sram_enable_open (write_start 3 0xC000 0x07)
                  (or_introl eq_refl))) eq_refl eq_refl)
      as (Hdec & Hs1).
    destruct (Hs1 sram_enable_open eq_refl) as (_ & _ & _ & _ & Hnew).
    assert (exists s2, Decoder.write (lookups_of ∅) sram_enable_open
                         (pins_of 0xC000 0x07) = Ok s2) as [s2 Hs2].
    { eexists. vm_compute. reflexivity. }
    destruct (Hnew s2 Hs2)
      as (s1' & w & rest & He & _ & _ & _ & Hw & Hout & _).
    assert (s1' = sram_enable_closed) as ->.
    { assert (Decoder.end_write sram_enable_open = Ok sram_enable_closed)
        as E by reflexivity.
      rewrite E in He. by injection He as <-. }
    exists s2. split; [rewrite Hdec; exact Hs2|].
    split; [|by rewrite Hw]. rewrite Hout. apply elem_of_app. left.
    do 3 apply list_elem_of_further. apply list_elem_of_here.
Defined.

(* ===================================================================== *)
(** ** A Read is complete exactly at the declared length *)
(* ===================================================================== *)

Lemma init_rom_inv (symbols : gmap Z (gmap Z string)) (r0 r : Read.t)
    (c c' : Cycle.t) (bank a : Z) :
  Read.cycles r0 = [] -> Read.instruction r0 = None ->
  Cycle.addr c = Some a -> in_rom_window a = true ->
  Read.init_rom r0 c (lookups_of symbols) bank = (r, c') ->
  Read_inv (lookups_of symbols) (Read.append_cycle c' r).
Proof.
  intros Hcy Hin Ha Hwin H. unfold Read.init_rom in H.
  exists c', [], a.
  destruct (Cycle.data c
            ≫= fun d => Lookups.instructions (lookups_of symbols) !! d)
    as [inst|] eqn:Hlook; injection H as <- <-; simpl; rewrite Hcy; simpl;
    pose proof Hlook as Hlook'; simpl in Hlook'.
  - split; [done|]. split; [done|]. rewrite Hwin. split; [done|].
    rewrite Hlook'.
    assert (2 <= Instruction.length inst) as Hlen.
    { destruct (Cycle.data c) as [d|]; [|discriminate Hlook].
      by apply instructions_lookup in Hlook as [_ ?]. }
    split; [done|]. split; [lia|].
    destruct (Z.eqb_spec (Instruction.length inst) 1); [lia|].
    split; [|done]. split; [done | lia].
  - split; [done|]. split; [done|]. rewrite Hwin. split; [done|].
    rewrite Hlook'. by split.
Qed.

Lemma Read_new_cycles (lookups : Lookups.t) (sn : samplenum_t)
    (pins : list Z) (bank : Z) (r : Read.t) :
  Read.new sn pins bank lookups = Ok r ->
  exists c0 a, Read.cycles r = [c0] /\ Cycle.addr c0 = Some a
               /\ Read.start_sample r = sn /\ Read.end_sample r = None
               /\ Read.special_ann r = None.
Proof.
  unfold Read.new. intros H.
  apply bind_Ok_inv in H as (c & Hc & H).
  apply bind_Ok_inv in H as (a & Ha & H).
  destruct (Cycle.addr c) as [a'|] eqn:Haddr; [|discriminate Ha].
  injection Ha as ->.
  unfold Read.init_rom in H.
  repeat match type of H with
  | context [if ?b then _ else _] => destruct b
  | context [match ?o with Some _ => _ | None => _ end] => destruct o
  end; apply mret_Ok_inv in H; subst r; simpl; eauto 10.
Qed.

Lemma Read_new_inv (symbols : gmap Z (gmap Z string)) (sn : samplenum_t)
    (pins : list Z) (bank : Z) (r : Read.t) :
  Read.new sn pins bank (lookups_of symbols) = Ok r ->
  Read_inv (lookups_of symbols) r.
Proof.
  unfold Read.new. intros H.
  apply bind_Ok_inv in H as (c & Hc & H).
  apply bind_Ok_inv in H as (a & Ha & H).
  destruct (Cycle.addr c) as [a'|] eqn:Haddr; [|discriminate Ha].
  injection Ha as ->.
  destruct ((Addr.ROM0_START <=? a) && (a <=? Addr.ROM0_END)) eqn:H0.
  - destruct (Read.init_rom _ c (lookups_of symbols) 0) as [r1 c1] eqn:Hi.
    apply mret_Ok_inv in H. subst r.
    eapply init_rom_inv; [| | exact Haddr | | exact Hi]; try done.
    unfold in_rom_window. by rewrite H0.
  - destruct ((Addr.ROMX_START <=? a) && (a <=? Addr.ROMX_END)) eqn:HX.
    + destruct (Read.init_rom _ c (lookups_of symbols) bank)
        as [r1 c1] eqn:Hi.
      apply mret_Ok_inv in H. subst r.
      eapply init_rom_inv; [| | exact Haddr | | exact Hi]; try done.
      unfold in_rom_window. by rewrite H0, HX.
    + apply mret_Ok_inv in H. subst r.
      exists (Cycle.set_cycle_type UNKNOWN c), [], a. simpl.
      split; [done|]. split; [done|].
      unfold in_rom_window. by rewrite H0, HX.
Qed.

Lemma Read_next_cycles (r r' : Read.t) (pins : list Z) (sn : samplenum_t) :
  Read.next r pins sn = Ok r' ->
  exists c, Read.cycles r' = Read.cycles r ++ [c]
            /\ Read.symbol r' = Read.symbol r
            /\ Read.mode r' = Read.mode r
            /\ Read.instruction r' = Read.instruction r
            /\ Read.cycle_count r' = Read.cycle_count r + 1.
Proof.
  unfold Read.next. intros H.
  apply bind_Ok_inv in H as (c & Hc & H). simpl in H.
  destruct (Read.instruction r) as [inst|] eqn:Hi; [|discriminate H].
  apply mret_Ok_inv in H. subst r'. simpl. eauto 10.
Qed.

Lemma Read_next_inv (lookups : Lookups.t) (r r' : Read.t) (pins : list Z)
    (sn : samplenum_t) :
  Read_inv lookups r -> Read.state r = INCOMPLETE ->
  Read.next r pins sn = Ok r' ->
  Read_inv lookups r'.
Proof.
  intros (c0 & rest & a & Hcy & Ha & Hinv) Hst H.
  unfold Read.next in H.
  apply bind_Ok_inv in H as (c & Hc & H). simpl in H.
  exists c0, (rest ++ [Cycle.set_cycle_type DATA c]), a.
  destruct (in_rom_window a); [|destruct Hinv; congruence].
  destruct Hinv as (Hcount & Hinv).
  destruct (Cycle.data c0 ≫= fun d => Lookups.instructions lookups !! d)
    as [inst|]; [|destruct Hinv; congruence].
  destruct Hinv as (Hi & Hle & Hiff & Hne).
  rewrite Hi in H. apply mret_Ok_inv in H. subst r'. simpl.
  rewrite Hcy. simpl. split; [done|]. split; [done|].
  rewrite Hcy in Hcount, Hle, Hiff. simpl in Hcount, Hle, Hiff.
  rewrite length_app. simpl.
  assert (Z.of_nat (S (length rest)) <> Instruction.length inst) as Hlt.
  { intros E. apply Hiff in E. congruence. }
  split; [rewrite Hcount; lia|]. split; [done|].
  rewrite Hcount.
  destruct (Z.eqb_spec (Z.of_nat (S (length rest)) + 1)
              (Instruction.length inst)) as [E|E].
  - split; [lia|]. split; [|done]. split; [lia | done].
  - split; [lia|]. rewrite Hst. split; [|done]. split; [done | lia].
Qed.

Lemma decode_iter_inv (symbols : gmap Z (gmap Z string))
    (s s' : Decoder.t) (ev : event) :
  Decoder_inv (lookups_of symbols) s ->
  Decoder.decode_iter (lookups_of symbols) s ev = Ok s' ->
  Decoder_inv (lookups_of symbols) s'.
Proof.
  intros Hinv H r' Hr'.
  apply decode_iter_Ok in H as (_ & [H|[H|H]]).
  - destruct H as (_ & s1 & H1 & H2).
    apply end_write_frame in H1 as (_ & Hr1 & _). simpl in Hr1.
    apply read_spec in H2 as (_ & _ & Hout).
    destruct Hout as [r _ Hnew Hp | r0 r Hp0 Hst Hnext Hp | r0 Hp0 Hst Hp].
    + rewrite Hp in Hr'. injection Hr' as <-. by eapply Read_new_inv.
    + rewrite Hp in Hr'. injection Hr' as <-.
      eapply Read_next_inv; [|exact Hst|exact Hnext].
      apply Hinv. congruence.
    + rewrite Hp in Hr'. injection Hr' as <-. apply Hinv. congruence.
  - destruct H as (_ & s1 & H1 & H2).
    apply end_read_frame in H1 as (Hr1 & _).
    apply write_spec in H2 as (Hr2 & _). congruence.
  - destruct H as (_ & _ & ->). by apply Hinv.
Qed.

Lemma decode_inv (symbols : gmap Z (gmap Z string)) (evs : list event) :
  forall s s',
    Decoder_inv (lookups_of symbols) s ->
    Decoder.decode (lookups_of symbols) s evs = Ok s' ->
    Decoder_inv (lookups_of symbols) s'.
Proof.
  induction evs as [|ev evs IH]; intros s s' Hinv H; simpl in H.
  - injection H as <-. exact Hinv.
  - apply bind_Ok_inv in H as (s1 & H1 & H).
    eapply IH; [|exact H]. by eapply decode_iter_inv.
Qed.

Lemma start_inv (lookups : Lookups.t) : Decoder_inv lookups Decoder.start.
Proof. intros r Hr. discriminate Hr. Qed.

(** C1. Take any state the decoder reaches from its start, with an open
    Read whose first cycle has its address in one of the two ROM windows
    and carries a byte that is an opcode of the table, of declared length
    [L].  Then the Read holds that instruction, its counter is the number
    of its cycles, which is at least 1 and at most [L], and its state is
    [COMPLETE] exactly when that number is [L], [INCOMPLETE] exactly when
    it is below.  A further read-start edge adds one cycle to it while it
    is incomplete, and opens a new Read of one cycle once it is
    complete. *)
Theorem read_complete_at_declared_length (symbols : gmap Z (gmap Z string))
    (evs : list event) (s : Decoder.t) (r : Read.t) (c0 : Cycle.t)
    (a d : Z) (inst : Instruction.t) :
  Decoder.decode (lookups_of symbols) Decoder.start evs = Ok s ->
  Decoder.prev_read s = Some r ->
  Read.cycles r !! 0%nat = Some c0 ->
  Cycle.addr c0 = Some a -> in_rom_window a = true ->
  Cycle.data c0 = Some d ->
  Lookups.instructions (lookups_of symbols) !! d = Some inst ->
  let L := Instruction.length inst in
  let n := Z.of_nat (length (Read.cycles r)) in
  Read.instruction r = Some inst
  /\ Read.cycle_count r = n
  /\ 1 <= n <= L
  /\ (Read.state r = COMPLETE <-> n = L)
  /\ (Read.state r = INCOMPLETE <-> n < L)
  /\ (forall ev s',
        ev_matched ev = Match.START_READ ->
        Decoder.decode_iter (lookups_of symbols) s ev = Ok s' ->
        exists r',
          Decoder.prev_read s' = Some r'
          /\ (n < L ->
              exists c, Read.cycles r' = Read.cycles r ++ [c])
          /\ (n = L -> length (Read.cycles r') = 1%nat)).
Proof.
  intros Hrun Hprev Hc0 Ha Hwin Hd Hlook L n.
  pose proof (decode_inv symbols evs _ _ (start_inv _) Hrun r Hprev)
    as (c0' & rest & a' & Hcy & Ha' & Hinv).
  rewrite Hcy in Hc0. injection Hc0 as ->.
  rewrite Ha in Ha'. injection Ha' as <-.
  rewrite Hwin in Hinv. destruct Hinv as (Hcount & Hinv).
  rewrite Hd in Hinv. simpl in Hinv, Hlook. rewrite Hlook in Hinv.
  destruct Hinv as (Hi & Hle & Hiff & Hne).
  assert (1 <= n) as H1. { unfold n. rewrite Hcy. simpl. lia. }
  assert (Read.state r = INCOMPLETE <-> n < L) as Hinc.
  { split.
    - intros Hst. assert (n <> L); [|unfold n, L in *; lia].
      intros E. apply Hiff in E. congruence.
    - intros Hlt. destruct (Read.state r) eqn:Hst; [done|done|].
      assert (n = L) by (by apply Hiff). lia. }
  split; [exact Hi|]. split; [exact Hcount|]. split; [by split|].
  split; [exact Hiff|]. split; [exact Hinc|].
  intros ev s' Hm Hstep.
  apply decode_iter_Ok in Hstep as (_ & [H|[H|H]]).
  - destruct H as (_ & s1 & Hw & Hr).
    apply end_write_frame in Hw as (_ & Hr1 & _). simpl in Hr1.
    apply read_spec in Hr as (_ & _ & Hout).
    destruct Hout as [r' Hwas Hnew Hp | r0 r' Hp0 Hst Hnext Hp
                     | r0 Hp0 Hst Hp].
    + exists r'. split; [exact Hp|]. split.
      * intros Hlt. apply Hinc in Hlt.
        destruct Hwas as [Hnone|(r0 & Hp0 & Hst)]; congruence.
      * intros _. apply Read_new_cycles in Hnew as (c & ? & -> & _).
        reflexivity.
    + assert (r0 = r) by congruence. subst r0.
      exists r'. split; [exact Hp|]. split.
      * intros _. apply Read_next_cycles in Hnext as (c & Hc & _). eauto.
      * intros E. apply Hiff in E. congruence.
    + assert (r0 = r) by congruence. subst r0. congruence.
  - destruct H as (Hm' & _). rewrite Hm in Hm'. discriminate Hm'.
  - destruct H as (Hm' & _). congruence.
Qed.

Lemma read_complete_at_declared_length_witness :
  match Decoder.decode (lookups_of ∅) Decoder.start call_nn_reads with
  | Ok s =>
      match Decoder.prev_read s with
      | Some r =>
          length (Read.cycles r) = 3%nat /\ Read.state r = COMPLETE
      | None => False
      end
  | Raise _ => False
  end
  /\ match Decoder.decode (lookups_of ∅) Decoder.start
             (take 2 call_nn_reads) with
     | Ok s =>
         match Decoder.prev_read s with
         | Some r =>
             length (Read.cycles r) = 2%nat /\ Read.state r = INCOMPLETE
         | None => False
         end
     | Raise _ => False
     end.
Proof.
  split.
  - destruct (Decoder.decode (lookups_of ∅) Decoder.start call_nn_reads)
      as [s|e] eqn:Hrun; [|vm_compute in Hrun; discriminate Hrun].
    destruct (Decoder.prev_read s) as [r|] eqn:Hprev;
      [|vm_compute in Hrun; injection Hrun as <-; discriminate Hprev].
    assert (Read.cycles r !! 0%nat
            = Some (Cycle.mk (Some 1) (Some 0x0200) (Some 0xcd) OPCODE))
      as Hc0.
    { vm_compute in Hrun. injection Hrun as <-.
      injection Hprev as <-. reflexivity. }
    destruct (read_complete_at_declared_length ∅ call_nn_reads s r _
                0x0200 0xcd (Instruction.mk 0xcd 3 "call nn")
                Hrun Hprev Hc0 eq_refl eq_refl eq_refl eq_refl)
      as (_ & _ & _ & Hiff & _).
    assert (length (Read.cycles r) = 3%nat) as Hlen.
    { vm_compute in Hrun. injection Hrun as <-.
      injection Hprev as <-. reflexivity. }
    split; [exact Hlen|]. apply Hiff. rewrite Hlen. reflexivity.
  - vm_compute. split; reflexivity.
Defined.

(* ===================================================================== *)
(** ** The ROM bank in use *)
(* ===================================================================== *)

Lemma Cycle_new_Ok (sn : samplenum_t) (pins : list Z) (c : Cycle.t) :
  Cycle.new sn pins = Ok c ->
  bus_addr pins = Ok (Cycle.addr c) /\ bus_data pins = Ok (Cycle.data c)
  /\ Cycle.sample c = sn.
Proof.
  unfold Cycle.new, bus_addr, bus_data. intros H.
  apply bind_Ok_inv in H as (a & Ha & H).
  apply bind_Ok_inv in H as (d & Hd & H).
  apply mret_Ok_inv in H. subst c. by repeat split.
Qed.

Lemma hardware_const_rom_bank (symbols : gmap Z (gmap Z string)) :
  Lookups.hardware_const (lookups_of symbols) !! 0x2000
  = Some (HardwareConstant.mk "MBC3RomBank" 0x2000 ∅).
Proof. vm_compute. reflexivity. Qed.

Lemma Write_new_spec (symbols : gmap Z (gmap Z string)) (sn : samplenum_t)
    (pins : list Z) (bank : Z) (w : Write.t) :
  Write.new sn pins bank (lookups_of symbols) = Ok w ->
  exists a,
    bus_addr pins = Ok (Some a)
    /\ bus_data pins = Ok (Cycle.data (Write.cycle w))
    /\ Write.is_rom_bank_switch w = (a =? 0x2000).
Proof.
  unfold Write.new. intros H.
  apply bind_Ok_inv in H as (c & Hc & H).
  apply bind_Ok_inv in H as (a & Ha & H).
  apply Cycle_new_Ok in Hc as (Hba & Hbd & _).
  destruct (Cycle.addr c) as [a'|]; [|discriminate Ha].
  injection Ha as ->. apply mret_Ok_inv in H. subst w.
  exists a. split; [exact Hba|]. split.
  - simpl. by destruct ((Addr.SRAM_START <=? a) && (a <=? Addr.SRAM_END)).
  - unfold Write.is_rom_bank_switch. cbn [Write.hardware_const].
    destruct (Z.eqb_spec a 0x2000) as [->|Hne].
    + by rewrite hardware_const_rom_bank.
    + destruct (Lookups.hardware_const (lookups_of symbols) !! a)
        as [hc|] eqn:Hhc; [|done].
      apply hardware_const_lookup in Hhc. rewrite Hhc. by apply Z.eqb_neq.
Qed.

Lemma Read_new_romx (lookups : Lookups.t) (sn : samplenum_t)
    (pins : list Z) (bank : Z) (r : Read.t) :
  Read.new sn pins bank lookups = Ok r -> Romx_inv lookups bank r.
Proof.
  unfold Read.new. intros H.
  apply bind_Ok_inv in H as (c & Hc & H).
  apply bind_Ok_inv in H as (a & Ha & H).
  destruct (Cycle.addr c) as [a'|] eqn:Haddr; [|discriminate Ha].
  injection Ha as ->.
  destruct ((Addr.ROM0_START <=? a) && (a <=? Addr.ROM0_END)) eqn:H0.
  - apply andb_prop in H0 as [_ H0]. apply Z.leb_le in H0.
    unfold Read.init_rom in H.
    destruct (Cycle.data c ≫= _); apply mret_Ok_inv in H; subst r;
      eexists _, []; (split; [reflexivity|]); simpl; intros a1 Ha1 Hx;
      rewrite Haddr in Ha1; injection Ha1 as <-;
      unfold Addr.ROMX_START, Addr.ROM0_END in *; lia.
  - destruct ((Addr.ROMX_START <=? a) && (a <=? Addr.ROMX_END)) eqn:HX.
    + unfold Read.init_rom in H.
      destruct (Cycle.data c ≫= _); apply mret_Ok_inv in H; subst r;
        eexists _, []; (split; [reflexivity|]); simpl; intros a1 Ha1 _;
        (split; [reflexivity|]); unfold Lookups.find_symbol; simpl;
        reflexivity.
    + apply mret_Ok_inv in H. subst r.
      eexists _, []. split; [reflexivity|]. simpl. intros a1 Ha1 Hx.
      rewrite Haddr in Ha1. injection Ha1 as <-.
      apply andb_false_iff in HX as [HX|HX]; apply Z.leb_gt in HX; lia.
Qed.

Lemma Read_next_romx (lookups : Lookups.t) (d : Z) (r r' : Read.t)
    (pins : list Z) (sn : samplenum_t) :
  Romx_inv lookups d r -> Read.next r pins sn = Ok r' ->
  Romx_inv lookups d r'.
Proof.
  intros (c0 & rest & Hcy & Hinv) H.
  apply Read_next_cycles in H as (c & Hc & Hsym & Hmode & _).
  exists c0, (rest ++ [c]). split; [by rewrite Hc, Hcy|].
  rewrite Hsym, Hmode. exact Hinv.
Qed.

Lemma rom_bank_same_context (s s' : Decoder.t) :
  same_context s s' -> Decoder.rom_bank s' = Decoder.rom_bank s.
Proof. intros (_ & H & _). unfold Decoder.rom_bank. by rewrite H. Qed.

Lemma decode_iter_bank (symbols : gmap Z (gmap Z string)) (d : Z)
    (s s' : Decoder.t) (ev : event) :
  ~ writes_rom_bank ev ->
  Bank_inv (lookups_of symbols) d s ->
  Decoder.decode_iter (lookups_of symbols) s ev = Ok s' ->
  Bank_inv (lookups_of symbols) d s'.
Proof.
  intros Hev [Hbank Hinv] H.
  apply decode_iter_Ok in H as (_ & [H|[H|H]]).
  - destruct H as (_ & s1 & H1 & H2).
    apply end_write_frame in H1 as (_ & Hr1 & _ & Hctx1).
    apply rom_bank_same_context in Hctx1. simpl in Hr1, Hctx1.
    apply read_spec in H2 as (_ & Hctx2 & Hout).
    apply rom_bank_same_context in Hctx2.
    split; [rewrite Hctx2, Hctx1; exact Hbank|]. intros r' Hr'.
    destruct Hout as [r _ Hnew Hp | r0 r Hp0 Hst Hnext Hp | r0 Hp0 Hst Hp];
      rewrite Hp in Hr'; injection Hr' as <-.
    + apply Read_new_romx in Hnew. rewrite Hctx1 in Hnew.
      change (Romx_inv (lookups_of symbols) (Decoder.rom_bank s) r) in Hnew.
      by rewrite Hbank in Hnew.
    + eapply Read_next_romx; [|exact Hnext]. apply Hinv. congruence.
    + apply Hinv. congruence.
  - destruct H as (Hm & s1 & H1 & H2).
    apply end_read_frame in H1 as (Hr1 & _ & Hctx1).
    apply rom_bank_same_context in Hctx1. simpl in Hctx1.
    apply write_spec in H2 as (Hr2 & _ & w & Hw & _ & Hsw).
    apply Write_new_spec in Hw as (a & Ha & _ & Hrom).
    destruct (Z.eqb_spec a 0x2000) as [->|Hne].
    + exfalso. apply Hev. by split.
    + rewrite Hrom in Hsw. split.
      * unfold Decoder.rom_bank in *. rewrite Hsw, Hctx1. exact Hbank.
      * intros r Hr. congruence.
  - destruct H as (_ & _ & ->). by split.
Qed.

Lemma decode_bank (symbols : gmap Z (gmap Z string)) (d : Z)
    (evs : list event) :
  forall s s',
    Forall (fun ev => ~ writes_rom_bank ev) evs ->
    Bank_inv (lookups_of symbols) d s ->
    Decoder.decode (lookups_of symbols) s evs = Ok s' ->
    Bank_inv (lookups_of symbols) d s'.
Proof.
  induction evs as [|ev evs IH]; intros s s' Hall Hinv H; simpl in H.
  - injection H as <-. exact Hinv.
  - apply bind_Ok_inv in H as (s1 & H1 & H).
    apply Forall_cons in Hall as [Hev Hall].
    eapply IH; [exact Hall| |exact H]. by eapply decode_iter_bank.
Qed.

(** C3. A write-start edge at the address [0x2000] with the data byte
    [d] is processed without exception when no transaction is open, and
    whenever it is processed the active ROM bank is [d] after it.  From
    then on, as long as no other write-start edge at [0x2000] arrives,
    the active ROM bank stays [d], and every open Read whose first cycle
    has its address in [0x4000, 0x7FFF] is in mode [READ_ROMX] and has
    the symbol the table gives for that address in bank [d]. *)
Theorem rom_bank_select (symbols : gmap Z (gmap Z string))
    (s : Decoder.t) (ev : event) (d : Z) :
  writes_rom_bank ev ->
  bus_data (ev_pins ev) = Ok (Some d) ->
  (length (ev_pins ev) = 28%nat ->
   Decoder.prev_read s = None -> Decoder.prev_write s = None ->
   exists s1, Decoder.decode_iter (lookups_of symbols) s ev = Ok s1)
  /\ forall s1,
      Decoder.decode_iter (lookups_of symbols) s ev = Ok s1 ->
      Decoder.rom_bank s1 = d
      /\ forall evs s2,
          Forall (fun ev' => ~ writes_rom_bank ev') evs ->
          Decoder.decode (lookups_of symbols) s1 evs = Ok s2 ->
          Decoder.rom_bank s2 = d
          /\ forall r c0 a,
              Decoder.prev_read s2 = Some r ->
              Read.cycles r !! 0%nat = Some c0 ->
              Cycle.addr c0 = Some a ->
              Addr.ROMX_START <= a <= Addr.ROMX_END ->
              Read.mode r = Some READ_ROMX
              /\ Read.symbol r
                 = Lookups.find_symbol (lookups_of symbols) c0 d.
Proof.
  intros [Hm Haddr] Hdata. split.
  - intros Hlen Hr Hw. rewrite decode_iter_write by done.
    unfold Decoder.end_read. cbn [Decoder.prev_read Decoder.set_samplenum].
    rewrite Hr. simpl.
    unfold Decoder.write.
    cbn [Decoder.prev_write Decoder.set_samplenum]. rewrite Hw. simpl.
    unfold Write.new, Cycle.new.
    unfold bus_addr in Haddr. unfold bus_data in Hdata.
    rewrite Haddr, Hdata. simpl.
    pose proof (hardware_const_rom_bank symbols) as Hhc. simpl in Hhc.
    rewrite Hhc. simpl.
    unfold Decoder.switch_rom. simpl. eauto.
  - intros s1 H1.
    assert (Bank_inv (lookups_of symbols) d s1) as Hinv.
    { apply decode_iter_Ok in H1 as (_ & [H|[H|H]]).
      - destruct H as (Hm' & _). rewrite Hm in Hm'. discriminate Hm'.
      - destruct H as (_ & s0 & H0 & H2).
        apply end_read_frame in H0 as (Hr0 & _).
        apply write_spec in H2 as (Hr2 & _ & w & Hw & _ & Hsw).
        apply Write_new_spec in Hw as (a & Ha & Hd & Hrom).
        unfold bus_addr in *. rewrite Haddr in Ha. injection Ha as <-.
        rewrite Hrom in Hsw. simpl in Hsw. destruct Hsw as [Hbank _].
        unfold bus_data in *. rewrite Hdata in Hd. injection Hd as Hd.
        split; [congruence|]. intros r Hr. congruence.
      - destruct H as (_ & Hm' & _). contradiction. }
    split; [apply Hinv|].
    intros evs s2 Hall H2.
    destruct (decode_bank symbols d evs s1 s2 Hall Hinv H2) as [Hb Hr].
    split; [exact Hb|].
    intros r c0 a Hprev Hc0 Ha Hwin.
    destruct (Hr r Hprev) as (c0' & rest & Hcy & Hx).
    rewrite Hcy in Hc0. injection Hc0 as ->. by apply (Hx a).
Qed.

(** A write of [0x03] to [0x2000], then a Read at [0x5000]: the symbol
    is the one of bank [0x03]. *)
Lemma rom_bank_select_witness :
  match Decoder.decode (lookups_of MyFunc_symbols) Decoder.start
          [write_start 1 0x2000 0x03; read_start 2 0x5000 0x00] with
  | Ok s =>
      Decoder.rom_bank s = 0x03
      /\ exists r, Decoder.prev_read s = Some r
                   /\ Read.symbol r = Some "MyFunc"
  | Raise _ => False
  end.
Proof.
  pose proof (rom_bank_select MyFunc_symbols Decoder.start
                (write_start 1 0x2000 0x03) 0x03
                (conj eq_refl eq_refl) eq_refl) as [Hex Hspec].
  destruct (Hex eq_refl eq_refl eq_refl) as [s1 H1].
  destruct (Hspec s1 H1) as [_ Hlater].
  simpl. rewrite H1. simpl.
  destruct (Decoder.decode_iter (lookups_of MyFunc_symbols) s1
              (read_start 2 0x5000 0x00)) as [s2|e] eqn:H2.
  - destruct (Hlater [read_start 2 0x5000 0x00] s2) as [Hb Hr].
    + constructor; [|constructor]. intros [Hm _]. discriminate Hm.
    + simpl. by rewrite H2.
    + split; [exact Hb|].
      vm_compute in H1. injection H1 as <-.
      vm_compute in H2. injection H2 as <-.
      destruct (Hr _ _ 0x5000 eq_refl eq_refl eq_refl) as [_ Hsym].
      { unfold Addr.ROMX_START, Addr.ROMX_END. lia. }
      eexists. split; [reflexivity|]. rewrite Hsym. reflexivity.
  - vm_compute in H1. injection H1 as <-.
    vm_compute in H2. discriminate H2.
Defined.

(* ===================================================================== *)
(** ** The value of a driven bus *)
(* ===================================================================== *)

Lemma shift_or_bit (a b : Z) :
  0 <= a -> is_bit b -> Z.lor (Z.shiftl a 1) b = b + 2 * a.
Proof.
  intros Ha [-> | ->].
  - rewrite Z.lor_0_r, Z.shiftl_mul_pow2 by lia. change (2 ^ 1) with 2. lia.
  - rewrite Z.shiftl_mul_pow2 by lia. change (2 ^ 1) with 2.
    destruct a as [|p|p]; [reflexivity| |lia].
    replace (Z.pos p * 2) with (Z.pos p~0) by lia. reflexivity.
Qed.

Lemma bus_value_range (bus : list Z) :
  Forall is_bit bus -> 0 <= bus_value bus < 2 ^ Z.of_nat (length bus).
Proof.
  induction 1 as [|b bus Hb _ IH]; simpl bus_value.
  - simpl. lia.
  - rewrite length_cons, Nat2Z.inj_succ, Z.pow_succ_r by lia.
    destruct Hb as [-> | ->]; lia.
Qed.

Lemma bus_value_snoc (bus : list Z) (x : Z) :
  bus_value (bus ++ [x]) = bus_value bus + 2 ^ Z.of_nat (length bus) * x.
Proof.
  induction bus as [|b bus IH]; simpl bus_value.
  - simpl. lia.
  - rewrite IH, length_cons, Nat2Z.inj_succ, Z.pow_succ_r by lia. lia.
Qed.

(** Folding from the most significant pin down builds the same number. *)
Lemma foldl_bus_value (xs : list Z) (acc : Z) :
  0 <= acc -> Forall is_bit xs ->
  foldl (fun a b => Z.lor (Z.shiftl a 1) b) acc xs
  = bus_value (reverse xs) + 2 ^ Z.of_nat (length xs) * acc.
Proof.
  revert acc. induction xs as [|x xs IH]; intros acc Hacc Hbits; simpl foldl.
  - simpl. lia.
  - apply Forall_cons in Hbits as [Hx Hxs].
    rewrite IH; [|rewrite shift_or_bit by done; destruct Hx as [-> | ->]; lia
                 |exact Hxs].
    rewrite shift_or_bit by done.
    rewrite reverse_cons, bus_value_snoc, length_reverse, length_cons,
      Nat2Z.inj_succ, Z.pow_succ_r by lia.
    lia.
Qed.

Lemma bus_value_testbit (bus : list Z) :
  Forall is_bit bus ->
  forall i : nat,
    Z.testbit (bus_value bus) (Z.of_nat i) = bool_decide (bus !! i = Some 1).
Proof.
  induction 1 as [|b bus Hb _ IH]; intros i.
  - simpl. by rewrite Z.bits_0.
  - destruct i as [|i].
    + simpl bus_value. destruct Hb as [-> | ->].
      * change (0 + 2 * bus_value bus) with (2 * bus_value bus).
        rewrite Z.testbit_even_0. symmetry.
        apply bool_decide_eq_false_2. simpl. congruence.
      * rewrite Z.add_comm. rewrite Z.testbit_odd_0. symmetry.
        by apply bool_decide_eq_true_2.
    + rewrite Nat2Z.inj_succ. simpl bus_value.
      destruct Hb as [-> | ->].
      * change (0 + 2 * bus_value bus) with (2 * bus_value bus).
        rewrite Z.testbit_even_succ by lia. rewrite IH. reflexivity.
      * rewrite Z.add_comm. rewrite Z.testbit_odd_succ by lia.
        rewrite IH. reflexivity.
Qed.

Lemma is_bit_not_sentinel (bus : list Z) : Forall is_bit bus -> 0xFF ∉ bus.
Proof.
  intros H Hin. rewrite Forall_forall in H.
  destruct (H _ Hin) as [E|E]; discriminate E.
Qed.

(** X1. On a non-empty bus whose pins are all at 0 or 1, [reduce_bus]
    returns the number that has the pins as binary digits, the first pin
    being the least significant: it lies in [0, 2^n) for [n] pins, and its
    bit [i] is set exactly when pin [i] is high. *)
Theorem reduce_bus_binary (bus : list Z) :
  Forall is_bit bus -> bus <> [] ->
  reduce_bus bus = Ok (Some (bus_value bus))
  /\ 0 <= bus_value bus < 2 ^ Z.of_nat (length bus)
  /\ forall i : nat,
      Z.testbit (bus_value bus) (Z.of_nat i)
      = bool_decide (bus !! i = Some 1).
Proof.
  intros Hbits Hne. split; [|split].
  - unfold reduce_bus. rewrite decide_False by by apply is_bit_not_sentinel.
    destruct (reverse bus) as [|x xs] eqn:E.
    + apply (f_equal reverse) in E. rewrite reverse_involutive in E. done.
    + apply (f_equal reverse) in E.
      rewrite reverse_involutive, reverse_cons in E. subst bus.
      destruct (proj1 (Forall_app _ _ _) Hbits) as [Hxs Hx].
      apply (proj1 (Forall_singleton _ _)) in Hx.
      apply (proj1 (Forall_reverse _ _)) in Hxs.
      rewrite foldl_bus_value; [|unfold is_bit in Hx; lia|exact Hxs].
      rewrite bus_value_snoc, length_reverse. reflexivity.
  - by apply bus_value_range.
  - by apply bus_value_testbit.
Qed.

Lemma reduce_bus_binary_witness :
  reduce_bus [0; 0; 0; 0; 0; 0; 0; 1] = Ok (Some 128)
  /\ 0 <= 128 < 256.
Proof.
  destruct (reduce_bus_binary [0; 0; 0; 0; 0; 0; 0; 1]) as (H & Hr & _).
  - repeat constructor; (by left) || (by right).
  - done.
  - split; [exact H | exact Hr].
Defined.

(* ===================================================================== *)
(** ** How a transaction is classified when it opens *)
(* ===================================================================== *)

Lemma Cycle_new_buses (sn : samplenum_t) (pins : list Z) (a d : option Z) :
  bus_addr pins = Ok a -> bus_data pins = Ok d ->
  Cycle.new sn pins = Ok (Cycle.mk sn a d UNKNOWN).
Proof.
  unfold bus_addr, bus_data, Cycle.new. by intros -> ->.
Qed.

Lemma buses_total (pins : list Z) :
  length pins = 28%nat ->
  exists a d, bus_addr pins = Ok a /\ bus_data pins = Ok d.
Proof.
  intros Hlen.
  destruct (Cycle_new_total None pins Hlen) as (a & d & Ha & Hd & _).
  by exists a, d.
Qed.

(** What [Read.__post_init__] and [init_rom] leave in a fresh Read, by
    the window its address falls in. *)
Lemma Read_new_by_window (lookups : Lookups.t) (sn : samplenum_t)
    (pins : list Z) (bank a : Z) (d : option Z) :
  bus_addr pins = Ok (Some a) -> bus_data pins = Ok d ->
  exists r c0,
    Read.new sn pins bank lookups = Ok r
    /\ Read.cycles r = [c0]
    /\ Cycle.addr c0 = Some a /\ Cycle.data c0 = d
    /\ (in_rom_window a = false ->
        Read.mode r = None /\ Read.symbol r = None
        /\ Read.instruction r = None /\ Read.state r = COMPLETE
        /\ Read.cycle_count r = 0)
    /\ (Addr.ROM0_START <= a <= Addr.ROM0_END ->
        Read.mode r = Some READ_ROM0
        /\ Read.symbol r = Lookups.find_symbol lookups c0 0)
    /\ (Addr.ROMX_START <= a <= Addr.ROMX_END ->
        Read.mode r = Some READ_ROMX
        /\ Read.symbol r = Lookups.find_symbol lookups c0 bank)
    /\ (in_rom_window a = true ->
        Read.cycle_count r = 1
        /\ Read.instruction r
           = (d ≫= fun d => Lookups.instructions lookups !! d)
        /\ (Read.state r = INCOMPLETE
            <-> exists inst,
                Read.instruction r = Some inst
                /\ Instruction.length inst <> 1)).
Proof.
  intros Ha Hd.
  destruct (in_rom_window a) eqn:Hwin.
  - assert (exists m b,
               Read.new sn pins bank lookups
               = Ok (opened_in_rom lookups sn a d m b)
               /\ (Addr.ROM0_START <= a <= Addr.ROM0_END ->
                   m = READ_ROM0 /\ b = 0)
               /\ (Addr.ROMX_START <= a <= Addr.ROMX_END ->
                   m = READ_ROMX /\ b = bank))
      as (m & b & Hnew & H0 & HX).
    { unfold Read.new. rewrite (Cycle_new_buses sn pins _ _ Ha Hd). simpl.
      unfold in_rom_window in Hwin.
      destruct ((Addr.ROM0_START <=? a) && (a <=? Addr.ROM0_END)) eqn:E0.
      - exists READ_ROM0, 0. split.
        + unfold Read.init_rom, opened_in_rom, opened_cycle,
            Lookups.find_symbol. simpl.
          by destruct (d ≫= _).
        + split; [done|]. apply andb_prop in E0 as [_ E0].
          apply Z.leb_le in E0.
          unfold Addr.ROM0_END, Addr.ROMX_START in *. lia.
      - simpl in Hwin. rewrite Hwin. exists READ_ROMX, bank. split.
        + unfold Read.init_rom, opened_in_rom, opened_cycle,
            Lookups.find_symbol. simpl.
          by destruct (d ≫= _).
        + split; [|done]. intros [H1 H2].
          apply Z.leb_le in H1, H2. by rewrite H1, H2 in E0. }
    exists (opened_in_rom lookups sn a d m b), (opened_cycle lookups sn a d).
    split; [exact Hnew|]. split; [reflexivity|].
    split; [unfold opened_cycle; by destruct (d ≫= _)|].
    split; [unfold opened_cycle; by destruct (d ≫= _)|].
    split; [done|].
    split; [intros Hw; destruct (H0 Hw) as [-> ->]; by split|].
    split; [intros Hw; destruct (HX Hw) as [-> ->]; by split|].
    intros _. split; [reflexivity|]. split; [reflexivity|].
    unfold opened_in_rom. simpl.
    destruct (d ≫= fun d => Lookups.instructions lookups !! d) as [i|].
    + destruct (Z.eqb_spec (Instruction.length i) 1) as [E|E]; split.
      * discriminate.
      * intros (i' & [= <-] & Hne). done.
      * eauto.
      * done.
    + split; [discriminate|]. intros (i' & Hsome & _). discriminate Hsome.
  - exists (Read.mk sn [Cycle.mk sn (Some a) d UNKNOWN] None None None None
              COMPLETE None 0), (Cycle.mk sn (Some a) d UNKNOWN).
    assert (Read.new sn pins bank lookups
            = Ok (Read.mk sn [Cycle.mk sn (Some a) d UNKNOWN] None None None
                    None COMPLETE None 0)) as Hnew.
    { unfold Read.new. rewrite (Cycle_new_buses sn pins _ _ Ha Hd). simpl.
      unfold in_rom_window in Hwin.
      apply orb_false_elim in Hwin as [-> ->]. reflexivity. }
    split; [exact Hnew|]. split; [reflexivity|]. split; [reflexivity|].
    split; [reflexivity|]. split; [by intros _|].
    unfold in_rom_window in Hwin. apply orb_false_elim in Hwin as [E0 EX].
    split; [|split; [|discriminate]].
    + intros [H1 H2]. apply Z.leb_le in H1, H2. by rewrite H1, H2 in E0.
    + intros [H1 H2]. apply Z.leb_le in H1, H2. by rewrite H1, H2 in EX.
Qed.

(** X2. A Read that opens at an address outside [0x0150, 0x7FFF] is
    complete at once with one recorded cycle, and has no mode, no symbol
    and no instruction, whatever the symbol table and the opcode table
    hold for it; its [cycle_count] stays 0.  A Read that opens inside
    [0x0150, 0x3FFF] is in mode [READ_ROM0] and takes its symbol from bank
    0, whatever the bank it is given; inside [0x4000, 0x7FFF] it is in
    mode [READ_ROMX] and takes it from that bank.  Inside either window
    [cycle_count] is 1 and the instruction is what the table has for the
    data byte. *)
Theorem read_opens_by_window (lookups : Lookups.t) (sn : samplenum_t)
    (pins : list Z) (bank a : Z) (d : option Z) :
  bus_addr pins = Ok (Some a) -> bus_data pins = Ok d ->
  exists r c0,
    Read.new sn pins bank lookups = Ok r
    /\ Read.cycles r = [c0]
    /\ Cycle.addr c0 = Some a /\ Cycle.data c0 = d
    /\ (in_rom_window a = false ->
        Read.mode r = None /\ Read.symbol r = None
        /\ Read.instruction r = None /\ Read.state r = COMPLETE
        /\ Read.cycle_count r = 0)
    /\ (Addr.ROM0_START <= a <= Addr.ROM0_END ->
        Read.mode r = Some READ_ROM0
        /\ Read.symbol r = Lookups.find_symbol lookups c0 0)
    /\ (Addr.ROMX_START <= a <= Addr.ROMX_END ->
        Read.mode r = Some READ_ROMX
        /\ Read.symbol r = Lookups.find_symbol lookups c0 bank)
    /\ (in_rom_window a = true ->
        Read.cycle_count r = 1
        /\ Read.instruction r
           = (d ≫= fun d => Lookups.instructions lookups !! d)
        /\ (Read.state r = INCOMPLETE
            <-> exists inst,
                Read.instruction r = Some inst
                /\ Instruction.length inst <> 1)).
Proof. exact (Read_new_by_window lookups sn pins bank a d). Qed.

Lemma read_opens_by_window_witness :
  exists r,
    Read.new (Some 1) (pins_of 0x0100 0xcd) 0x03
      (lookups_of {[ 0x0100 := {[ 0x03 := "Header" ]} ]}) = Ok r
    /\ Read.symbol r = None /\ Read.instruction r = None
    /\ Read.state r = COMPLETE /\ Read.cycle_count r = 0
    /\ length (Read.cycles r) = 1%nat.
Proof.
  destruct (read_opens_by_window
              (lookups_of {[ 0x0100 := {[ 0x03 := "Header" ]} ]})
              (Some 1) (pins_of 0x0100 0xcd) 0x03 0x0100 (Some 0xcd)
              eq_refl eq_refl)
    as (r & c0 & Hr & Hcy & _ & _ & Hout & _).
  destruct (Hout eq_refl) as (_ & Hsym & Hi & Hst & Hcount).
  exists r. rewrite Hcy. by repeat split.
Defined.

Lemma hardware_const_sram_bank (symbols : gmap Z (gmap Z string)) :
  Lookups.hardware_const (lookups_of symbols) !! 0x4000
  = Some (HardwareConstant.mk "MBC3SRamBank" 0x4000 ∅).
Proof. vm_compute. reflexivity. Qed.

Lemma hardware_const_dom (symbols : gmap Z (gmap Z string)) (a : Z) :
  is_Some (Lookups.hardware_const (lookups_of symbols) !! a)
  <-> a ∈ [0x0000; 0x2000; 0x4000; 0x6000; 0xa000].
Proof.
  split.
  - intros [hc Hhc]. apply dict_by_lookup in Hhc as [Hin <-].
    unfold hardware_const_table in Hin.
    repeat (apply elem_of_cons in Hin as [->|Hin];
            [simpl;
             repeat first [apply list_elem_of_here
                          |apply list_elem_of_further]|]).
    by apply elem_of_nil in Hin.
  - intros Hin.
    repeat (apply elem_of_cons in Hin as [->|Hin];
            [vm_compute; eauto|]).
    by apply elem_of_nil in Hin.
Qed.

(** What [Write.__post_init__] leaves in a fresh Write, by its address. *)
Lemma Write_new_by_address (symbols : gmap Z (gmap Z string))
    (sn : samplenum_t) (pins : list Z) (bank a : Z) (d : option Z) :
  bus_addr pins = Ok (Some a) -> bus_data pins = Ok d ->
  exists w,
    Write.new sn pins bank (lookups_of symbols) = Ok w
    /\ Cycle.addr (Write.cycle w) = Some a
    /\ Cycle.data (Write.cycle w) = d
    /\ Write.start_sample w = sn
    /\ (in_sram_window a = true ->
        Write.mode w = Some WRITE_SRAM
        /\ Write.symbol w
           = Lookups.find_symbol (lookups_of symbols) (Write.cycle w) bank)
    /\ (in_sram_window a = false ->
        Write.mode w = None /\ Write.symbol w = None)
    /\ (is_Some (Write.hardware_const w)
        <-> a ∈ [0x0000; 0x2000; 0x4000; 0x6000; 0xa000])
    /\ Write.is_rom_bank_switch w = (a =? 0x2000)
    /\ Write.is_sram_bank_switch w = (a =? 0x4000).
Proof.
  intros Ha Hd. unfold Write.new.
  rewrite (Cycle_new_buses sn pins _ _ Ha Hd). simpl.
  eexists. split; [reflexivity|]. cbn [Write.cycle Write.mode Write.symbol
    Write.hardware_const Write.start_sample].
  unfold in_sram_window.
  split; [by destruct ((Addr.SRAM_START <=? a) && (a <=? Addr.SRAM_END))|].
  split; [by destruct ((Addr.SRAM_START <=? a) && (a <=? Addr.SRAM_END))|].
  split; [reflexivity|].
  split; [by intros ->|]. split; [by intros ->|].
  split; [apply (hardware_const_dom symbols)|].
  unfold Write.is_rom_bank_switch, Write.is_sram_bank_switch.
  cbn [Write.hardware_const].
  change (dict_by HardwareConstant.addr hardware_const_table)
    with (Lookups.hardware_const (lookups_of symbols)).
  split.
  - destruct (Z.eqb_spec a 0x2000) as [->|Hne].
    + by rewrite hardware_const_rom_bank.
    + destruct (Lookups.hardware_const (lookups_of symbols) !! a)
        as [hc|] eqn:Hhc; [|done].
      apply hardware_const_lookup in Hhc. rewrite Hhc. by apply Z.eqb_neq.
  - destruct (Z.eqb_spec a 0x4000) as [->|Hne].
    + by rewrite hardware_const_sram_bank.
    + destruct (Lookups.hardware_const (lookups_of symbols) !! a)
        as [hc|] eqn:Hhc; [|done].
      apply hardware_const_lookup in Hhc. rewrite Hhc. by apply Z.eqb_neq.
Qed.

(** The names of the values of a register, as the dict built from its
    [data_list] holds them. *)
Lemma hardware_const_value_name (symbols : gmap Z (gmap Z string))
    (a x : Z) :
  HardwareConstantData.ann
    <$> (Lookups.hardware_const (lookups_of symbols) !! a
         ≫= fun hc : HardwareConstant.t => HardwareConstant.data hc !! x)
  = register_value_name a x.
Proof.
  assert (forall (k1 k2 : Z) (n1 n2 : string),
            k1 <> k2 ->
            HardwareConstantData.ann
              <$> (<[k2 := HardwareConstantData.mk n2 k2]>
                     (<[k1 := HardwareConstantData.mk n1 k1]>
                        (∅ : gmap Z HardwareConstantData.t)) !! x)
            = if x =? k1 then Some n1
              else if x =? k2 then Some n2 else None) as Htwo.
  { intros k1 k2 n1 n2 Hne.
    destruct (Z.eqb_spec x k1) as [->|H1].
    - by rewrite lookup_insert_ne, lookup_insert_eq.
    - destruct (Z.eqb_spec x k2) as [->|H2].
      + by rewrite lookup_insert_eq.
      + by rewrite !lookup_insert_ne, lookup_empty. }
  destruct (Lookups.hardware_const (lookups_of symbols) !! a)
    as [hc|] eqn:Hhc.
  - apply dict_by_lookup in Hhc as [Hin <-].
    unfold hardware_const_table in Hin.
    repeat (apply elem_of_cons in Hin as [->|Hin];
            [first [by apply (Htwo 0x0a 0x00)
                   |by apply (Htwo 0x01 0x00)
                   |simpl; by rewrite lookup_empty]|]).
    by apply elem_of_nil in Hin.
  - unfold register_value_name.
    destruct (Z.eqb_spec a 0x0000) as [->|_];
      [vm_compute in Hhc; discriminate Hhc|].
    destruct (Z.eqb_spec a 0x6000) as [->|_];
      [vm_compute in Hhc; discriminate Hhc|].
    reflexivity.
Qed.

(** X3. A Write opens on every edge whose address bus is driven.  It is
    in mode [WRITE_SRAM], with the symbol of its address in the bank it
    is given, exactly when the address is in [0xA000, 0xBFFF], and has no
    mode and no symbol otherwise.  It carries a hardware constant exactly
    at the addresses [0x0000], [0x2000], [0x4000], [0x6000] and [0xA000];
    it is a ROM bank switch exactly at [0x2000] and an SRAM bank switch
    exactly at [0x4000], hence never both.  Its hardware constant names
    the values [0x0A] and [0x00] at [0x0000] and the values [0x01] and
    [0x00] at [0x6000], and no other value at any address; the name of
    the value written is what [get_ann_hardware_const_data] returns. *)
Theorem write_opens_by_address (symbols : gmap Z (gmap Z string))
    (sn : samplenum_t) (pins : list Z) (bank a : Z) (d : option Z) :
  bus_addr pins = Ok (Some a) -> bus_data pins = Ok d ->
  exists w,
    Write.new sn pins bank (lookups_of symbols) = Ok w
    /\ Cycle.addr (Write.cycle w) = Some a
    /\ Cycle.data (Write.cycle w) = d
    /\ Write.start_sample w = sn
    /\ (in_sram_window a = true ->
        Write.mode w = Some WRITE_SRAM
        /\ Write.symbol w
           = Lookups.find_symbol (lookups_of symbols) (Write.cycle w) bank)
    /\ (in_sram_window a = false ->
        Write.mode w = None /\ Write.symbol w = None)
    /\ (is_Some (Write.hardware_const w)
        <-> a ∈ [0x0000; 0x2000; 0x4000; 0x6000; 0xa000])
    /\ Write.is_rom_bank_switch w = (a =? 0x2000)
    /\ Write.is_sram_bank_switch w = (a =? 0x4000)
    /\ (forall x,
          HardwareConstantData.ann
            <$> (Write.hardware_const w
                 ≫= fun hc : HardwareConstant.t =>
                      HardwareConstant.data hc !! x)
          = register_value_name a x)
    /\ (forall x name,
          d = Some x -> register_value_name a x = Some name ->
          Write.get_ann_hardware_const_data w = Ok name).
Proof.
  intros Ha Hd.
  destruct (Write_new_by_address symbols sn pins bank a d Ha Hd)
    as (w & Hw & Hrest).
  exists w. split; [exact Hw|].
  assert (Write.hardware_const w
          = Lookups.hardware_const (lookups_of symbols) !! a) as Hhc.
  { unfold Write.new in Hw.
    rewrite (Cycle_new_buses sn pins _ _ Ha Hd) in Hw. simpl in Hw.
    by injection Hw as <-. }
  destruct Hrest as (H1 & H2 & H3 & H4 & H5 & H6 & H7 & H8).
  repeat (split; [assumption|]). split.
  - intros x. rewrite Hhc. apply hardware_const_value_name.
  - intros x name -> Hname.
    pose proof (hardware_const_value_name symbols a x) as Hv.
    rewrite <- Hhc, Hname in Hv.
    unfold Write.get_ann_hardware_const_data. rewrite H2. simpl.
    destruct (Write.hardware_const w) as [hc|]; [|discriminate Hv].
    simpl in Hv. destruct (HardwareConstant.data hc !! x) as [item|];
      [|discriminate Hv].
    simpl in Hv. by injection Hv as ->.
Qed.

(** A write into the cartridge RAM with a symbol; a write of [0x0A] to
    the register at [0x0000]. *)
Lemma write_opens_by_address_witness :
  (exists w,
     Write.new (Some 1) (pins_of 0xA000 0x01) 0x02
       (lookups_of {[ 0xA000 := {[ 0x02 := "sScratch" ]} ]}) = Ok w
     /\ Write.mode w = Some WRITE_SRAM
     /\ Write.symbol w = Some "sScratch"
     /\ is_Some (Write.hardware_const w))
  /\ (exists w,
        Write.new (Some 1) (pins_of 0x0000 0x0a) 0x00 (lookups_of ∅) = Ok w
        /\ Write.get_ann_hardware_const_data w = Ok "SRAM_ENABLE").
Proof.
  split.
  - destruct (write_opens_by_address
                {[ 0xA000 := {[ 0x02 := "sScratch" ]} ]}
                (Some 1) (pins_of 0xA000 0x01) 0x02 0xA000 (Some 0x01)
                eq_refl eq_refl)
      as (w & Hw & Ha & _ & _ & Hin & _ & Hhc & _).
    destruct (Hin eq_refl) as [Hmode Hsym].
    exists w. split; [exact Hw|]. split; [exact Hmode|]. split.
    + rewrite Hsym. unfold Lookups.find_symbol. rewrite Ha. reflexivity.
    + apply Hhc. do 4 apply list_elem_of_further. apply list_elem_of_here.
  - destruct (write_opens_by_address ∅ (Some 1) (pins_of 0x0000 0x0a)
                0x00 0x0000 (Some 0x0a) eq_refl eq_refl)
      as (w & Hw & _ & _ & _ & _ & _ & _ & _ & _ & _ & Hname).
    exists w. split; [exact Hw|]. by apply (Hname 0x0a).
Defined.

(* ===================================================================== *)
(** ** The SRAM bank in use *)
(* ===================================================================== *)

Lemma Write_new_characterized (symbols : gmap Z (gmap Z string))
    (sn : samplenum_t) (pins : list Z) (bank : Z) (w : Write.t) :
  Write.new sn pins bank (lookups_of symbols) = Ok w ->
  exists a,
    bus_addr pins = Ok (Some a)
    /\ bus_data pins = Ok (Cycle.data (Write.cycle w))
    /\ Cycle.addr (Write.cycle w) = Some a
    /\ Write.is_rom_bank_switch w = (a =? 0x2000)
    /\ Write.is_sram_bank_switch w = (a =? 0x4000)
    /\ Sram_write_inv (lookups_of symbols) bank w.
Proof.
  intros H.
  destruct (Write_new_spec symbols sn pins bank w H) as (a & Ha & Hd & _).
  destruct (Write_new_by_address symbols sn pins bank a _ Ha Hd)
    as (w' & Hw' & Haddr & _ & _ & Hin & _ & _ & Hrom & Hsram).
  rewrite H in Hw'. injection Hw' as <-.
  exists a. repeat (split; [done|]).
  intros a' Ha' Hwin. rewrite Haddr in Ha'. injection Ha' as <-.
  by apply Hin.
Qed.

Lemma sram_bank_same_context (s s' : Decoder.t) :
  same_context s s' -> Decoder.sram_bank s' = Decoder.sram_bank s.
Proof. intros (_ & _ & H). unfold Decoder.sram_bank. by rewrite H. Qed.

(** What [write] does to the two banks. *)
Lemma write_banks (symbols : gmap Z (gmap Z string)) (s s' : Decoder.t)
    (pins : list Z) :
  Decoder.write (lookups_of symbols) s pins = Ok s' ->
  exists w a,
    Write.new (Decoder.samplenum s) pins (Decoder.sram_bank s)
      (lookups_of symbols) = Ok w
    /\ Decoder.prev_write s' = Some w
    /\ bus_addr pins = Ok (Some a)
    /\ (a = 0x2000 ->
        bus_data pins = Ok (Some (Decoder.rom_bank s'))
        /\ Decoder.sram_bank s' = Decoder.sram_bank s)
    /\ (a = 0x4000 ->
        bus_data pins = Ok (Some (Decoder.sram_bank s'))
        /\ Decoder.rom_bank s' = Decoder.rom_bank s)
    /\ (a <> 0x2000 -> a <> 0x4000 ->
        Decoder.rom_bank s' = Decoder.rom_bank s
        /\ Decoder.sram_bank s' = Decoder.sram_bank s).
Proof.
  unfold Decoder.write. intros H.
  apply bind_Ok_inv in H as (s1 & H1 & H).
  assert (Decoder.prev_read s1 = Decoder.prev_read s /\ same_context s s1)
    as (Hr1 & Hctx).
  { destruct (Decoder.prev_write s).
    - by apply end_write_frame in H1 as (_ & ? & _ & ?).
    - apply mret_Ok_inv in H1. subst s1. by repeat split. }
  pose proof (rom_bank_same_context _ _ Hctx) as Hrom1.
  pose proof (sram_bank_same_context _ _ Hctx) as Hsram1.
  destruct Hctx as (Hsn & _ & _).
  apply bind_Ok_inv in H as (w & Hw & H).
  rewrite Hsn, Hsram1 in Hw.
  destruct (Write_new_characterized _ _ _ _ _ Hw)
    as (a & Ha & Hd & _ & Hisrom & Hissram & _).
  exists w, a. split; [exact Hw|].
  rewrite Hisrom, Hissram in H.
  destruct (Z.eqb_spec a 0x2000) as [E2|Hne2].
  - apply switch_rom_spec in H as (_ & Hpw & _ & Hsr & Hdata).
    split; [exact Hpw|]. split; [exact Ha|].
    split; [|split; [intros E4; rewrite E4 in E2; discriminate E2 | done]].
    intros _. split; [by rewrite Hd, Hdata|].
    unfold Decoder.sram_bank in *. rewrite Hsr. simpl. exact Hsram1.
  - destruct (Z.eqb_spec a 0x4000) as [E4|Hne4].
    + apply switch_sram_spec in H as (_ & Hpw & _ & Hro & Hdata).
      split; [exact Hpw|]. split; [exact Ha|].
      split; [done|]. split; [|done].
      intros _. split; [by rewrite Hd, Hdata|].
      unfold Decoder.rom_bank in *. rewrite Hro. simpl. exact Hrom1.
    + apply mret_Ok_inv in H. subst s'.
      split; [reflexivity|]. split; [exact Ha|].
      split; [done|]. split; [done|]. intros _ _. by split.
Qed.

Lemma decode_iter_sram (symbols : gmap Z (gmap Z string)) (d : Z)
    (s s' : Decoder.t) (ev : event) :
  ~ writes_sram_bank ev ->
  Sram_inv (lookups_of symbols) d s ->
  Decoder.decode_iter (lookups_of symbols) s ev = Ok s' ->
  Sram_inv (lookups_of symbols) d s'.
Proof.
  intros Hev [Hbank Hinv] H.
  apply decode_iter_Ok in H as (_ & [H|[H|H]]).
  - destruct H as (_ & s1 & H1 & H2).
    apply end_write_frame in H1 as (Hw1 & _ & _ & Hctx1).
    apply sram_bank_same_context in Hctx1.
    apply read_spec in H2 as (Hw2 & Hctx2 & _).
    apply sram_bank_same_context in Hctx2.
    split; [rewrite Hctx2, Hctx1; exact Hbank|].
    intros w Hw. congruence.
  - destruct H as (Hm & s1 & H1 & H2).
    apply end_read_frame in H1 as (_ & _ & Hctx1).
    apply sram_bank_same_context in Hctx1.
    change (Decoder.sram_bank s1 = Decoder.sram_bank s) in Hctx1.
    apply write_banks in H2
      as (w & a & Hw & Hpw & Ha & H2000 & H4000 & Hother).
    assert (a <> 0x4000) as Hne.
    { intros ->. apply Hev. by split. }
    assert (Decoder.sram_bank s' = d) as Hd.
    { destruct (Z.eq_dec a 0x2000) as [E|E].
      - destruct (H2000 E) as [_ ->]. congruence.
      - destruct (Hother E Hne) as [_ ->]. congruence. }
    split; [exact Hd|].
    intros w' Hw'. rewrite Hpw in Hw'. injection Hw' as <-.
    apply Write_new_characterized in Hw as (_ & _ & _ & _ & _ & _ & Hsw).
    rewrite Hctx1, Hbank in Hsw. exact Hsw.
  - destruct H as (_ & _ & ->). by split.
Qed.

Lemma decode_sram (symbols : gmap Z (gmap Z string)) (d : Z)
    (evs : list event) :
  forall s s',
    Forall (fun ev => ~ writes_sram_bank ev) evs ->
    Sram_inv (lookups_of symbols) d s ->
    Decoder.decode (lookups_of symbols) s evs = Ok s' ->
    Sram_inv (lookups_of symbols) d s'.
Proof.
  induction evs as [|ev evs IH]; intros s s' Hall Hinv H; simpl in H.
  - injection H as <-. exact Hinv.
  - apply bind_Ok_inv in H as (s1 & H1 & H).
    destruct (proj1 (Forall_cons _ _ _) Hall) as [Hev Hall'].
    eapply IH; [exact Hall'| |exact H]. by eapply decode_iter_sram.
Qed.

(** X5. A write-start edge at the address [0x4000] with the data byte
    [d] is processed without exception when no transaction is open; once
    processed, the active SRAM bank is [d] and the active ROM bank is
    what it was.  From then on, as long as no other write-start edge at
    [0x4000] arrives, the SRAM bank stays [d]: it is the bank
    [end_read] hands to the finalization of a Read, and every open Write
    whose address is in [0xA000, 0xBFFF] is in mode [WRITE_SRAM] with the
    symbol of its address in bank [d]. *)
Theorem sram_bank_select (symbols : gmap Z (gmap Z string))
    (s : Decoder.t) (ev : event) (d : Z) :
  writes_sram_bank ev ->
  bus_data (ev_pins ev) = Ok (Some d) ->
  (length (ev_pins ev) = 28%nat ->
   Decoder.prev_read s = None -> Decoder.prev_write s = None ->
   exists s1, Decoder.decode_iter (lookups_of symbols) s ev = Ok s1)
  /\ forall s1,
      Decoder.decode_iter (lookups_of symbols) s ev = Ok s1 ->
      Decoder.sram_bank s1 = d
      /\ Decoder.rom_bank s1 = Decoder.rom_bank s
      /\ forall evs s2,
          Forall (fun ev' => ~ writes_sram_bank ev') evs ->
          Decoder.decode (lookups_of symbols) s1 evs = Ok s2 ->
          Decoder.sram_bank s2 = d
          /\ forall w a,
              Decoder.prev_write s2 = Some w ->
              Cycle.addr (Write.cycle w) = Some a ->
              in_sram_window a = true ->
              Write.mode w = Some WRITE_SRAM
              /\ Write.symbol w
                 = Lookups.find_symbol (lookups_of symbols)
                     (Write.cycle w) d.
Proof.
  intros [Hm Haddr] Hdata. split.
  - intros Hlen Hr Hw. rewrite decode_iter_write by done.
    unfold Decoder.end_read. cbn [Decoder.prev_read Decoder.set_samplenum].
    rewrite Hr. simpl.
    unfold Decoder.write.
    cbn [Decoder.prev_write Decoder.set_samplenum]. rewrite Hw. simpl.
    unfold Write.new. rewrite (Cycle_new_buses _ _ _ _ Haddr Hdata). simpl.
    pose proof (hardware_const_sram_bank symbols) as Hhc. simpl in Hhc.
    rewrite Hhc. simpl.
    unfold Decoder.switch_sram. simpl. eauto.
  - intros s1 H1.
    apply decode_iter_Ok in H1 as (_ & [H|[H|H]]).
    + destruct H as (Hm' & _). rewrite Hm in Hm'. discriminate Hm'.
    + destruct H as (_ & s0 & H0 & H2).
      apply end_read_frame in H0 as (_ & _ & Hctx0).
      pose proof (rom_bank_same_context _ _ Hctx0) as Hrom0.
      apply write_banks in H2
        as (w & a & Hw & Hpw & Ha & _ & H4000 & _).
      rewrite Haddr in Ha. injection Ha as <-.
      destruct (H4000 eq_refl) as [Hd Hrom].
      rewrite Hdata in Hd. injection Hd as Hd.
      assert (Sram_inv (lookups_of symbols) d s1) as Hinv.
      { split; [done|]. intros w' Hw'. rewrite Hpw in Hw'.
        injection Hw' as <-.
        apply Write_new_characterized in Hw
          as (a & Ha & _ & Haw & _ & _ & _).
        rewrite Haddr in Ha. injection Ha as <-.
        intros a' Ha' Hwin. rewrite Haw in Ha'. injection Ha' as <-.
        discriminate Hwin. }
      split; [done|]. split; [by rewrite Hrom, Hrom0|].
      intros evs s2 Hall H2.
      destruct (decode_sram symbols d evs s1 s2 Hall Hinv H2) as [Hb Hws].
      split; [exact Hb|]. intros w' a' Hw' Ha' Hwin.
      by apply (Hws w' Hw' a').
    + destruct H as (_ & Hm' & _). contradiction.
Qed.

(** A write of [0x02] to [0x4000], then a write into the cartridge RAM:
    its symbol is the one of bank [0x02]. *)
Lemma sram_bank_select_witness :
  match Decoder.decode (lookups_of {[ 0xA000 := {[ 0x02 := "sScratch" ]} ]})
          Decoder.start
          [write_start 1 0x4000 0x02; write_start 2 0xA000 0x01] with
  | Ok s =>
      Decoder.sram_bank s = 0x02
      /\ exists w, Decoder.prev_write s = Some w
                   /\ Write.symbol w = Some "sScratch"
  | Raise _ => False
  end.
Proof.
  pose proof (sram_bank_select {[ 0xA000 := {[ 0x02 := "sScratch" ]} ]}
                Decoder.start (write_start 1 0x4000 0x02) 0x02
                (conj eq_refl eq_refl) eq_refl) as [Hex Hspec].
  destruct (Hex eq_refl eq_refl eq_refl) as [s1 H1].
  destruct (Hspec s1 H1) as (_ & _ & Hlater).
  simpl. rewrite H1. simpl.
  destruct (Decoder.decode_iter _ s1 (write_start 2 0xA000 0x01))
    as [s2|e] eqn:H2.
  - destruct (Hlater [write_start 2 0xA000 0x01] s2) as [Hb Hw].
    + constructor; [|constructor]. intros [_ Ha]. discriminate Ha.
    + simpl. by rewrite H2.
    + split; [exact Hb|].
      vm_compute in H1. injection H1 as <-.
      vm_compute in H2. injection H2 as <-.
      destruct (Hw _ 0xA000 eq_refl eq_refl eq_refl) as [_ Hsym].
      eexists. split; [reflexivity|]. rewrite Hsym. reflexivity.
  - vm_compute in H1. injection H1 as <-.
    vm_compute in H2. discriminate H2.
Defined.

(* ===================================================================== *)
(** ** The operand of a finalized Read *)
(* ===================================================================== *)

(** Once a write to [0x4000] has been processed, the SRAM bank is the
    byte written. *)
Lemma decode_iter_sram_switch (symbols : gmap Z (gmap Z string))
    (s s1 : Decoder.t) (ev : event) (d : Z) :
  writes_sram_bank ev ->
  bus_data (ev_pins ev) = Ok (Some d) ->
  Decoder.decode_iter (lookups_of symbols) s ev = Ok s1 ->
  Sram_inv (lookups_of symbols) d s1.
Proof.
  intros [Hm Haddr] Hdata H1.
  apply decode_iter_Ok in H1 as (_ & [H|[H|H]]).
  - destruct H as (Hm' & _). rewrite Hm in Hm'. discriminate Hm'.
  - destruct H as (_ & s0 & _ & H2).
    apply write_banks in H2 as (w & a & Hw & Hpw & Ha & _ & H4000 & _).
    rewrite Haddr in Ha. injection Ha as <-.
    destruct (H4000 eq_refl) as [Hd _].
    rewrite Hdata in Hd. injection Hd as Hd.
    split; [done|]. intros w' Hw'. rewrite Hpw in Hw'.
    injection Hw' as <-.
    apply Write_new_characterized in Hw as (a & Ha & _ & Haw & _ & _ & _).
    rewrite Haddr in Ha. injection Ha as <-.
    intros a' Ha' Hwin. rewrite Haw in Ha'. injection Ha' as <-.
    discriminate Hwin.
  - destruct H as (_ & Hm' & _). contradiction.
Qed.

(** C4. For a Read of one of the opcodes [0x21], [0xc2], [0xc3], [0xca],
    [0xcd], [0xea] whose second and third cycles carry the data bytes [lo]
    and [hi], finalization succeeds, and with [addr = (hi << 8) + lo]
    (which is the 16-bit value [(hi << 8) | lo] for two bytes) the
    annotation of the instruction becomes ["<mnemonic> (<symbol>)"] when
    the symbol table has a symbol for [addr] in the bank it is given, and
    is the bare mnemonic otherwise.  [Decoder.end_read] gives it the
    current SRAM bank: the byte of the last write to [0x4000] that was
    decoded, and [0x00] when a capture decoded from [start] has had
    none. *)
Theorem operand_annotation (lookups : Lookups.t) (r : Read.t)
    (end_sample : samplenum_t) (bank : Z) (inst : Instruction.t)
    (c1 c2 : Cycle.t) (lo hi : Z) :
  Read.instruction r = Some inst ->
  Instruction.opcode inst ∈ Read.operand_opcodes ->
  Read.special_ann r = None ->
  Read.cycles r !! 1%nat = Some c1 -> Cycle.data c1 = Some lo ->
  Read.cycles r !! 2%nat = Some c2 -> Cycle.data c2 = Some hi ->
  let addr := Z.shiftl hi 8 + lo in
  exists r',
    Read.end_ lookups r end_sample bank = Ok r'
    /\ Read.end_sample r' = Some end_sample
    /\ Read.get_instruction_ann r'
       = Ok (match Lookups.symbols lookups !! addr
                   ≫= fun banks : gmap Z string => banks !! bank with
             | Some name => Instruction.ann inst +:+ " (" +:+ name +:+ ")"
             | None => Instruction.ann inst
             end)
    /\ (0 <= lo < 256 -> 0 <= hi < 256 ->
        0 <= addr < 65536 /\ addr = Z.lor (Z.shiftl hi 8) lo)
    /\ (forall s : Decoder.t,
          Decoder.prev_read s = Some r ->
          end_sample = Decoder.samplenum s ->
          bank = Decoder.sram_bank s ->
          Decoder.end_read lookups s
          = Decoder.check_player_step
              (Decoder.set_prev_read (Some r') s) r'
            ≫= fun s' => mret (Decoder.set_prev_read None s'))
    /\ (forall (symbols : gmap Z (gmap Z string)) (s0 s1 s2 : Decoder.t)
               (ev : event) (evs : list event),
          lookups = lookups_of symbols ->
          writes_sram_bank ev ->
          bus_data (ev_pins ev) = Ok (Some bank) ->
          Decoder.decode_iter lookups s0 ev = Ok s1 ->
          Forall (fun ev' => ~ writes_sram_bank ev') evs ->
          Decoder.decode lookups s1 evs = Ok s2 ->
          Decoder.prev_read s2 = Some r ->
          Decoder.end_read lookups (Decoder.set_samplenum end_sample s2)
          = Decoder.check_player_step
              (Decoder.set_prev_read (Some r')
                 (Decoder.set_samplenum end_sample s2)) r'
            ≫= fun s' => mret (Decoder.set_prev_read None s'))
    /\ (forall (symbols : gmap Z (gmap Z string)) (s2 : Decoder.t)
               (evs : list event),
          lookups = lookups_of symbols ->
          bank = 0x00 ->
          Forall (fun ev' => ~ writes_sram_bank ev') evs ->
          Decoder.decode lookups Decoder.start evs = Ok s2 ->
          Decoder.prev_read s2 = Some r ->
          Decoder.end_read lookups (Decoder.set_samplenum end_sample s2)
          = Decoder.check_player_step
              (Decoder.set_prev_read (Some r')
                 (Decoder.set_samplenum end_sample s2)) r'
            ≫= fun s' => mret (Decoder.set_prev_read None s')).
Proof.
  intros Hinst Hop Hsp H1 Hlo H2 Hhi addr.
  assert (Hend : exists r', Read.end_ lookups r end_sample bank = Ok r'
     /\ Read.end_sample r' = Some end_sample
     /\ Read.instruction r' = Some inst
     /\ Read.special_ann r'
        = match Lookups.symbols lookups !! addr
                   ≫= fun banks : gmap Z string => banks !! bank with
          | Some name =>
              Some (Instruction.ann inst +:+ " (" +:+ name +:+ ")")
          | None => None
          end).
  { unfold Read.end_. rewrite Hinst. rewrite decide_True by done.
    apply getitem_Ok in H1, H2. rewrite H2. simpl. rewrite Hhi. simpl.
    rewrite H1. simpl. rewrite Hlo. simpl. fold addr.
    destruct (Lookups.symbols lookups !! addr
                   ≫= fun banks : gmap Z string => banks !! bank) as [name|];
      eexists; (split; [reflexivity|]); simpl; auto. }
  destruct Hend as (r' & Hr' & He & Hi & Hs).
  assert (forall s2 : Decoder.t,
            Decoder.prev_read s2 = Some r ->
            Decoder.sram_bank s2 = bank ->
            Decoder.end_read lookups (Decoder.set_samplenum end_sample s2)
            = Decoder.check_player_step
                (Decoder.set_prev_read (Some r')
                   (Decoder.set_samplenum end_sample s2)) r'
              ≫= fun s' => mret (Decoder.set_prev_read None s')) as Hclose.
  { intros s2 Hp Hb. unfold Decoder.end_read.
    cbn [Decoder.prev_read Decoder.set_samplenum Decoder.samplenum].
    rewrite Hp.
    change (Decoder.sram_bank (Decoder.set_samplenum end_sample s2))
      with (Decoder.sram_bank s2).
    rewrite Hb, Hr'. reflexivity. }
  exists r'. split; [exact Hr'|]. split; [exact He|].
  split; [|split; [|split; [|split]]].
  - unfold Read.get_instruction_ann. rewrite Hs, Hi.
    by destruct (Lookups.symbols lookups !! addr
                   ≫= fun banks : gmap Z string => banks !! bank).
  - apply shiftl_8_add_range.
  - intros s Hs0 -> ->. unfold Decoder.end_read. rewrite Hs0, Hr'.
    reflexivity.
  - intros symbols s0 s1 s2 ev evs -> Hev Hdata Hd1 Hall Hd2 Hp.
    apply Hclose; [exact Hp|].
    pose proof (decode_iter_sram_switch symbols s0 s1 ev bank Hev Hdata Hd1)
      as Hinv.
    by destruct (decode_sram symbols bank evs s1 s2 Hall Hinv Hd2).
  - intros symbols s2 evs -> -> Hall Hd2 Hp.
    apply Hclose; [exact Hp|].
    assert (Sram_inv (lookups_of symbols) 0x00 Decoder.start) as Hinv.
    { split; [reflexivity|]. intros w Hw. discriminate Hw. }
    by destruct (decode_sram symbols 0x00 evs Decoder.start s2 Hall Hinv
                   Hd2).
Qed.

(** The example of the design document, decoded from [start]: bank
    [0x03] is selected, then [call nn] with the bytes [0x00] and [0x50]
    is read; closing the Read gives ["call nn (MyFunc)"]. *)
Lemma operand_annotation_witness :
  exists r' s2,
    Read.end_ (lookups_of MyFunc_symbols) call_nn_read (Some 4) 0x03 = Ok r'
    /\ Read.get_instruction_ann r' = Ok "call nn (MyFunc)"
    /\ Decoder.decode (lookups_of MyFunc_symbols) Decoder.start
         (write_start 0 0x4000 0x03 :: call_nn_romx_reads) = Ok s2
    /\ Decoder.prev_read s2 = Some call_nn_read
    /\ Decoder.end_read (lookups_of MyFunc_symbols)
         (Decoder.set_samplenum (Some 4) s2)
       = Decoder.check_player_step
           (Decoder.set_prev_read (Some r')
              (Decoder.set_samplenum (Some 4) s2)) r'
         ≫= fun s' => mret (Decoder.set_prev_read None s').
Proof.
  destruct (operand_annotation (lookups_of MyFunc_symbols) call_nn_read
              (Some 4) 0x03 (Instruction.mk 0xcd 3 "call nn")
              (Cycle.mk (Some 2) (Some 0x4101) (Some 0x00) DATA)
              (Cycle.mk (Some 3) (Some 0x4102) (Some 0x50) DATA)
              0x00 0x50)
    as (r' & Hr' & _ & Hann & _ & _ & Hrun & _).
  - reflexivity.
  - vm_compute. do 4 apply list_elem_of_further. apply list_elem_of_here.
  - reflexivity.
  - reflexivity.
  - reflexivity.
  - reflexivity.
  - reflexivity.
  - assert (exists s1, Decoder.decode_iter (lookups_of MyFunc_symbols)
                         Decoder.start (write_start 0 0x4000 0x03) = Ok s1)
      as [s1 H1] by (eexists; vm_compute; reflexivity).
    assert (exists s2, Decoder.decode (lookups_of MyFunc_symbols) s1
                         call_nn_romx_reads = Ok s2
                       /\ Decoder.prev_read s2 = Some call_nn_read)
      as (s2 & H2 & Hp).
    { vm_compute in H1. injection H1 as <-. eexists.
      split; vm_compute; reflexivity. }
    exists r', s2. split; [exact Hr'|].
    split; [rewrite Hann; vm_compute; reflexivity|].
    split; [simpl; rewrite H1; exact H2|]. split; [exact Hp|].
    apply (Hrun MyFunc_symbols Decoder.start s1 s2
             (write_start 0 0x4000 0x03) call_nn_romx_reads eq_refl
             (conj eq_refl eq_refl) eq_refl H1); [|exact H2|exact Hp].
    repeat constructor; intros [Hm _]; discriminate Hm.
Defined.


(* ===================================================================== *)
(** ** Decoding a capture whose buses are driven *)
(* ===================================================================== *)

Lemma driven_buses (pins : list Z) :
  driven pins ->
  exists a d, bus_addr pins = Ok (Some a) /\ bus_data pins = Ok (Some d).
Proof.
  intros (Hlen & Ha & Hd).
  destruct (reduce_bus_driven _ Ha) as [a Hra].
  { apply slice_nonempty; unfold Pin.A0, Pin.A15; lia. }
  destruct (reduce_bus_driven _ Hd) as [d Hrd].
  { apply slice_nonempty; unfold Pin.D0, Pin.D7; lia. }
  by exists a, d.
Qed.

Lemma Read_new_driven (lookups : Lookups.t) (sn : samplenum_t)
    (pins : list Z) (bank : Z) :
  driven pins ->
  exists r, Read.new sn pins bank lookups = Ok r
            /\ Forall cycle_driven (Read.cycles r).
Proof.
  intros Hdr. destruct (driven_buses pins Hdr) as (a & d & Ha & Hd).
  destruct (Read_new_by_window lookups sn pins bank a _ Ha Hd)
    as (r & c0 & Hr & Hcy & Hca & Hcd & _).
  exists r. split; [exact Hr|]. rewrite Hcy.
  apply Forall_singleton. split; [by rewrite Hca | by rewrite Hcd].
Qed.

Lemma Read_next_driven (r : Read.t) (inst : Instruction.t)
    (pins : list Z) (sn : samplenum_t) :
  driven pins -> Read.instruction r = Some inst ->
  exists r' c,
    Read.next r pins sn = Ok r'
    /\ Read.cycles r' = Read.cycles r ++ [c] /\ cycle_driven c.
Proof.
  intros Hdr Hi. destruct (driven_buses pins Hdr) as (a & d & Ha & Hd).
  unfold Read.next. rewrite (Cycle_new_buses sn pins _ _ Ha Hd). simpl.
  rewrite Hi. do 2 eexists. split; [reflexivity|]. simpl.
  split; [reflexivity|]. by split.
Qed.

Lemma Read_end_driven (lookups : Lookups.t) (r : Read.t)
    (es : samplenum_t) (bank : Z) :
  Forall cycle_driven (Read.cycles r) ->
  ~ short_operand_read r ->
  exists r', Read.end_ lookups r es bank = Ok r'.
Proof.
  intros Hall Hlong. unfold Read.end_.
  destruct (Read.instruction r) as [inst|] eqn:Hi; [|eauto].
  destruct (decide (Instruction.opcode inst ∈ Read.operand_opcodes))
    as [Hop|]; [|eauto].
  assert (3 <= length (Read.cycles r))%nat as Hlen.
  { destruct (decide (length (Read.cycles r) < 3)%nat) as [Hlt|]; [|lia].
    exfalso. apply Hlong. by exists inst. }
  destruct (lookup_lt_is_Some_2 (Read.cycles r) 2) as [c2 Hc2]; [lia|].
  destruct (lookup_lt_is_Some_2 (Read.cycles r) 1) as [c1 Hc1]; [lia|].
  rewrite Forall_lookup in Hall.
  destruct (Hall _ _ Hc2) as [_ [hi Hhi]].
  destruct (Hall _ _ Hc1) as [_ [lo Hlo]].
  unfold getitem. rewrite Hc2. simpl. rewrite Hhi. simpl.
  rewrite Hc1. simpl. rewrite Hlo. simpl.
  destruct (Lookups.symbols lookups !! _ ≫= _); eauto.
Qed.

Lemma get_sub_end_sample_Ok (read : Read.t) (idx : nat) (e : samplenum_t) :
  Read.end_sample read = Some e ->
  exists x, Read.get_sub_end_sample read idx = Ok x.
Proof.
  intros He. unfold Read.get_sub_end_sample.
  destruct (Z.ltb_spec (Z.of_nat idx)
              (Z.of_nat (length (Read.cycles read)) - 1)) as [Hlt|Hge].
  - destruct (lookup_lt_is_Some_2 (Read.cycles read) (S idx)) as [c Hc];
      [lia|].
    unfold getitem. rewrite Hc. simpl. eauto.
  - rewrite He. eauto.
Qed.

Lemma print_cycles_Ok (read : Read.t) (e : samplenum_t)
    (cycles : list Cycle.t) :
  Read.end_sample read = Some e -> Forall cycle_driven cycles ->
  forall idx s, exists s', Decoder.print_cycles read idx cycles s = Ok s'.
Proof.
  intros He. induction 1 as [|c cycles [[a Ha] [d Hd]] _ IH]; intros idx s.
  - simpl. eauto.
  - simpl. destruct (get_sub_end_sample_Ok read idx e He) as [x ->].
    simpl. rewrite Ha, Hd. simpl. apply IH.
Qed.

Lemma print_read_Ok (read : Read.t) (e : samplenum_t) (s : Decoder.t) :
  Read.end_sample read = Some e ->
  Forall cycle_driven (Read.cycles read) ->
  exists s', Decoder.print_read read s = Ok s'.
Proof.
  intros He Hall. unfold Decoder.print_read.
  destruct (print_cycles_Ok read e _ He Hall 0%nat s) as [s1 ->]. simpl.
  rewrite He. simpl.
  destruct (truthy_str (Read.symbol read)); simpl;
    destruct (Read.instruction read) as [inst|] eqn:Hi; eauto;
    unfold Read.get_instruction_ann; rewrite Hi;
    destruct (Read.special_ann read); simpl; eauto.
Qed.

Lemma end_read_Ok (lookups : Lookups.t) (s : Decoder.t) :
  (forall r, Decoder.prev_read s = Some r ->
             Forall cycle_driven (Read.cycles r)
             /\ ~ short_operand_read r) ->
  exists s', Decoder.end_read lookups s = Ok s'.
Proof.
  intros H. unfold Decoder.end_read.
  destruct (Decoder.prev_read s) as [r|]; [|simpl; eauto].
  destruct (H r eq_refl) as [Hall Hlong].
  destruct (Read_end_driven lookups r (Decoder.samplenum s)
              (Decoder.sram_bank s) Hall Hlong) as [r' Hr'].
  rewrite Hr'. simpl.
  apply Read_end_frame in Hr' as (Hcy & _ & _ & _ & _ & _ & He).
  unfold Decoder.check_player_step. rewrite check_spec.
  destruct (collecting _ r'); simpl; [|eauto].
  rewrite <- Hcy in Hall.
  destruct (print_read_Ok r' _ (Decoder.set_prev_read (Some r') s) He Hall)
    as [s1 ->].
  simpl. eauto.
Qed.

Lemma print_write_Ok (w : Write.t) (e : samplenum_t) (s : Decoder.t) :
  Write.end_sample w = Some e -> cycle_driven (Write.cycle w) ->
  exists s', Decoder.print_write w s = Ok s'.
Proof.
  intros He [[a Ha] [d Hd]]. unfold Decoder.print_write.
  rewrite He, Ha, Hd. simpl.
  destruct (truthy_str (Write.symbol w)); [eauto|].
  destruct (Write.hardware_const w) as [hc|] eqn:Hhc; [|eauto].
  destruct (HardwareConstant.data hc !! d) as [item|] eqn:Hitem; [|eauto].
  unfold Write.get_ann_hardware_const_data. rewrite Hhc, Hd. simpl.
  rewrite Hitem. simpl. eauto.
Qed.

Lemma end_write_Ok (s : Decoder.t) :
  (forall w, Decoder.prev_write s = Some w ->
             cycle_driven (Write.cycle w)) ->
  exists s', Decoder.end_write s = Ok s'.
Proof.
  intros H. unfold Decoder.end_write.
  destruct (Decoder.prev_write s) as [w|]; [|simpl; eauto].
  simpl. destruct (AnnFilter.putting (Decoder.print_player_step s)).
  - destruct (print_write_Ok (Write.end_ w (Decoder.samplenum s))
                (Decoder.samplenum s)
                (Decoder.set_prev_write
                   (Some (Write.end_ w (Decoder.samplenum s))) s)
                eq_refl (H w eq_refl)) as [s1 ->].
    simpl. eauto.
  - simpl. eauto.
Qed.

Lemma write_Ok (symbols : gmap Z (gmap Z string)) (s : Decoder.t)
    (pins : list Z) :
  (forall w, Decoder.prev_write s = Some w ->
             cycle_driven (Write.cycle w)) ->
  driven pins ->
  exists s' w,
    Decoder.write (lookups_of symbols) s pins = Ok s'
    /\ Decoder.prev_write s' = Some w /\ cycle_driven (Write.cycle w).
Proof.
  intros Hw Hdr. destruct (driven_buses pins Hdr) as (a & d & Ha & Hd).
  unfold Decoder.write.
  assert (exists s1,
    match Decoder.prev_write s with
    | Some _ => Decoder.end_write s
    | None => mret s
    end = Ok s1) as [s1 ->].
  { destruct (Decoder.prev_write s) eqn:E; [|simpl; eauto].
    apply end_write_Ok. intros w' Hw'. apply Hw. congruence. }
  simpl.
  destruct (Write_new_by_address symbols (Decoder.samplenum s1) pins
              (Decoder.sram_bank s1) a _ Ha Hd)
    as (w & -> & Hwa & Hwd & _).
  simpl.
  assert (cycle_driven (Write.cycle w)) as Hcd.
  { split; [by rewrite Hwa | by rewrite Hwd]. }
  destruct (Write.is_rom_bank_switch w).
  - unfold Decoder.switch_rom. rewrite Hwd. simpl.
    do 2 eexists. split; [reflexivity|].
    destruct (Decoder.prev_rom_bank s1); simpl; by split.
  - destruct (Write.is_sram_bank_switch w).
    + unfold Decoder.switch_sram. rewrite Hwd. simpl.
      do 2 eexists. split; [reflexivity|].
      destruct (Decoder.prev_sram_bank s1); simpl; by split.
    + do 2 eexists. split; [reflexivity|]. simpl. by split.
Qed.

(** An operand opcode of the table is at least three cycles long. *)
Lemma operand_opcode_length (symbols : gmap Z (gmap Z string)) (d : Z)
    (inst : Instruction.t) :
  Lookups.instructions (lookups_of symbols) !! d = Some inst ->
  Instruction.opcode inst ∈ Read.operand_opcodes ->
  3 <= Instruction.length inst.
Proof.
  intros H Hop. apply dict_by_lookup in H as [Hin _].
  unfold tables in Hin.
  repeat (apply elem_of_cons in Hin as [->|Hin];
          [first [simpl; lia
                 |exfalso; vm_compute in Hop;
                  repeat (apply elem_of_cons in Hop as [Hop|Hop];
                          [discriminate Hop|]);
                  by apply elem_of_nil in Hop]|]).
  by apply elem_of_nil in Hin.
Qed.

(** A Read that the invariant describes and that is complete is not a
    short operand Read. *)
Lemma complete_read_not_short (symbols : gmap Z (gmap Z string))
    (r : Read.t) :
  Read_inv (lookups_of symbols) r -> Read.state r = COMPLETE ->
  ~ short_operand_read r.
Proof.
  intros (c0 & rest & a & Hcy & Ha & Hinv) Hst (inst & Hi & Hop & Hlen).
  destruct (in_rom_window a); [|destruct Hinv; congruence].
  destruct Hinv as (_ & Hinv).
  destruct (Cycle.data c0
            ≫= fun d => Lookups.instructions (lookups_of symbols) !! d)
    as [inst'|] eqn:Hlook; [|destruct Hinv; congruence].
  destruct Hinv as (Hi' & _ & Hiff & _).
  rewrite Hi in Hi'. injection Hi' as <-.
  apply Hiff in Hst.
  destruct (Cycle.data c0) as [d|]; [|discriminate Hlook].
  pose proof (operand_opcode_length symbols d inst Hlook Hop). lia.
Qed.

Lemma incomplete_read_has_instruction (lookups : Lookups.t) (r : Read.t) :
  Read_inv lookups r -> Read.state r = INCOMPLETE ->
  is_Some (Read.instruction r).
Proof.
  intros (c0 & rest & a & Hcy & Ha & Hinv) Hst.
  destruct (in_rom_window a); [|destruct Hinv; congruence].
  destruct Hinv as (_ & Hinv).
  destruct (Cycle.data c0 ≫= _) as [inst|]; [|destruct Hinv; congruence].
  destruct Hinv as (Hi & _). by rewrite Hi.
Qed.

(** A write-start edge that finds a short operand Read open ends with
    [IndexError]. *)
Lemma short_read_finalization_fails_at (lookups : Lookups.t) (r : Read.t)
    (inst : Instruction.t) :
  Read.instruction r = Some inst ->
  Instruction.opcode inst ∈ Read.operand_opcodes ->
  forall (s : Decoder.t) (ev : event),
    Decoder.prev_read s = Some r ->
    (length (Read.cycles r) < 3)%nat ->
    ev_matched ev = Match.START_WRITE ->
    length (ev_pins ev) = 28%nat ->
    Decoder.decode_iter lookups s ev = Raise IndexError.
Proof.
  intros Hinst Hop s ev Hprev Hlen Hm Hpins.
  rewrite decode_iter_write by done.
  unfold Decoder.end_read. simpl. rewrite Hprev.
  rewrite (Read_end_short lookups r _ _ inst Hinst Hop Hlen).
  reflexivity.
Qed.

Lemma Driven_inv_start (lookups : Lookups.t) :
  Driven_inv lookups Decoder.start.
Proof. split; intros x Hx; discriminate Hx. Qed.

(** A read-start edge on driven buses is processed, and keeps the
    invariant. *)
Lemma read_start_Ok (symbols : gmap Z (gmap Z string)) (s : Decoder.t)
    (ev : event) :
  Driven_inv (lookups_of symbols) s ->
  driven (ev_pins ev) -> ev_matched ev = Match.START_READ ->
  exists s', Decoder.decode_iter (lookups_of symbols) s ev = Ok s'
             /\ Driven_inv (lookups_of symbols) s'.
Proof.
  intros [Hr Hw] Hdr Hm.
  rewrite decode_iter_read by (done || apply Hdr).
  destruct (end_write_Ok
              (Decoder.set_samplenum (Some (ev_samplenum ev)) s))
    as [s1 H1]; [exact Hw|].
  rewrite H1. simpl.
  apply end_write_frame in H1 as (Hw1 & Hr1 & _ & Hsn1 & _).
  simpl in Hr1, Hsn1.
  assert (exists s' r',
    Decoder.read (lookups_of symbols) s1 (ev_pins ev) = Ok s'
    /\ Decoder.prev_read s' = Some r'
    /\ Decoder.prev_write s' = None
    /\ Read_inv (lookups_of symbols) r'
    /\ Forall cycle_driven (Read.cycles r'))
    as (s' & r' & -> & Hp' & Hw' & Hinv' & Hall').
  { unfold Decoder.read. rewrite Hr1.
    destruct (Decoder.prev_read s) as [r|] eqn:Hp.
    - destruct (Hr r eq_refl) as [Hinv Hall].
      destruct (Read.state r) eqn:Hst.
      + exists s1, r. by repeat split.
      + destruct (incomplete_read_has_instruction _ r Hinv Hst)
          as [inst Hi].
        destruct (Read_next_driven r inst (ev_pins ev)
                    (Decoder.samplenum s1) Hdr Hi)
          as (r' & c & Hnext & Hcy & Hc).
        rewrite Hnext. simpl. do 2 eexists.
        split; [reflexivity|]. simpl. split; [reflexivity|].
        split; [exact Hw1|]. split.
        * by eapply Read_next_inv.
        * rewrite Hcy. apply Forall_app. split; [exact Hall|].
          by apply Forall_singleton.
      + destruct (end_read_Ok (lookups_of symbols) s1) as [s2 H2].
        { intros r0 Hr0. rewrite Hr1 in Hr0. injection Hr0 as <-.
          split; [exact Hall|]. by eapply complete_read_not_short. }
        rewrite H2. simpl.
        apply end_read_frame in H2 as (_ & Hw2 & _).
        destruct (Read_new_driven (lookups_of symbols)
                    (Decoder.samplenum s2) (ev_pins ev)
                    (Decoder.rom_bank s1) Hdr) as (r' & Hnew & Hall').
        rewrite Hnew. simpl. do 2 eexists.
        split; [reflexivity|]. simpl. split; [reflexivity|].
        split; [congruence|]. split; [by eapply Read_new_inv | done].
    - destruct (Read_new_driven (lookups_of symbols)
                  (Decoder.samplenum s1) (ev_pins ev)
                  (Decoder.rom_bank s1) Hdr) as (r' & Hnew & Hall').
      rewrite Hnew. simpl. do 2 eexists.
      split; [reflexivity|]. simpl. split; [reflexivity|].
      split; [exact Hw1|]. split; [by eapply Read_new_inv | done]. }
  exists s'. split; [reflexivity|]. split.
  - intros r0 Hr0. rewrite Hp' in Hr0. injection Hr0 as <-. by split.
  - intros w0 Hw0. congruence.
Qed.

(** A write-start edge with driven buses, from a state that keeps the
    invariant. *)
Lemma decode_iter_write_start
    (symbols : gmap Z (gmap Z string)) (s : Decoder.t) (ev : event) :
  Driven_inv (lookups_of symbols) s ->
  driven (ev_pins ev) -> ev_matched ev = Match.START_WRITE ->
  ((exists r, Decoder.prev_read s = Some r /\ short_operand_read r) ->
   Decoder.decode_iter (lookups_of symbols) s ev = Raise IndexError)
  /\ (~ (exists r, Decoder.prev_read s = Some r /\ short_operand_read r) ->
      exists s', Decoder.decode_iter (lookups_of symbols) s ev = Ok s'
                 /\ Decoder.prev_read s' = None
                 /\ Driven_inv (lookups_of symbols) s').
Proof.
  intros [Hr Hw] Hdr Hm. split.
  - intros (r & Hp & inst & Hi & Hop & Hlen).
    apply (short_read_finalization_fails_at _ r inst Hi Hop s ev Hp Hlen Hm).
    apply Hdr.
  - intros Hlong. rewrite decode_iter_write by (done || apply Hdr).
    destruct (end_read_Ok (lookups_of symbols)
                (Decoder.set_samplenum (Some (ev_samplenum ev)) s))
      as [s1 H1].
    { intros r Hp. split; [by apply Hr|]. intros Hshort.
      apply Hlong. by exists r. }
    rewrite H1. simpl.
    apply end_read_frame in H1 as (Hr1 & Hw1 & _). simpl in Hw1.
    destruct (write_Ok symbols s1 (ev_pins ev)) as (s' & w & H2 & Hpw & Hcd).
    { intros w Hpw. apply Hw. congruence. }
    { exact Hdr. }
    exists s'. split; [exact H2|].
    apply write_spec in H2 as (Hr2 & _).
    split; [congruence|]. split.
    + intros r0 Hr0. congruence.
    + intros w0 Hw0. congruence.
Qed.

(** X6. On a write-start edge with driven buses, from a state that keeps
    the invariant, [decode] raises exactly when the open Read is one of an
    operand opcode with fewer than three cycles, and then it raises
    [IndexError]; in every other case the edge is processed and the
    invariant is kept. *)
Theorem write_start_fails_only_on_short_read
    (symbols : gmap Z (gmap Z string)) (s : Decoder.t) (ev : event) :
  Driven_inv (lookups_of symbols) s ->
  driven (ev_pins ev) -> ev_matched ev = Match.START_WRITE ->
  ((exists r, Decoder.prev_read s = Some r /\ short_operand_read r) ->
   Decoder.decode_iter (lookups_of symbols) s ev = Raise IndexError)
  /\ (~ (exists r, Decoder.prev_read s = Some r /\ short_operand_read r) ->
      exists s', Decoder.decode_iter (lookups_of symbols) s ev = Ok s'
                 /\ Decoder.prev_read s' = None
                 /\ Driven_inv (lookups_of symbols) s').
Proof. exact (decode_iter_write_start symbols s ev). Qed.

Lemma bus_bits_is_bit (n : nat) (v : Z) : Forall is_bit (bus_bits n v).
Proof.
  unfold bus_bits. apply Forall_fmap, Forall_forall. intros i _. simpl.
  destruct (Z.testbit v (Z.of_nat i)); [by right | by left].
Qed.

(** The pins [pins_of] builds are driven. *)
Lemma pins_of_driven (addr data : Z) : driven (pins_of addr data).
Proof.
  split; [reflexivity|].
  split; apply is_bit_not_sentinel.
  - change (slice (pins_of addr data) Pin.A0 (Pin.A15 + 1))
      with (bus_bits 16 addr). apply bus_bits_is_bit.
  - change (slice (pins_of addr data) Pin.D0 (Pin.D7 + 1))
      with (bus_bits 8 data). apply bus_bits_is_bit.
Qed.

Lemma write_start_fails_only_on_short_read_witness :
  Decoder.decode_iter (lookups_of ∅) call_nn_opened
    (write_start 2 0xC000 0x00) = Raise IndexError
  /\ exists s',
      Decoder.decode_iter (lookups_of ∅) Decoder.start
        (write_start 1 0xC000 0x00) = Ok s'.
Proof.
  assert (Driven_inv (lookups_of ∅) call_nn_opened) as Hinv.
  { split; [|intros w Hw; discriminate Hw].
    intros r Hr. injection Hr as <-. split.
    - eapply (decode_inv ∅ [read_start 1 0x0200 0xcd] Decoder.start
                call_nn_opened (start_inv _)); [|reflexivity].
      vm_compute. reflexivity.
    - apply Forall_singleton. split; eauto. }
  split.
  - apply (proj1 (write_start_fails_only_on_short_read ∅ call_nn_opened
                    (write_start 2 0xC000 0x00) Hinv
                    (pins_of_driven _ _) eq_refl)).
    exists call_nn_opened_read. split; [reflexivity|].
    exists (Instruction.mk 0xcd 3 "call nn").
    split; [reflexivity|]. split; [|simpl; lia].
    vm_compute. do 4 apply list_elem_of_further. apply list_elem_of_here.
  - destruct (proj2 (write_start_fails_only_on_short_read ∅ Decoder.start
                       (write_start 1 0xC000 0x00)
                       (Driven_inv_start _) (pins_of_driven _ _) eq_refl))
      as (s' & Hs' & _).
    + intros (r & Hr & _). discriminate Hr.
    + by exists s'.
Defined.

Lemma decode_iter_driven (symbols : gmap Z (gmap Z string))
    (s : Decoder.t) (ev : event) :
  Driven_inv (lookups_of symbols) s -> driven (ev_pins ev) ->
  (exists s', Decoder.decode_iter (lookups_of symbols) s ev = Ok s'
              /\ Driven_inv (lookups_of symbols) s')
  \/ (ev_matched ev = Match.START_WRITE
      /\ Decoder.decode_iter (lookups_of symbols) s ev = Raise IndexError).
Proof.
  intros Hinv Hdr.
  destruct (Z.eq_dec (ev_matched ev) Match.START_READ) as [Hr|Hr].
  - left. by apply read_start_Ok.
  - destruct (Z.eq_dec (ev_matched ev) Match.START_WRITE) as [Hw|Hw].
    + destruct (decode_iter_write_start symbols s ev
                  Hinv Hdr Hw) as [Hfail Hok].
      destruct (Decoder.prev_read s) as [r|] eqn:Hp.
      * destruct (Read.instruction r) as [inst|] eqn:Hi.
        -- destruct (decide (Instruction.opcode inst
                             ∈ Read.operand_opcodes)) as [Hop|Hop].
           ++ destruct (decide (length (Read.cycles r) < 3)%nat)
                as [Hlt|Hge].
              ** right. split; [exact Hw|]. apply Hfail.
                 exists r. split; [done|]. by exists inst.
              ** left. destruct Hok as (s' & Hs' & _ & Hinv').
                 { intros (r' & [= <-] & inst' & Hi' & _ & Hlt).
                   contradiction. }
                 by exists s'.
           ++ left. destruct Hok as (s' & Hs' & _ & Hinv').
              { intros (r' & [= <-] & inst' & Hi' & Hop' & _).
                rewrite Hi in Hi'. injection Hi' as <-. contradiction. }
              by exists s'.
        -- left. destruct Hok as (s' & Hs' & _ & Hinv').
           { intros (r' & [= <-] & inst' & Hi' & _).
             rewrite Hi in Hi'. discriminate Hi'. }
           by exists s'.
      * left. destruct Hok as (s' & Hs' & _ & Hinv').
        { intros (r' & Hr' & _). discriminate Hr'. }
        by exists s'.
    + left. exists (Decoder.set_samplenum (Some (ev_samplenum ev)) s).
      split.
      * unfold Decoder.decode_iter.
        rewrite decide_True by apply Hdr.
        destruct (Z.eqb_spec (ev_matched ev) Match.START_READ); [done|].
        destruct (Z.eqb_spec (ev_matched ev) Match.START_WRITE); done.
      * exact Hinv.
Qed.

(** X7. On a capture whose edges all have driven buses, decoding from a
    state that keeps the invariant, the start state in particular, either
    processes every edge or ends with [IndexError]: it raises no
    [TypeError], [AttributeError], [KeyError] or [ValueError].  If the
    capture has no write-start edge, every edge is processed. *)
Theorem driven_capture_raises_only_IndexError
    (symbols : gmap Z (gmap Z string)) (evs : list event) (s : Decoder.t) :
  Driven_inv (lookups_of symbols) s ->
  Forall (fun ev => driven (ev_pins ev)) evs ->
  ((exists s', Decoder.decode (lookups_of symbols) s evs = Ok s'
               /\ Driven_inv (lookups_of symbols) s')
   \/ Decoder.decode (lookups_of symbols) s evs = Raise IndexError)
  /\ (Forall (fun ev => ev_matched ev <> Match.START_WRITE) evs ->
      exists s', Decoder.decode (lookups_of symbols) s evs = Ok s').
Proof.
  revert s. induction evs as [|ev evs IH]; intros s Hinv Hall.
  - split; [left; exists s; by split | intros _; by exists s].
  - destruct (proj1 (Forall_cons _ _ _) Hall) as [Hdr Hall'].
    simpl. destruct (decode_iter_driven symbols s ev Hinv Hdr)
      as [(s1 & H1 & Hinv1)|[Hm H1]].
    + rewrite H1. simpl. destruct (IH s1 Hinv1 Hall') as [IH1 IH2].
      split; [exact IH1|]. intros Hnw.
      apply IH2. by destruct (proj1 (Forall_cons _ _ _) Hnw).
    + rewrite H1. simpl. split; [by right|]. intros Hnw.
      destruct (proj1 (Forall_cons _ _ _) Hnw) as [Hne _]. contradiction.
Qed.

Lemma driven_capture_raises_only_IndexError_witness :
  exists s',
    Decoder.decode (lookups_of ∅) Decoder.start call_nn_reads = Ok s'.
Proof.
  apply (proj2 (driven_capture_raises_only_IndexError ∅ call_nn_reads
                  Decoder.start (Driven_inv_start _)
                  ltac:(repeat constructor; apply pins_of_driven))).
  repeat constructor; discriminate.
Defined.

(* ===================================================================== *)
(** ** An undriven address bus *)
(* ===================================================================== *)

(** X4. With the sentinel on an address pin, opening a transaction
    fails: [Read] and [Write] raise [TypeError] when they compare the
    address with the bounds of a window, and so does [decode] on a
    read-start or write-start edge, from every state whose open
    transactions were sampled on driven buses and whose open Read, if
    there is one, is complete.  An operand cycle is accepted all the
    same: [next] never looks at the address, and records it as
    [None]. *)
Theorem undriven_address_opens_nothing (lookups : Lookups.t)
    (sn : samplenum_t) (pins : list Z) (bank : Z) :
  length pins = 28%nat ->
  0xFF ∈ slice pins Pin.A0 (Pin.A15 + 1) ->
  Read.new sn pins bank lookups = Raise TypeError
  /\ Write.new sn pins bank lookups = Raise TypeError
  /\ (forall (s : Decoder.t) (n m : Z),
        Decoder.prev_read s = None -> Decoder.prev_write s = None ->
        m = Match.START_READ \/ m = Match.START_WRITE ->
        Decoder.decode_iter lookups s (Event n m pins) = Raise TypeError)
  /\ (forall r inst,
        Read.instruction r = Some inst ->
        exists r' c,
          Read.next r pins sn = Ok r'
          /\ Read.cycles r' = Read.cycles r ++ [c]
          /\ Cycle.addr c = None)
  /\ (forall (symbols : gmap Z (gmap Z string)) (s : Decoder.t)
             (n m : Z),
        lookups = lookups_of symbols ->
        Driven_inv lookups s ->
        (forall r, Decoder.prev_read s = Some r ->
                   Read.state r = COMPLETE) ->
        m = Match.START_READ \/ m = Match.START_WRITE ->
        Decoder.decode_iter lookups s (Event n m pins) = Raise TypeError).
Proof.
  intros Hlen Hff.
  destruct (buses_total pins Hlen) as (a & d & Ha & Hd).
  assert (a = None) as ->.
  { unfold bus_addr in Ha. rewrite (reduce_bus_sentinel _ Hff) in Ha.
    by injection Ha as <-. }
  assert (forall sn bank, Read.new sn pins bank lookups = Raise TypeError)
    as Hr.
  { intros sn' bank'. unfold Read.new.
    by rewrite (Cycle_new_buses sn' pins _ _ Ha Hd). }
  assert (forall sn bank, Write.new sn pins bank lookups = Raise TypeError)
    as Hw.
  { intros sn' bank'. unfold Write.new.
    by rewrite (Cycle_new_buses sn' pins _ _ Ha Hd). }
  split; [apply Hr|]. split; [apply Hw|]. split; [|split].
  - intros s n m Hpr Hpw [-> | ->].
    + rewrite decode_iter_read by done. simpl.
      unfold Decoder.end_write. simpl. rewrite Hpw. simpl.
      unfold Decoder.read. simpl. rewrite Hpr. by rewrite Hr.
    + rewrite decode_iter_write by done. simpl.
      unfold Decoder.end_read. simpl. rewrite Hpr. simpl.
      unfold Decoder.write. simpl. rewrite Hpw. simpl.
      by rewrite Hw.
  - intros r inst Hi. unfold Read.next.
    rewrite (Cycle_new_buses sn pins _ _ Ha Hd). simpl. rewrite Hi.
    do 2 eexists. split; [reflexivity|]. simpl. by split.
  - intros symbols s n m -> [Hri Hwi] Hcomplete Hm.
    assert (forall s0 : Decoder.t,
              Decoder.prev_read s0 = Decoder.prev_read s ->
              exists s1, Decoder.end_read (lookups_of symbols) s0 = Ok s1)
      as Hend_read.
    { intros s0 Hp0. apply end_read_Ok. intros r Hp.
      rewrite Hp0 in Hp. destruct (Hri r Hp) as [Hinv Hall].
      split; [exact Hall|].
      eapply complete_read_not_short; [exact Hinv|by apply Hcomplete]. }
    destruct Hm as [-> | ->].
    + rewrite decode_iter_read by done. simpl.
      destruct (end_write_Ok (Decoder.set_samplenum (Some n) s))
        as [s1 H1]; [exact Hwi|].
      rewrite H1. simpl.
      apply end_write_frame in H1 as (_ & Hr1 & _). simpl in Hr1.
      unfold Decoder.read. rewrite Hr1.
      destruct (Decoder.prev_read s) as [r|] eqn:Hp.
      * rewrite (Hcomplete r eq_refl).
        destruct (Hend_read s1) as [s2 H2]; [by rewrite Hr1|].
        rewrite H2. simpl. by rewrite Hr.
      * by rewrite Hr.
    + rewrite decode_iter_write by done. simpl.
      destruct (Hend_read (Decoder.set_samplenum (Some n) s))
        as [s1 H1]; [reflexivity|].
      rewrite H1. simpl.
      apply end_read_frame in H1 as (_ & Hw1 & _). simpl in Hw1.
      unfold Decoder.write.
      destruct (Decoder.prev_write s1) as [w|] eqn:Hpw.
      * destruct (end_write_Ok s1) as [s2 H2].
        { intros w' Hw'. apply Hwi. congruence. }
        rewrite H2. simpl. by rewrite Hw.
      * simpl. by rewrite Hw.
Qed.

(** From the start, and from the state with a complete Read open. *)
Lemma undriven_address_opens_nothing_witness :
  Decoder.decode (lookups_of ∅) Decoder.start
    [Event 1 Match.START_READ (pins_undriven_addr 0)]
  = Raise TypeError
  /\ Decoder.decode_iter (lookups_of ∅) quiet_read_open
       (Event 2 Match.START_WRITE (pins_undriven_addr 0))
     = Raise TypeError.
Proof.
  assert (0xFF ∈ slice (pins_undriven_addr 0) Pin.A0 (Pin.A15 + 1)) as Hff.
  { vm_compute. apply list_elem_of_here. }
  split.
  - unfold Decoder.decode.
    rewrite (proj1 (proj2 (proj2
               (undriven_address_opens_nothing (lookups_of ∅) None
                  (pins_undriven_addr 0) 0 eq_refl Hff)))
               Decoder.start 1 Match.START_READ eq_refl eq_refl
               (or_introl eq_refl)).
    reflexivity.
  - apply (proj2 (proj2 (proj2 (proj2
             (undriven_address_opens_nothing (lookups_of ∅) None
                (pins_undriven_addr 0) 0 eq_refl Hff)))) ∅);
      [reflexivity| |by intros r [= <-]|by right].
    destruct (read_start_Ok ∅ Decoder.start (read_start 1 0x0200 0x00)
                (Driven_inv_start _) (pins_of_driven _ _) eq_refl)
      as (s' & Hs' & Hinv).
    vm_compute in Hs'. injection Hs' as <-. exact Hinv.
Defined.

(* ===================================================================== *)
(** ** Loading a well-formed symbol file *)
(* ===================================================================== *)

Lemma count_char_app (c : ascii) (s t : string) :
  count_char c (s +:+ t) = (count_char c s + count_char c t)%nat.
Proof. induction s as [|c' s IH]; simpl; [done|]. rewrite IH. lia. Qed.

Lemma str_split_app_sep (sep : ascii) (s t : string) :
  count_char sep s = 0%nat ->
  str_split sep (s +:+ String sep t) = s :: str_split sep t.
Proof.
  induction s as [|c s IH]; simpl.
  - intros _. by rewrite Ascii.eqb_refl.
  - destruct (Ascii.eqb c sep); [discriminate|]. simpl. intros H.
    by rewrite IH.
Qed.

Lemma find_symbol_symbol_at (lookups : Lookups.t) (c : Cycle.t) (a bank : Z) :
  Cycle.addr c = Some a ->
  Lookups.find_symbol lookups c bank
  = symbol_at (Lookups.symbols lookups) a bank.
Proof. unfold Lookups.find_symbol, symbol_at. by intros ->. Qed.

Lemma symbol_at_insert (symbols : gmap Z (gmap Z string))
    (addr bank addr' bank' : Z) (name : string) :
  symbol_at (insert_symbol addr bank name symbols) addr' bank'
  = if decide (addr' = addr /\ bank' = bank) then Some name
    else symbol_at symbols addr' bank'.
Proof.
  unfold symbol_at, insert_symbol.
  destruct (decide (addr' = addr)) as [->|Ha].
  - rewrite lookup_insert_eq. simpl.
    destruct (decide (bank' = bank)) as [->|Hb].
    + rewrite lookup_insert_eq. by rewrite decide_True.
    + rewrite lookup_insert_ne by done.
      rewrite decide_False by (intros [_ ?]; done).
      by destruct (symbols !! addr).
  - rewrite lookup_insert_ne by done.
    by rewrite decide_False by (intros [? _]; done).
Qed.

Lemma process_line_entry (e : symbol_entry)
    (symbols : gmap Z (gmap Z string)) :
  well_formed_entry e ->
  Lookups.process_line (entry_line e) symbols
  = ([], Ok (insert_symbol (se_addr e) (se_bank e) (se_name e) symbols)).
Proof.
  intros (Hb & Ha & Hsep & Hsa & Hsn).
  destruct (proj1 (Forall_cons _ _ _) Hsep) as [[Hcb _] Hsep1].
  destruct (proj1 (Forall_cons _ _ _) Hsep1) as [[Hca _] Hsep2].
  destruct (proj1 (Forall_cons _ _ _) Hsep2) as [[Hcn _] _].
  unfold Lookups.process_line, entry_line.
  assert (forall t u : string, ":" +:+ t = String ":"%char t
                               /\ " " +:+ u = String " "%char u) as Hlit.
  { by split. }
  destruct (String.eqb_spec
              (se_bank_text e +:+ ":" +:+ se_addr_text e +:+ " "
               +:+ se_name e) "") as [E|_].
  { destruct (se_bank_text e); discriminate E. }
  change (":" +:+ se_addr_text e +:+ " " +:+ se_name e)
    with (String ":"%char (se_addr_text e +:+ " " +:+ se_name e)).
  rewrite (str_split_app_sep ":"%char _ _ Hcb).
  rewrite (str_split_no_sep ":"%char (se_addr_text e +:+ " " +:+ se_name e)).
  2:{ rewrite count_char_app. change (" " +:+ se_name e)
        with (String " "%char (se_name e)). simpl. rewrite Hca, Hcn. done. }
  simpl. rewrite Hb. simpl.
  change (" " +:+ se_name e) with (String " "%char (se_name e)).
  rewrite (str_split_app_sep " "%char _ _ Hsa).
  rewrite (str_split_no_sep " "%char _ Hsn). simpl. rewrite Ha. reflexivity.
Qed.

(** X8. A well-formed line ["<bank>:<address> <name>"] is loaded
    silently: afterwards the table gives [name] for that address in that
    bank, and gives for every other address and bank what it gave
    before; so a later line replaces an earlier one for the same address
    and bank, and only that one. *)
Theorem symbol_line_insert_lookup (e : symbol_entry)
    (symbols : gmap Z (gmap Z string)) :
  well_formed_entry e ->
  exists symbols',
    Lookups.process_line (entry_line e) symbols = ([], Ok symbols')
    /\ symbol_at symbols' (se_addr e) (se_bank e) = Some (se_name e)
    /\ (forall addr bank,
          ~ (addr = se_addr e /\ bank = se_bank e) ->
          symbol_at symbols' addr bank = symbol_at symbols addr bank)
    /\ (forall (i : gmap Z Instruction.t) (h : gmap Z HardwareConstant.t)
               (c : Cycle.t),
          Cycle.addr c = Some (se_addr e) ->
          Lookups.find_symbol (Lookups.mk symbols' i h) c (se_bank e)
          = Some (se_name e)).
Proof.
  intros Hwf. eexists. split; [by apply process_line_entry|].
  split; [|split].
  - rewrite symbol_at_insert. by rewrite decide_True.
  - intros addr bank Hne. rewrite symbol_at_insert.
    by rewrite decide_False.
  - intros i h c Hc. rewrite (find_symbol_symbol_at _ _ _ _ Hc). simpl.
    rewrite symbol_at_insert. by rewrite decide_True.
Qed.

Lemma symbol_line_insert_lookup_witness :
  exists symbols',
    Lookups.process_line "03:5000 MyFunc" ∅ = ([], Ok symbols')
    /\ symbol_at symbols' 0x5000 0x03 = Some "MyFunc".
Proof.
  destruct (symbol_line_insert_lookup MyFunc_entry ∅)
    as (symbols' & Hload & Hat & _).
  - split; [reflexivity|]. split; [reflexivity|].
    split; [repeat constructor|split; reflexivity].
  - by exists symbols'.
Defined.

Lemma process_lines_entries (es : list symbol_entry) :
  Forall well_formed_entry es ->
  forall symbols,
    Lookups.process_lines (entry_line <$> es) symbols
    = ([], Ok (foldl (fun m e => insert_symbol (se_addr e) (se_bank e)
                                   (se_name e) m) symbols es)).
Proof.
  induction 1 as [|e es He _ IH]; intros symbols; simpl; [done|].
  rewrite (process_line_entry e symbols He). by rewrite IH.
Qed.

Lemma entry_line_no_newline (e : symbol_entry) :
  well_formed_entry e -> count_char "010"%char (entry_line e) = 0%nat.
Proof.
  intros (_ & _ & Hsep & _).
  destruct (proj1 (Forall_cons _ _ _) Hsep) as [[_ Hb] Hsep1].
  destruct (proj1 (Forall_cons _ _ _) Hsep1) as [[_ Ha] Hsep2].
  destruct (proj1 (Forall_cons _ _ _) Hsep2) as [[_ Hn] _].
  unfold entry_line. rewrite !count_char_app, Hb, Ha, Hn. reflexivity.
Qed.

Lemma str_split_unlines (ls : list string) :
  Forall (fun l => count_char "010"%char l = 0%nat) ls -> ls <> [] ->
  str_split "010"%char (unlines ls) = ls.
Proof.
  induction 1 as [|l ls Hl Hls IH]; intros Hne; [done|].
  destruct ls as [|l' ls].
  - simpl. by apply str_split_no_sep.
  - change (unlines (l :: l' :: ls))
      with (l +:+ String "010"%char (unlines (l' :: ls))).
    rewrite (str_split_app_sep "010"%char _ _ Hl). by rewrite IH.
Qed.

(** X9. A symbol file made of well-formed lines loads without output and
    without exception, whatever the argument of [process_raw_symbols]
    is, and the table is the one obtained by inserting the lines in
    order, so the last line for an address and bank wins. *)
Theorem well_formed_file_loads (es : list symbol_entry)
    (raw_symbols : string) :
  Forall well_formed_entry es ->
  Lookups.process_raw_symbols (unlines (entry_line <$> es)) raw_symbols
  = ([], Ok (foldl (fun m e => insert_symbol (se_addr e) (se_bank e)
                                 (se_name e) m) ∅ es)).
Proof.
  intros Hwf. unfold Lookups.process_raw_symbols.
  destruct es as [|e es]; [reflexivity|].
  rewrite str_split_unlines.
  - by apply process_lines_entries.
  - apply Forall_fmap. eapply Forall_impl; [exact Hwf|].
    intros e'. apply entry_line_no_newline.
  - done.
Qed.

Lemma well_formed_file_loads_witness :
  exists symbols,
    Lookups.process_raw_symbols
      (unlines ["03:5000 MyFunc"; "03:5000 Other"]) ""
    = ([], Ok symbols)
    /\ symbol_at symbols 0x5000 0x03 = Some "Other".
Proof.
  eexists. split.
  - apply (well_formed_file_loads
             [MyFunc_entry; SymbolEntry "03" "5000" "Other" 0x03 0x5000]).
    repeat constructor.
  - vm_compute. reflexivity.
Defined.

(* ===================================================================== *)
(** ** The output stream: transactions and bank spans *)
(* ===================================================================== *)

Lemma print_cycles_cls (read : Read.t) (cycles : list Cycle.t) :
  forall (idx : nat) (s s' : Decoder.t),
    Decoder.print_cycles read idx cycles s = Ok s' ->
    exists evs, s' = add_out evs s
                /\ Forall (fun an => is_bank_ann an = false) evs.
Proof.
  induction cycles as [|c cycles IH]; intros idx s s' H; simpl in H.
  - injection H as <-. exists []. by rewrite add_out_nil.
  - inv_result.
    rewrite !put_add_out, add_out_add_out in H.
    destruct (IH _ _ _ H) as (evs & -> & Hall).
    rewrite add_out_add_out. eexists. split; [reflexivity|].
    apply Forall_app_2; [|exact Hall]. by repeat constructor.
Qed.

Lemma print_read_cls (read : Read.t) (s s' : Decoder.t) :
  Decoder.print_read read s = Ok s' ->
  exists evs, s' = add_out evs s
              /\ Forall (fun an => is_bank_ann an = false) evs.
Proof.
  unfold Decoder.print_read. intros H.
  apply bind_Ok_inv in H as (s1 & H1 & H).
  apply bind_Ok_inv in H as (s2 & H2 & H).
  apply print_cycles_cls in H1 as (evs0 & -> & Hall).
  assert (exists evs1, s2 = add_out (evs0 ++ evs1) s
                       /\ Forall (fun an => is_bank_ann an = false) evs1)
    as (evs1 & -> & Hall1).
  { destruct (truthy_str (Read.symbol read)); inv_result; subst.
    - rewrite put_add_out, add_out_add_out. eexists.
      split; [reflexivity|]. by repeat constructor.
    - exists []. by rewrite app_nil_r. }
  assert (exists evs2, s' = add_out ((evs0 ++ evs1) ++ evs2) s
                       /\ Forall (fun an => is_bank_ann an = false) evs2)
    as (evs2 & -> & Hall2).
  { destruct (Read.instruction read); inv_result; subst.
    - rewrite put_add_out, add_out_add_out. eexists.
      split; [reflexivity|]. by repeat constructor.
    - exists []. by rewrite app_nil_r. }
  eexists. split; [reflexivity|]. by repeat apply Forall_app_2.
Qed.

Lemma print_write_cls (w : Write.t) (s s' : Decoder.t) :
  Decoder.print_write w s = Ok s' ->
  exists evs, s' = add_out evs s
              /\ Forall (fun an => is_bank_ann an = false) evs.
Proof.
  unfold Decoder.print_write. intros H.
  apply bind_Ok_inv in H as (e & He & H).
  apply bind_Ok_inv in H as (ta & Ha & H).
  apply bind_Ok_inv in H as (td & Hd & H).
  rewrite !put_add_out, !add_out_add_out in H.
  destruct (truthy_str (Write.symbol w)).
  - apply mret_Ok_inv in H. subst s'.
    rewrite ?put_add_out, ?add_out_add_out. eexists.
    split; [reflexivity|]. by repeat constructor.
  - destruct (Write.hardware_const w) as [hc|].
    + rewrite ?put_add_out, ?add_out_add_out in H.
      destruct (Cycle.data (Write.cycle w) ≫= _).
      * apply bind_Ok_inv in H as (ann & _ & H). apply mret_Ok_inv in H.
        subst s'. rewrite ?put_add_out, ?add_out_add_out. eexists.
        split; [reflexivity|]. by repeat constructor.
      * apply mret_Ok_inv in H. subst s'. eexists.
        split; [reflexivity|]. by repeat constructor.
    + apply mret_Ok_inv in H. subst s'. eexists.
      split; [reflexivity|]. by repeat constructor.
Qed.

(** [end_write] puts annotations of the transaction classes only, and
    none when the flag of the filter is down. *)
Lemma end_write_renders (s s' : Decoder.t) :
  Decoder.end_write s = Ok s' ->
  exists txs,
    Decoder.out s' = Decoder.out s ++ txs
    /\ Forall (fun an => is_bank_ann an = false) txs
    /\ (AnnFilter.putting (Decoder.print_player_step s) = false ->
        txs = []).
Proof.
  intros H. unfold Decoder.end_write in H.
  destruct (Decoder.prev_write s) as [w|].
  - apply bind_Ok_inv in H as (s1 & H1 & H). apply mret_Ok_inv in H.
    subst s'. simpl in H1.
    destruct (AnnFilter.putting (Decoder.print_player_step s)).
    + apply print_write_cls in H1 as (evs & -> & Hall).
      exists evs. split; [reflexivity|]. split; [exact Hall|]. done.
    + apply mret_Ok_inv in H1. subst s1. exists [].
      split; [simpl; by rewrite app_nil_r|]. by split.
  - apply mret_Ok_inv in H. subst s'. exists [].
    split; [by rewrite app_nil_r|]. by split.
Qed.

Lemma quiet_collecting (s : Decoder.t) (r : Read.t) :
  quiet s -> Decoder.prev_read s = Some r ->
  collecting (Decoder.print_player_step s) r = false.
Proof.
  intros [Hp Hsym] Hr. unfold collecting. rewrite Hp. simpl.
  apply bool_decide_eq_false_2. by apply Hsym.
Qed.

(** [end_read] puts annotations of the transaction classes only; in a
    quiet state it puts none and leaves the filter as it is. *)
Lemma end_read_renders (lookups : Lookups.t) (s s' : Decoder.t) :
  Decoder.end_read lookups s = Ok s' ->
  exists txs,
    Decoder.out s' = Decoder.out s ++ txs
    /\ Forall (fun an => is_bank_ann an = false) txs
    /\ (quiet s ->
        txs = []
        /\ Decoder.print_player_step s' = Decoder.print_player_step s).
Proof.
  intros H. destruct (Decoder.prev_read s) as [r|] eqn:Hprev.
  - destruct (collecting (Decoder.print_player_step s) r) eqn:Hc.
    + unfold Decoder.end_read in H. rewrite Hprev in H.
      apply bind_Ok_inv in H as (r' & Hr' & H).
      apply Read_end_frame in Hr' as (_ & Hsym & _).
      apply bind_Ok_inv in H as (s1 & H1 & H). apply mret_Ok_inv in H.
      subst s'. unfold Decoder.check_player_step in H1.
      rewrite check_spec in H1. simpl in H1.
      rewrite (collecting_ext _ _ _ Hsym), Hc in H1.
      apply bind_Ok_inv in H1 as ([f s2] & H2 & H1).
      apply bind_Ok_inv in H2 as (s3 & H3 & H2).
      injection H2 as <- <-. apply mret_Ok_inv in H1. subst s1.
      apply print_read_cls in H3 as (evs & -> & Hall).
      exists evs. split; [reflexivity|]. split; [exact Hall|].
      intros Hq. rewrite (quiet_collecting s r Hq Hprev) in Hc.
      discriminate Hc.
    + destruct (end_read_spec lookups s s' r Hprev H) as (r' & _ & Hs).
      rewrite Hc in Hs. subst s'. exists [].
      split; [simpl; by rewrite app_nil_r|]. by split.
  - unfold Decoder.end_read in H. rewrite Hprev in H.
    apply mret_Ok_inv in H. subst s'. exists [].
    split; [by rewrite app_nil_r|]. by split.
Qed.

Lemma switch_span_None (c : Ann) (prev : option Bank.t) :
  switch_span c prev None = [].
Proof. by destruct prev. Qed.

(** [read] puts what [end_read] puts. *)
Lemma read_renders (lookups : Lookups.t) (s s' : Decoder.t)
    (pins : list Z) :
  Decoder.read lookups s pins = Ok s' ->
  exists txs,
    Decoder.out s' = Decoder.out s ++ txs
    /\ Forall (fun an => is_bank_ann an = false) txs
    /\ (quiet s ->
        txs = []
        /\ Decoder.print_player_step s' = Decoder.print_player_step s).
Proof.
  intros H. unfold Decoder.read in H.
  assert (exists txs : list annotation,
            Decoder.out s = Decoder.out s ++ txs
            /\ Forall (fun an => is_bank_ann an = false) txs
            /\ (quiet s ->
                txs = []
                /\ Decoder.print_player_step s
                   = Decoder.print_player_step s)) as Hsame.
  { exists []. split; [by rewrite app_nil_r|]. by split. }
  destruct (Decoder.prev_read s) as [r|] eqn:Hprev.
  - destruct (Read.state r).
    + apply mret_Ok_inv in H. by subst s'.
    + apply bind_Ok_inv in H as (r' & _ & H). apply mret_Ok_inv in H.
      by subst s'.
    + apply bind_Ok_inv in H as (s1 & H1 & H).
      apply bind_Ok_inv in H as (r' & _ & H). apply mret_Ok_inv in H.
      subst s'. apply end_read_renders in H1. exact H1.
  - apply bind_Ok_inv in H as (r' & _ & H). apply mret_Ok_inv in H.
    by subst s'.
Qed.

(** [write] at sample [n]: what [end_write] puts for the write that was
    open, then the span of the bank that was selected if the new write is
    to one of the two bank registers; the selected banks afterwards. *)
Lemma write_spans (symbols : gmap Z (gmap Z string)) (s s' : Decoder.t)
    (pins : list Z) (n : Z) :
  Decoder.samplenum s = Some n ->
  Decoder.write (lookups_of symbols) s pins = Ok s' ->
  exists txs a d,
    bus_addr pins = Ok a /\ bus_data pins = Ok d
    /\ Forall (fun an => is_bank_ann an = false) txs
    /\ (AnnFilter.putting (Decoder.print_player_step s) = false ->
        txs = [])
    /\ Decoder.out s'
       = Decoder.out s ++ txs
         ++ switch_span ROM_BANK (Decoder.prev_rom_bank s)
              (switch_at 0x2000 n a d)
         ++ switch_span SRAM_BANK (Decoder.prev_sram_bank s)
              (switch_at 0x4000 n a d)
    /\ Decoder.prev_rom_bank s'
       = switch_bank "ROM Bank: " (Decoder.prev_rom_bank s)
           (switch_at 0x2000 n a d)
    /\ Decoder.prev_sram_bank s'
       = switch_bank "SRAM Bank: " (Decoder.prev_sram_bank s)
           (switch_at 0x4000 n a d)
    /\ Decoder.print_player_step s' = Decoder.print_player_step s.
Proof.
  intros Hn H. unfold Decoder.write in H.
  apply bind_Ok_inv in H as (s1 & H1 & H).
  assert (exists txs,
            Decoder.out s1 = Decoder.out s ++ txs
            /\ Forall (fun an => is_bank_ann an = false) txs
            /\ (AnnFilter.putting (Decoder.print_player_step s) = false ->
                txs = [])
            /\ Decoder.print_player_step s1 = Decoder.print_player_step s
            /\ same_context s s1)
    as (txs & Hout & Htx & Hq & Hf & Hsn & Hrom & Hsram).
  { destruct (Decoder.prev_write s).
    - destruct (end_write_renders _ _ H1) as (txs & Ho & Ht & Hq).
      apply end_write_frame in H1 as (_ & _ & Hf & Hctx).
      by exists txs.
    - apply mret_Ok_inv in H1. subst s1. exists [].
      split; [by rewrite app_nil_r|]. by repeat split. }
  apply bind_Ok_inv in H as (w & Hw & H).
  apply Write_new_characterized in Hw
    as (a & Ha & Hd & _ & Hisrom & Hissram & _).
  exists txs, (Some a), (Cycle.data (Write.cycle w)).
  split; [exact Ha|]. split; [exact Hd|]. split; [exact Htx|].
  split; [exact Hq|].
  rewrite Hisrom, Hissram in H. rewrite <- Hrom, <- Hsram, <- Hf.
  assert (Decoder.samplenum s1 = Some n) as Hn1 by congruence.
  destruct (Z.eqb_spec a 0x2000) as [E|Hne].
  - subst a. unfold Decoder.switch_rom in H.
    apply bind_Ok_inv in H as (bank & Hbank & H). apply mret_Ok_inv in H.
    destruct (Cycle.data (Write.cycle w)) as [d|]; [|discriminate].
    injection Hbank as ->. subst s'.
    change (switch_at 0x2000 n (Some 0x2000) (Some bank))
      with (Some (n, bank)).
    change (switch_at 0x4000 n (Some 0x2000) (Some bank))
      with (@None (Z * Z)).
    rewrite switch_span_None, app_nil_r. simpl.
    destruct (Decoder.prev_rom_bank s1) as [b|]; simpl; rewrite Hn1, Hout.
    + rewrite <- app_assoc. by repeat split.
    + rewrite app_nil_r. by repeat split.
  - destruct (Z.eqb_spec a 0x4000) as [E|Hne'].
    + subst a. unfold Decoder.switch_sram in H.
      apply bind_Ok_inv in H as (bank & Hbank & H). apply mret_Ok_inv in H.
      destruct (Cycle.data (Write.cycle w)) as [d|]; [|discriminate].
      injection Hbank as ->. subst s'.
      change (switch_at 0x2000 n (Some 0x4000) (Some bank))
        with (@None (Z * Z)).
      change (switch_at 0x4000 n (Some 0x4000) (Some bank))
        with (Some (n, bank)).
      rewrite switch_span_None, app_nil_l. simpl.
      destruct (Decoder.prev_sram_bank s1) as [b|]; simpl;
        rewrite Hn1, Hout.
      * rewrite <- app_assoc. by repeat split.
      * rewrite app_nil_r. by repeat split.
    + apply mret_Ok_inv in H. subst s'.
      assert (switch_at 0x2000 n (Some a) (Cycle.data (Write.cycle w))
              = None) as ->.
      { unfold switch_at. destruct (Cycle.data (Write.cycle w)); [|done].
        by destruct (Z.eqb_spec a 0x2000). }
      assert (switch_at 0x4000 n (Some a) (Cycle.data (Write.cycle w))
              = None) as ->.
      { unfold switch_at. destruct (Cycle.data (Write.cycle w)); [|done].
        by destruct (Z.eqb_spec a 0x4000). }
      rewrite !switch_span_None, !app_nil_r. simpl. rewrite Hout.
      by repeat split.
Qed.

Lemma bank_switch_of_write (reg : Z) (ev : event) (a d : option Z) :
  ev_matched ev = Match.START_WRITE ->
  bus_addr (ev_pins ev) = Ok a -> bus_data (ev_pins ev) = Ok d ->
  bank_switch_of reg ev = switch_at reg (ev_samplenum ev) a d.
Proof. intros Hm Ha Hd. unfold bank_switch_of. by rewrite Hm, Ha, Hd. Qed.

Lemma bank_switch_of_other (reg : Z) (ev : event) :
  ev_matched ev <> Match.START_WRITE -> bank_switch_of reg ev = None.
Proof.
  intros Hm. unfold bank_switch_of.
  by destruct (Z.eqb_spec (ev_matched ev) Match.START_WRITE).
Qed.

(** One edge: the transaction annotations of what it closes, then the
    span of the bank it replaces, if it is a write to a bank register.
    In a quiet state no transaction annotation is put and the filter
    stays as it is. *)
Lemma decode_iter_spans (symbols : gmap Z (gmap Z string))
    (s s' : Decoder.t) (ev : event) :
  Decoder.decode_iter (lookups_of symbols) s ev = Ok s' ->
  exists txs,
    Forall (fun an => is_bank_ann an = false) txs
    /\ (quiet s ->
        txs = []
        /\ Decoder.print_player_step s' = Decoder.print_player_step s)
    /\ Decoder.out s'
       = Decoder.out s ++ txs
         ++ switch_span ROM_BANK (Decoder.prev_rom_bank s)
              (bank_switch_of 0x2000 ev)
         ++ switch_span SRAM_BANK (Decoder.prev_sram_bank s)
              (bank_switch_of 0x4000 ev)
    /\ Decoder.prev_rom_bank s'
       = switch_bank "ROM Bank: " (Decoder.prev_rom_bank s)
           (bank_switch_of 0x2000 ev)
    /\ Decoder.prev_sram_bank s'
       = switch_bank "SRAM Bank: " (Decoder.prev_sram_bank s)
           (bank_switch_of 0x4000 ev).
Proof.
  intros H. apply decode_iter_Ok in H as (Hlen & [H|[H|H]]).
  - destruct H as (Hm & s1 & H1 & H2).
    assert (ev_matched ev <> Match.START_WRITE) as Hnw.
    { rewrite Hm. discriminate. }
    rewrite !(bank_switch_of_other _ _ Hnw), !switch_span_None.
    destruct (end_write_renders _ _ H1) as (t1 & Ho1 & Ht1 & Hq1).
    apply end_write_frame in H1 as (_ & Hr1 & Hf1 & _ & Hrom1 & Hsram1).
    destruct (read_renders _ _ _ _ H2) as (t2 & Ho2 & Ht2 & Hq2).
    apply read_spec in H2 as (_ & (_ & Hrom2 & Hsram2) & _).
    simpl in Ho1, Hr1, Hf1, Hrom1, Hsram1.
    exists (t1 ++ t2). split; [by apply Forall_app_2|]. split; [|split].
    + intros [Hp Hsym].
      rewrite (Hq1 Hp). destruct Hq2 as [-> Hf2].
      { split; [by rewrite Hf1|]. intros r Hr. rewrite Hf1.
        apply Hsym. by rewrite <- Hr1. }
      split; [done|]. by rewrite Hf2.
    + rewrite Ho2, Ho1, !app_nil_r. by rewrite app_assoc.
    + simpl. split; congruence.
  - destruct H as (Hm & s1 & H1 & H2).
    destruct (end_read_renders _ _ _ H1) as (t1 & Ho1 & Ht1 & Hq1).
    apply end_read_frame in H1 as (_ & _ & Hsn1 & Hrom1 & Hsram1).
    simpl in Ho1, Hsn1, Hrom1, Hsram1.
    destruct (write_spans symbols s1 s' (ev_pins ev) (ev_samplenum ev)
                Hsn1 H2)
      as (t2 & a & d & Ha & Hd & Ht2 & Hq2 & Ho2 & Hrom2 & Hsram2 & Hf2).
    rewrite !(bank_switch_of_write _ _ _ _ Hm Ha Hd).
    exists (t1 ++ t2). split; [by apply Forall_app_2|]. split; [|split].
    + intros Hq. destruct (Hq1 Hq) as [-> Hf1]. simpl in Hf1.
      rewrite Hq2; [split; [done|congruence]|].
      rewrite Hf1. apply Hq.
    + rewrite Ho2, Ho1, Hrom1, Hsram1. by rewrite <- !app_assoc.
    + rewrite Hrom2, Hsram2, Hrom1, Hsram1. done.
  - destruct H as (_ & Hnw & ->).
    rewrite !(bank_switch_of_other _ _ Hnw), !switch_span_None.
    exists []. simpl. rewrite app_nil_r. by repeat split.
Qed.

(** A fresh Read carries no symbol or one the table holds. *)
Lemma Read_new_symbol (symbols : gmap Z (gmap Z string)) (sn : samplenum_t)
    (pins : list Z) (bank : Z) (r : Read.t) :
  Read.new sn pins bank (lookups_of symbols) = Ok r ->
  Read.symbol r = None
  \/ exists a b, Read.symbol r = symbol_at symbols a b.
Proof.
  intros H. pose proof H as H0. unfold Read.new in H.
  apply bind_Ok_inv in H as (c & Hc & H).
  apply bind_Ok_inv in H as (a & Ha & _).
  apply Cycle_new_Ok in Hc as (Hba & Hbd & _).
  destruct (Cycle.addr c) as [a'|]; [|discriminate]. injection Ha as ->.
  destruct (Read_new_by_window (lookups_of symbols) sn pins bank a _
              Hba Hbd)
    as (r0 & c0 & Hr0 & _ & Hca & _ & Hout & Hrom0 & Hromx & _).
  rewrite H0 in Hr0. injection Hr0 as <-.
  destruct (in_rom_window a) eqn:Hwin.
  - right. unfold in_rom_window in Hwin.
    apply orb_true_iff in Hwin as [Hw|Hw];
      apply andb_true_iff in Hw as [H1 H2];
      apply Z.leb_le in H1; apply Z.leb_le in H2.
    + destruct (Hrom0 (conj H1 H2)) as [_ ->]. exists a, 0.
      exact (find_symbol_symbol_at _ _ _ _ Hca).
    + destruct (Hromx (conj H1 H2)) as [_ ->]. exists a, bank.
      exact (find_symbol_symbol_at _ _ _ _ Hca).
  - left. by destruct (Hout eq_refl) as (_ & -> & _).
Qed.

(** If the table does not hold the name, no Read ever carries it. *)
Lemma decode_iter_symbol (symbols : gmap Z (gmap Z string))
    (name : string) (s s' : Decoder.t) (ev : event) :
  (forall a b, symbol_at symbols a b <> Some name) ->
  (forall r, Decoder.prev_read s = Some r -> Read.symbol r <> Some name) ->
  Decoder.decode_iter (lookups_of symbols) s ev = Ok s' ->
  forall r, Decoder.prev_read s' = Some r -> Read.symbol r <> Some name.
Proof.
  intros Htab Hsym H. apply decode_iter_Ok in H as (_ & [H|[H|H]]).
  - destruct H as (_ & s1 & H1 & H2).
    apply end_write_frame in H1 as (_ & Hr1 & _). simpl in Hr1.
    apply read_spec in H2 as (_ & _ & Hout).
    intros r Hr. destruct Hout as [r1 _ Hnew Hp|r0 r1 Hp0 _ Hnext Hp|r0 Hp0 _ Hp].
    + rewrite Hp in Hr. injection Hr as <-.
      apply Read_new_symbol in Hnew as [->|(a & b & ->)]; [done|apply Htab].
    + rewrite Hp in Hr. injection Hr as <-.
      apply Read_next_cycles in Hnext as (_ & _ & -> & _).
      apply Hsym. by rewrite <- Hr1.
    + rewrite Hp in Hr. injection Hr as <-. apply Hsym. by rewrite <- Hr1.
  - destruct H as (_ & s1 & H1 & H2).
    apply end_read_frame in H1 as (Hr1 & _).
    apply write_spec in H2 as (Hr2 & _).
    intros r Hr. congruence.
  - destruct H as (_ & _ & ->). exact Hsym.
Qed.

Lemma anns_of_app (c : Ann) (l1 l2 : list annotation) :
  anns_of c (l1 ++ l2) = anns_of c l1 ++ anns_of c l2.
Proof. apply filter_app. Qed.

Lemma anns_of_tx (c : Ann) (txs : list annotation) :
  c = ROM_BANK \/ c = SRAM_BANK ->
  Forall (fun an => is_bank_ann an = false) txs -> anns_of c txs = [].
Proof.
  intros Hc. induction 1 as [|an txs Han _ IH]; [done|].
  unfold anns_of. rewrite filter_cons_False; [exact IH|].
  unfold is_bank_ann in Han. intros E. rewrite E in Han.
  by destruct Hc as [->| ->].
Qed.

Lemma anns_of_switch_span (c c' : Ann) (prev : option Bank.t)
    (sw : option (Z * Z)) :
  anns_of c (switch_span c' prev sw)
  = if decide (c' = c) then switch_span c' prev sw else [].
Proof.
  destruct prev as [b|], sw as [x|]; simpl; try by destruct (decide _).
  unfold anns_of. destruct (decide (c' = c)) as [E|E].
  - by rewrite filter_cons_True.
  - by rewrite filter_cons_False.
Qed.

Lemma bank_spans_snoc (c : Ann) (prefix : string) (sws : list (Z * Z))
    (sw : Z * Z) :
  bank_spans c prefix (sws ++ [sw])
  = bank_spans c prefix sws
    ++ switch_span c (bank_of prefix <$> last sws) (Some sw).
Proof.
  induction sws as [|x sws IH]; [done|].
  destruct sws as [|y sws]; [done|].
  change (bank_spans c prefix ((x :: y :: sws) ++ [sw]))
    with (Annotation (Some x.1) (Some y.1) c [prefix +:+ format_0X 2 x.2]
          :: bank_spans c prefix ((y :: sws) ++ [sw])).
  rewrite IH. reflexivity.
Qed.

Lemma Spans_inv_step (c : Ann) (prefix : string) (sws : list (Z * Z))
    (out pre post : list annotation) (prev : option Bank.t)
    (sw : option (Z * Z)) :
  Spans_inv c prefix sws out prev ->
  anns_of c pre = [] -> anns_of c post = [] ->
  Spans_inv c prefix
    (match sw with Some x => sws ++ [x] | None => sws end)
    (out ++ pre ++ switch_span c prev sw ++ post)
    (switch_bank prefix prev sw).
Proof.
  intros [Ho Hp] Hpre Hpost. unfold Spans_inv.
  rewrite !anns_of_app, Hpre, Hpost, app_nil_r, app_nil_l.
  rewrite anns_of_switch_span, decide_True by done.
  destruct sw as [x|].
  - rewrite bank_spans_snoc, last_snoc, Ho, Hp. done.
  - rewrite switch_span_None, app_nil_r. done.
Qed.

Lemma decode_spans (symbols : gmap Z (gmap Z string)) (evs : list event) :
  forall (s s' : Decoder.t) (roms srams : list (Z * Z)),
    Spans_inv ROM_BANK "ROM Bank: " roms
      (Decoder.out s) (Decoder.prev_rom_bank s) ->
    Spans_inv SRAM_BANK "SRAM Bank: " srams
      (Decoder.out s) (Decoder.prev_sram_bank s) ->
    Decoder.decode (lookups_of symbols) s evs = Ok s' ->
    Spans_inv ROM_BANK "ROM Bank: "
      (roms ++ omap (bank_switch_of 0x2000) evs)
      (Decoder.out s') (Decoder.prev_rom_bank s')
    /\ Spans_inv SRAM_BANK "SRAM Bank: "
         (srams ++ omap (bank_switch_of 0x4000) evs)
         (Decoder.out s') (Decoder.prev_sram_bank s').
Proof.
  induction evs as [|ev evs IH]; intros s s' roms srams Hrom Hsram H.
  - simpl in H. injection H as <-. by rewrite !app_nil_r.
  - simpl in H. apply bind_Ok_inv in H as (s1 & H1 & H).
    destruct (decode_iter_spans _ _ _ _ H1)
      as (txs & Htx & _ & Ho & Hr & Hs).
    assert (forall (f : event -> option (Z * Z)) (l : list (Z * Z)),
              l ++ omap f (ev :: evs)
              = match f ev with Some x => l ++ [x] | None => l end
                ++ omap f evs) as Hsplit.
    { intros f l. simpl. destruct (f ev); [|done].
      by rewrite <- app_assoc. }
    rewrite !Hsplit. apply (IH s1 s'); [| |exact H].
    + rewrite Ho, Hr. apply Spans_inv_step; [exact Hrom| |].
      * apply anns_of_tx; [by left|exact Htx].
      * by rewrite anns_of_switch_span, decide_False.
    + rewrite Ho, Hs, (app_assoc txs).
      rewrite <- (app_nil_r (switch_span SRAM_BANK _ _)).
      apply Spans_inv_step; [exact Hsram| |done].
      rewrite anns_of_app, anns_of_switch_span, decide_False by done.
      rewrite app_nil_r. apply anns_of_tx; [by right|exact Htx].
Qed.

(** X10. In a capture decoded from [start], the annotations of class
    [ROM_BANK] are, in order, one span per write to the register [0x2000]
    but the last: from the sample of the write to the sample of the next
    one, labelled with the byte written, whatever the range filter does.
    So nothing is put for the bank in force before the first write, and
    the span of the last bank selected is never put; that bank is the
    one kept as selected.  The same holds of class [SRAM_BANK] and the
    register [0x4000]. *)
Theorem bank_spans_put (symbols : gmap Z (gmap Z string))
    (evs : list event) (s' : Decoder.t) :
  Decoder.decode (lookups_of symbols) Decoder.start evs = Ok s' ->
  anns_of ROM_BANK (Decoder.out s')
  = bank_spans ROM_BANK "ROM Bank: " (omap (bank_switch_of 0x2000) evs)
  /\ Decoder.prev_rom_bank s'
     = bank_of "ROM Bank: " <$> last (omap (bank_switch_of 0x2000) evs)
  /\ anns_of SRAM_BANK (Decoder.out s')
     = bank_spans SRAM_BANK "SRAM Bank: "
         (omap (bank_switch_of 0x4000) evs)
  /\ Decoder.prev_sram_bank s'
     = bank_of "SRAM Bank: " <$> last (omap (bank_switch_of 0x4000) evs).
Proof.
  intros H.
  destruct (decode_spans symbols evs Decoder.start s' [] [])
    as [[H1 H2] [H3 H4]]; [by split|by split|exact H|].
  by repeat split.
Qed.

Lemma bank_spans_put_witness :
  exists s',
    Decoder.decode (lookups_of ∅) Decoder.start two_rom_switches = Ok s'
    /\ anns_of ROM_BANK (Decoder.out s')
       = [Annotation (Some 1) (Some 4) ROM_BANK ["ROM Bank: 03"]]
    /\ Decoder.rom_bank s' = 0x05.
Proof.
  assert (exists s', Decoder.decode (lookups_of ∅) Decoder.start
                       two_rom_switches = Ok s') as [s' Hd].
  { eexists. vm_compute. reflexivity. }
  exists s'. split; [exact Hd|].
  destruct (bank_spans_put ∅ two_rom_switches s' Hd) as (Ho & Hb & _).
  split.
  - rewrite Ho. vm_compute. reflexivity.
  - unfold Decoder.rom_bank. rewrite Hb. vm_compute. reflexivity.
Defined.

Lemma decode_quiet (symbols : gmap Z (gmap Z string)) (evs : list event) :
  (forall a b, symbol_at symbols a b <> Some "UpdatePlayerCoords") ->
  forall (s s' : Decoder.t),
    Decoder.print_player_step s = Decoder.print_player_step Decoder.start ->
    (forall r, Decoder.prev_read s = Some r ->
               Read.symbol r <> Some "UpdatePlayerCoords") ->
    Forall (fun an => is_bank_ann an = true) (Decoder.out s) ->
    Decoder.decode (lookups_of symbols) s evs = Ok s' ->
    Decoder.print_player_step s' = Decoder.print_player_step Decoder.start
    /\ Forall (fun an => is_bank_ann an = true) (Decoder.out s').
Proof.
  intros Htab.
  induction evs as [|ev evs IH]; intros s s' Hf Hsym Hout H.
  - simpl in H. injection H as <-. by split.
  - simpl in H. apply bind_Ok_inv in H as (s1 & H1 & H).
    destruct (decode_iter_spans _ _ _ _ H1)
      as (txs & _ & Hq & Ho & _).
    destruct Hq as [-> Hf1].
    { split; rewrite Hf; [reflexivity|exact Hsym]. }
    apply (IH s1 s'); [congruence| | |exact H]; clear IH.
    + exact (decode_iter_symbol symbols _ s s1 ev Htab Hsym H1).
    + rewrite Ho. simpl. apply Forall_app_2; [exact Hout|].
      apply Forall_app_2.
      * destruct (Decoder.prev_rom_bank s), (bank_switch_of 0x2000 ev);
          by repeat constructor.
      * destruct (Decoder.prev_sram_bank s), (bank_switch_of 0x4000 ev);
          by repeat constructor.
Qed.

(** X11. If the symbol table holds the start symbol of the range filter,
    ["UpdatePlayerCoords"], at no address and in no bank, then decoding a
    capture from [start] never raises the flag of the filter and puts no
    annotation of a Read or of a Write: the output holds bank spans
    only. *)
Theorem no_start_symbol_no_transaction (symbols : gmap Z (gmap Z string))
    (evs : list event) (s' : Decoder.t) :
  (forall a b, symbol_at symbols a b <> Some "UpdatePlayerCoords") ->
  Decoder.decode (lookups_of symbols) Decoder.start evs = Ok s' ->
  AnnFilter.putting (Decoder.print_player_step s') = false
  /\ Forall (fun an => is_bank_ann an = true) (Decoder.out s').
Proof.
  intros Htab H.
  destruct (decode_quiet symbols evs Htab Decoder.start s')
    as [Hf Hout]; [done|done|constructor|exact H|].
  split; [by rewrite Hf|exact Hout].
Qed.

Lemma no_start_symbol_no_transaction_witness :
  exists s',
    Decoder.decode (lookups_of MyFunc_symbols) Decoder.start
      (two_rom_switches ++ call_nn_reads) = Ok s'
    /\ Forall (fun an => is_bank_ann an = true) (Decoder.out s').
Proof.
  assert (exists s', Decoder.decode (lookups_of MyFunc_symbols)
                       Decoder.start (two_rom_switches ++ call_nn_reads)
                     = Ok s') as [s' Hd].
  { eexists. vm_compute. reflexivity. }
  exists s'. split; [exact Hd|].
  apply (no_start_symbol_no_transaction MyFunc_symbols
           (two_rom_switches ++ call_nn_reads) s'); [|exact Hd].
  intros a b Hs. unfold symbol_at, MyFunc_symbols in Hs.
  apply bind_Some in Hs as (banks & H1 & H2).
  apply lookup_singleton_Some in H1 as [_ <-].
  apply lookup_singleton_Some in H2 as [_ E]. discriminate E.
Defined.


(* ===================================================================== *)
(** ** The annotations of a rendered Read *)
(* ===================================================================== *)

Lemma print_cycles_tile (read : Read.t) (e : samplenum_t) :
  Read.end_sample read = Some e ->
  forall (cycles pre : list Cycle.t) (s : Decoder.t),
    Read.cycles read = pre ++ cycles ->
    Forall cycle_driven cycles ->
    Decoder.print_cycles read (length pre) cycles s
    = Ok (add_out (cycle_anns e cycles) s).
Proof.
  intros He. induction cycles as [|c rest IH]; intros pre s Hcy Hall.
  - simpl. by rewrite add_out_nil.
  - inversion Hall as [|? ? [[a Ha] [d Hd]] Hrest]; subst.
    assert (Read.get_sub_end_sample read (length pre)
            = Ok (match rest with
                  | c' :: _ => Cycle.sample c'
                  | [] => e
                  end)) as Hsub.
    { unfold Read.get_sub_end_sample. rewrite Hcy, length_app.
      destruct rest as [|c' rest'].
      - destruct (Z.ltb_spec (Z.of_nat (length pre))
                    (Z.of_nat (length pre + length [c]) - 1))
          as [Hlt|_]; [simpl in Hlt; lia|].
        by rewrite He.
      - destruct (Z.ltb_spec (Z.of_nat (length pre))
                    (Z.of_nat (length pre + length (c :: c' :: rest')) - 1))
          as [_|Hge]; [|simpl in Hge; lia].
        unfold getitem. rewrite lookup_app_r by lia.
        replace (S (length pre) - length pre)%nat with 1%nat by lia.
        reflexivity. }
    simpl Decoder.print_cycles. rewrite Hsub. simpl. rewrite Ha, Hd. simpl.
    specialize (IH (pre ++ [c])). rewrite length_app in IH. simpl in IH.
    rewrite Nat.add_1_r in IH.
    rewrite IH; [|by rewrite <- app_assoc|exact Hrest].
    rewrite !put_add_out, !add_out_add_out. reflexivity.
Qed.

(** X12. A Read that has been ended at [e] and whose cycles were sampled
    on driven buses is rendered without exception.  Its cycles tile it:
    the address and the data annotation of each cycle run from the
    sample of that cycle to the sample of the next one, and those of the
    last cycle to [e].  Whatever else is put for the Read, a symbol or
    an instruction, spans the whole Read. *)
Theorem rendered_cycles_tile_the_read (read : Read.t) (e : samplenum_t)
    (s : Decoder.t) :
  Read.end_sample read = Some e ->
  Forall cycle_driven (Read.cycles read) ->
  exists s' rest,
    Decoder.print_read read s = Ok s'
    /\ Decoder.out s'
       = Decoder.out s ++ cycle_anns e (Read.cycles read) ++ rest
    /\ Forall (fun an => (cls an = SYM \/ cls an = CODE)
                         /\ ss an = Read.start_sample read /\ es an = e)
         rest.
Proof.
  intros He Hall. unfold Decoder.print_read.
  pose proof (print_cycles_tile read e He (Read.cycles read) [] s eq_refl
                Hall) as Hcy.
  simpl in Hcy. rewrite Hcy. clear Hcy.
  set (sym := if truthy_str (Read.symbol read)
              then [Annotation (Read.start_sample read) e SYM
                      [default "" (Read.symbol read)]]
              else []).
  set (code := match Read.instruction read with
               | Some inst =>
                   [Annotation (Read.start_sample read) e CODE
                      [default (Instruction.ann inst)
                         (Read.special_ann read)]]
               | None => []
               end).
  exists (add_out (cycle_anns e (Read.cycles read) ++ sym ++ code) s),
    (sym ++ code).
  split; [|split; [reflexivity|]].
  - subst sym code. simpl. rewrite He. simpl.
    destruct (truthy_str (Read.symbol read)); simpl;
      destruct (Read.instruction read) as [inst|] eqn:Hi;
      unfold Read.get_instruction_ann; rewrite ?Hi;
      destruct (Read.special_ann read); simpl;
      rewrite ?put_add_out, ?add_out_add_out, <- ?app_assoc, ?app_nil_r;
      reflexivity.
  - subst sym code. apply Forall_app_2.
    + destruct (truthy_str (Read.symbol read)); [|constructor].
      constructor; [|constructor]. split; [by left|by split].
    + destruct (Read.instruction read); [|constructor].
      constructor; [|constructor]. split; [by right|by split].
Qed.

Lemma rendered_cycles_tile_the_read_witness :
  exists s',
    Decoder.print_read
      (Read.set_end_sample (Some 9) None call_nn_read)
      Decoder.start = Ok s'
    /\ exists rest,
        Decoder.out s'
        = cycle_anns (Some 9) (Read.cycles call_nn_read) ++ rest.
Proof.
  destruct (rendered_cycles_tile_the_read
              (Read.set_end_sample (Some 9) None call_nn_read)
              (Some 9) Decoder.start)
    as (s' & rest & H & Ho & _).
  - reflexivity.
  - repeat constructor; by eexists.
  - exists s'. split; [exact H|]. exists rest. exact Ho.
Defined.


(* ===================================================================== *)
(** ** Numbers as the decoder prints them, read back by the symbol load *)
(* ===================================================================== *)

Lemma hex_digit_upper_ok (d : Z) :
  0 <= d < 16 ->
  is_upper_hex (hex_digit_upper d) = true
  /\ hex_value (hex_digit_upper d) = Some d.
Proof.
  intros Hd.
  assert (d = 0 \/ d = 1 \/ d = 2 \/ d = 3 \/ d = 4 \/ d = 5 \/ d = 6
          \/ d = 7 \/ d = 8 \/ d = 9 \/ d = 10 \/ d = 11 \/ d = 12
          \/ d = 13 \/ d = 14 \/ d = 15) as Hc by lia.
  repeat (destruct Hc as [->|Hc]; [by vm_compute|]).
  subst d. by vm_compute.
Qed.

Lemma upper_hex_char (c : ascii) :
  is_upper_hex c = true ->
  is_space c = false
  /\ Ascii.eqb c "_" = false /\ Ascii.eqb c ":" = false
  /\ Ascii.eqb c " " = false /\ Ascii.eqb c "010" = false
  /\ Ascii.eqb c "x" = false /\ Ascii.eqb c "X" = false
  /\ forall s, skip_sign (String c s) = (1, String c s).
Proof.
  destruct c as [[] [] [] [] [] [] [] []]; intros H;
    try discriminate H; by repeat split.
Qed.

Lemma not_underscore {A} (c : ascii) (x y : A) :
  Ascii.eqb c "_" = false ->
  match c with "_"%char => x | _ => y end = y.
Proof.
  destruct c as [[] [] [] [] [] [] [] []]; intros H;
    try discriminate H; reflexivity.
Qed.

Lemma scan_hex_all (s : string) :
  all_upper_hex s = true ->
  forall (any : bool) (acc : Z),
    scan_hex s false any acc
    = Some (hex_val s acc,
            match s with EmptyString => any | _ => true end, "").
Proof.
  induction s as [|c s IH]; intros Hs any acc; [done|].
  simpl in Hs. apply andb_true_iff in Hs as [Hc Hs].
  destruct (upper_hex_char c Hc) as (_ & Hu & _).
  simpl. rewrite Hu. unfold is_upper_hex in Hc.
  destruct (hex_value c) as [d|]; [|discriminate]. simpl.
  rewrite (IH Hs). by destruct s.
Qed.

Lemma skip_0x_all (s : string) :
  all_upper_hex s = true -> skip_0x s = s.
Proof.
  destruct s as [|c [|x s]]; [done| |].
  - intros _. by destruct c as [[] [] [] [] [] [] [] []].
  - intros Hs. simpl in Hs. apply andb_true_iff in Hs as [Hc Hs].
    apply andb_true_iff in Hs as [Hx _].
    destruct (upper_hex_char x Hx) as (_ & _ & _ & _ & _ & Hx1 & Hx2 & _).
    destruct c as [[] [] [] [] [] [] [] []]; try discriminate Hc;
      simpl; rewrite ?Hx1, ?Hx2; reflexivity.
Qed.

Lemma hex_upper_aux_val (fuel : nat) :
  forall (n : Z) (acc : string),
    0 <= n < 16 ^ Z.of_nat fuel ->
    hex_val (hex_upper_aux fuel n acc) 0 = hex_val acc n.
Proof.
  induction fuel as [|fuel IH]; intros n acc Hn.
  - simpl in *. by replace n with 0 by lia.
  - rewrite Nat2Z.inj_succ, Z.pow_succ_r in Hn by lia.
    assert (0 <= n mod 16 < 16) as Hm by (apply Z.mod_pos_bound; lia).
    assert (n = 16 * (n / 16) + n mod 16) as Hdm
      by (apply Z.div_mod; lia).
    simpl hex_upper_aux.
    destruct (Z.eqb_spec (n / 16) 0) as [E|Hne].
    + simpl. rewrite (proj2 (hex_digit_upper_ok _ Hm)). simpl.
      f_equal. lia.
    + rewrite IH.
      * simpl. rewrite (proj2 (hex_digit_upper_ok _ Hm)). simpl.
        f_equal. lia.
      * split; [apply Z.div_pos; lia|].
        apply Z.div_lt_upper_bound; lia.
Qed.

Lemma hex_upper_aux_all (fuel : nat) :
  forall (n : Z) (acc : string),
    0 <= n -> all_upper_hex acc = true ->
    all_upper_hex (hex_upper_aux fuel n acc) = true.
Proof.
  induction fuel as [|fuel IH]; intros n acc Hn Hacc; [done|].
  assert (0 <= n mod 16 < 16) as Hm by (apply Z.mod_pos_bound; lia).
  assert (all_upper_hex (String (hex_digit_upper (n mod 16)) acc) = true)
    as Hacc'.
  { simpl. by rewrite (proj1 (hex_digit_upper_ok _ Hm)). }
  simpl hex_upper_aux. destruct (n / 16 =? 0); [exact Hacc'|].
  apply IH; [apply Z.div_pos; lia|exact Hacc'].
Qed.

Lemma hex_upper_aux_nonempty (fuel : nat) :
  forall (n : Z) (acc : string),
    acc <> "" -> hex_upper_aux fuel n acc <> "".
Proof.
  induction fuel as [|fuel IH]; intros n acc Hacc; [done|].
  simpl. destruct (n / 16 =? 0); [done|]. by apply IH.
Qed.

Lemma zeros_app_all (k : nat) (s : string) :
  all_upper_hex (zeros k +:+ s) = all_upper_hex s.
Proof. induction k as [|k IH]; [done|]. simpl. exact IH. Qed.

Lemma zeros_app_val (k : nat) (s : string) :
  hex_val (zeros k +:+ s) 0 = hex_val s 0.
Proof. induction k as [|k IH]; [done|]. simpl. exact IH. Qed.

Lemma zeros_app_nonempty (k : nat) (s : string) :
  s <> "" -> zeros k +:+ s <> "".
Proof. intros Hs. by destruct k. Qed.

(** What ['{:0wX}'.format(n)] writes for a natural number: digits only,
    at least one, denoting [n]. *)
Lemma format_0X_digits (w : nat) (n : Z) :
  0 <= n ->
  all_upper_hex (format_0X w n) = true
  /\ format_0X w n <> ""
  /\ hex_val (format_0X w n) 0 = n.
Proof.
  intros Hn.
  assert (format_0X w n
          = zeros (w - 0 - String.length (hex_upper n)) +:+ hex_upper n)
    as ->.
  { unfold format_0X. destruct (Z.ltb_spec n 0) as [Hlt|_]; [lia|].
    rewrite Z.abs_eq by lia. reflexivity. }
  unfold hex_upper. split; [|split].
  - rewrite zeros_app_all. by apply hex_upper_aux_all.
  - apply zeros_app_nonempty. simpl.
    destruct (n / 16 =? 0); [done|]. by apply hex_upper_aux_nonempty.
  - rewrite zeros_app_val, hex_upper_aux_val; [done|].
    split; [done|].
    destruct (Z.eq_dec n 0) as [->|Hne]; [done|].
    rewrite Nat2Z.inj_succ, Z2Nat.id by apply Z.log2_nonneg.
    assert (n < 2 ^ Z.succ (Z.log2 n)) as H2
      by (apply Z.log2_spec; lia).
    assert (2 ^ Z.succ (Z.log2 n) <= 16 ^ Z.succ (Z.log2 n)) as H16.
    { apply Z.pow_le_mono_l. lia. }
    lia.
Qed.

(** [int(s, 16)] on a non-empty string of upper-case hexadecimal
    digits. *)
Lemma int16_digits (s : string) :
  all_upper_hex s = true -> s <> "" -> int16 s = Ok (hex_val s 0).
Proof.
  intros Hall Hne. destruct s as [|c s]; [done|]. clear Hne.
  pose proof Hall as Hc. simpl in Hc. apply andb_true_iff in Hc as [Hc _].
  destruct (upper_hex_char c Hc) as (Hsp & Hu & _ & _ & _ & _ & _ & Hsign).
  unfold int16. simpl lstrip. rewrite Hsp, Hsign.
  rewrite (skip_0x_all _ Hall), (not_underscore c _ _ Hu).
  rewrite (scan_hex_all _ Hall). simpl.
  by destruct (hex_val s _).
Qed.

Lemma count_char_digits (sep : ascii) (s : string) :
  (forall c, is_upper_hex c = true -> Ascii.eqb c sep = false) ->
  all_upper_hex s = true -> count_char sep s = 0%nat.
Proof.
  intros Hsep. induction s as [|c s IH]; [done|]. simpl. intros Hs.
  apply andb_true_iff in Hs as [Hc Hs]. by rewrite (Hsep c Hc), IH.
Qed.

Lemma printed_entry_well_formed (bank addr : Z) (name : string) :
  0 <= bank -> 0 <= addr ->
  Forall (fun sep => count_char sep name = 0%nat)
    [":"; " "; "010"]%char ->
  well_formed_entry
    (SymbolEntry (format_0X 2 bank) (format_0X 4 addr) name bank addr).
Proof.
  intros Hb Ha Hname.
  destruct (proj1 (Forall_cons _ _ _) Hname) as [Hn1 Hname1].
  destruct (proj1 (Forall_cons _ _ _) Hname1) as [Hn2 Hname2].
  destruct (proj1 (Forall_cons _ _ _) Hname2) as [Hn3 _].
  destruct (format_0X_digits 2 bank Hb) as (Hball & Hbne & Hbval).
  destruct (format_0X_digits 4 addr Ha) as (Haall & Hane & Haval).
  assert (forall sep s,
            (sep = ":" \/ sep = " " \/ sep = "010")%char ->
            all_upper_hex s = true -> count_char sep s = 0%nat) as Hcount.
  { intros sep s Hsep. apply count_char_digits. intros c Hc.
    destruct (upper_hex_char c Hc) as (_ & _ & H1 & H2 & H3 & _).
    by destruct Hsep as [->|[->| ->]]. }
  unfold well_formed_entry. simpl.
  split; [by rewrite int16_digits, Hbval|].
  split; [by rewrite int16_digits, Haval|].
  split; [|split; [|exact Hn2]].
  - repeat constructor; (done || (apply Hcount; [|done]; tauto)).
  - apply Hcount; [tauto|done].
Qed.

(** X13. A natural number written as the decoder prints it, in
    upper-case hexadecimal padded with zeros, is read back by
    [int(s, 16)] as the same number.  So a line of a symbol file that
    gives the bank as the decoder prints a data byte and the address as
    it prints an address is loaded at that bank and that address. *)
Theorem printed_numbers_load_back (bank addr : Z) (name : string)
    (symbols : gmap Z (gmap Z string)) :
  0 <= bank -> 0 <= addr ->
  Forall (fun sep => count_char sep name = 0%nat)
    [":"; " "; "010"]%char ->
  int16 (format_0X 2 bank) = Ok bank
  /\ int16 (format_0X 4 addr) = Ok addr
  /\ Lookups.process_line (printed_line bank addr name) symbols
     = ([], Ok (insert_symbol addr bank name symbols)).
Proof.
  intros Hb Ha Hname.
  pose proof (printed_entry_well_formed bank addr name Hb Ha Hname) as Hwf.
  split; [apply Hwf|]. split; [apply Hwf|].
  exact (process_line_entry _ symbols Hwf).
Qed.

Lemma printed_numbers_load_back_witness :
  int16 "1F" = Ok 0x1F /\ int16 "A0C4" = Ok 0xA0C4
  /\ Lookups.process_line "1F:A0C4 wScratch" ∅
     = ([], Ok (insert_symbol 0xA0C4 0x1F "wScratch" ∅)).
Proof.
  apply (printed_numbers_load_back 0x1F 0xA0C4 "wScratch" ∅); [lia|lia|].
  repeat constructor.
Defined.
